(** * wa-load-go: session lifecycle of a call-signaling gateway

    A shallow embedding of the two top-level programs of the repository
    (main.go, and the later variant that keeps pc and channel together in
    one sync.Map), with the properties of their session registry, decision
    hand-off, reaper and audio pacer. *)

From Stdlib Require Import ZArith List Bool Lia SpecFloat.
From stdpp Require Import base option list gmap strings fin_maps pretty.

Set Warnings "-register-all".

(** ** Machine arithmetic used by the pacer *)

Module Arith.
Open Scope Z_scope.

(** uint64 and int64 wrap-around, written out. *)
Definition two63 : Z := Eval cbv in 2 ^ 63.
Definition two64 : Z := Eval cbv in 2 ^ 64.

Definition wrap_uint64 (z : Z) : Z := z mod two64.

Definition wrap_int64 (z : Z) : Z := (z + two63) mod two64 - two63.

(** binary64: 53 bits of precision, emax 1024. *)
Definition prec : Z := 53.
Definition emax : Z := 1024.

(** float64(u) for an unsigned integer u: round to nearest, ties to even. *)
Definition float64_of_uint64 (u : Z) : spec_float :=
  binary_normalize prec emax u 0 false.

Definition float64_of_Z (z : Z) : spec_float :=
  binary_normalize prec emax z 0 false.

Definition float64_div (x y : spec_float) : spec_float := SFdiv prec emax x y.
Definition float64_mul (x y : spec_float) : spec_float := SFmul prec emax x y.

(** Conversion of a float64 to a signed integer truncates toward zero.
    The result is [None] for infinities and NaN, where Go leaves the
    value to the implementation. *)
Definition trunc_float64 (x : spec_float) : option Z :=
  match x with
  | S754_zero _ => Some 0
  | S754_finite s m e =>
      let mag := match e with
                 | Z0 => Zpos m
                 | Zpos p => Zpos m * 2 ^ Zpos p
                 | Zneg p => Zpos m / 2 ^ Zpos p
                 end in
      Some (if s then - mag else mag)
  | _ => None
  end.

(** On amd64 (the GOARCH of the Dockerfile) a conversion whose value does
    not fit yields the smallest int64. *)
Definition int64_of_float64 (x : spec_float) : Z :=
  match trunc_float64 x with
  | Some t => if (- two63 <=? t) && (t <? two63) then t else - two63
  | None => - two63
  end.

(** time.Millisecond, in nanoseconds. *)
Definition Millisecond : Z := 1000000.

End Arith.

(** ** Data model (the type declarations shared by both programs) *)

Definition error := string.

(** A decoded JSON value held in a Go [any]. *)
Inductive any :=
| ANil
| ABool (b : bool)
| ANumber (x : Z)
| AString (s : string)
| AStringMap (m : gmap string string)
| AArray (l : list any)
| AMap (m : gmap string any).

Record Offer := { Offer_SDP : string; Offer_Type : string }.

Record SessionDescription := { SDP : string; Type_ : string }.

Record OfferRequest := {
  OfferRequest_To : string;
  OfferRequest_CallbackURL : string;
  OfferRequest_CallID : string;
  OfferRequest_From : string }.

Record OfferResponse := {
  OfferResponse_CallID : string;
  OfferResponse_Offer : Offer;
  OfferResponse_CallbackResponse : string }.

Record ActionRequest := {
  ActionRequest_CallID : string;
  ActionRequest_Action : string;
  ActionRequest_Connection : gmap string any;
  ActionRequest_Session : gmap string any;
  ActionRequest_MessagingProduct : string }.

Record Call := {
  Call_ID : string;
  Call_From : string;
  Call_To : string;
  Call_Event : string;
  Call_Timestamp : string;
  Call_Direction : string;
  Call_Status : string;
  Call_Connection : gmap string any;
  Call_Session : gmap string any }.

Record Metadata := { DisplayPhoneNumber : string; PhoneNumberID : string }.

Record Value := {
  Value_MessagingProduct : string;
  Value_Calls : list Call;
  Value_Metadata : Metadata;
  Value_Contacts : any }.

Record Change := { Change_Value : Value; Change_Field : string }.

Record Entry := { Entry_ID : string; Entry_Changes : list Change }.

Record Event := { Event_Object : string; Event_Entry : list Entry }.

Record AnswerResponse := {
  AnswerResponse_CallID : string;
  AnswerResponse_Answer : SessionDescription }.

Record AnswerRequest := {
  AnswerRequest_CallID : string;
  AnswerRequest_To : string;
  AnswerRequest_Action : string;
  AnswerRequest_Session : SessionDescription;
  AnswerRequest_MessagingProduct : string;
  AnswerRequest_CallbackURL : string;
  AnswerRequest_CallbackData : string }.

(** actionData (ActionData in the second program): what travels through a
    decision channel. *)
Record actionData := { Action : string; Data : SessionDescription }.

(** ** HTTP responses *)

Inductive Body :=
| BodyMap (m : gmap string string)
| BodyEvent (e : Event)
| BodyAnswer (a : AnswerResponse).

Record Response := { StatusCode : nat; ResponseBody : Body }.

Definition StatusOK : nat := 200.
Definition StatusBadRequest : nat := 400.
Definition StatusInternalServerError : nat := 500.

(** c.Status(code).JSON(fiber.Map{"error": msg}) *)
Definition errorJSON (code : nat) (msg : string) : Response :=
  {| StatusCode := code; ResponseBody := BodyMap {[ "error" := msg ]} |}.

(** The reply of processAction for a call id it does not find. *)
Definition noOfferJSON (action : ActionRequest) : Response :=
  {| StatusCode := StatusOK;
     ResponseBody := BodyMap
       (<[ "status" := "No corresponding offer for this call_id or already closed" ]>
       (<[ "call_id" := ActionRequest_CallID action ]>
       (<[ "action" := ActionRequest_Action action ]> ∅))) |}.

Definition processedJSON : Response :=
  {| StatusCode := StatusOK;
     ResponseBody := BodyMap {[ "status" := "Action processed successfully" ]} |}.

(** ** The transport engine (pion), as far as the programs observe it *)

Record PeerConnection := {
  pc_closed : bool;
  (** the local description, nil until SetLocalDescription succeeds *)
  pc_local : option SessionDescription;
  (** every SetRemoteDescription call on this connection, newest first:
      its argument and whether the engine took it *)
  pc_remote : list (SessionDescription * bool) }.

Definition newPeerConnection : PeerConnection :=
  {| pc_closed := false; pc_local := None; pc_remote := [] |}.

(** pc.Close(): closes; on a closed connection it changes nothing. *)
Definition Close (p : PeerConnection) : PeerConnection :=
  {| pc_closed := true; pc_local := pc_local p; pc_remote := pc_remote p |}.

(** pc.SetRemoteDescription(d). [ok] is the engine's verdict on [d]; a
    closed connection refuses every description. *)
Definition SetRemoteDescription (d : SessionDescription) (ok : bool)
    (p : PeerConnection) : PeerConnection * bool :=
  let taken := ok && negb (pc_closed p) in
  ({| pc_closed := pc_closed p; pc_local := pc_local p;
      pc_remote := (d, taken) :: pc_remote p |}, taken).

Definition SetLocalDescription (d : option SessionDescription)
    (p : PeerConnection) : PeerConnection :=
  {| pc_closed := pc_closed p; pc_local := d; pc_remote := pc_remote p |}.

(** What the engine, the clock and the uuid source answer during one
    create call.  [None] in an [option error] is Go's nil error. *)
Record Env := {
  uuid_New : string;
  time_Now_Unix : Z;
  NewPeerConnection_err : option error;
  NewTrackLocalStaticSample_err : option error;
  AddTrack_err : option error;
  (** CreateOffer / CreateAnswer *)
  Create_res : error + SessionDescription;
  SetLocalDescription_err : option error;
  (** pc.LocalDescription() once gathering is complete; [None] is nil *)
  LocalDescription : option SessionDescription;
  (** the engine's verdict on the remote offer (answer flow) *)
  SetRemoteDescription_err : option error;
  (** encoding/json on a map of strings *)
  json_Marshal : gmap string string -> string }.

(** ** Decision channels: make(chan actionData, 1) *)

Record Chan := {
  (** buffered values, oldest first; never more than one *)
  buf : list actionData;
  (** senders parked on a full buffer, oldest first *)
  sendq : list actionData }.

Definition makeChan : Chan := {| buf := []; sendq := [] |}.

(** ch <- m.  The result tells whether the sender went on ([true]) or is
    parked ([false]). *)
Definition chanSend (m : actionData) (c : Chan) : Chan * bool :=
  match buf c with
  | [] => ({| buf := [m]; sendq := sendq c |}, true)
  | _ :: _ => ({| buf := buf c; sendq := sendq c ++ [m] |}, false)
  end.

(** <-ch on a channel with a buffered value: the value, the channel
    afterwards, and how many parked senders were released (0 or 1). *)
Definition chanRecv (c : Chan) : option (actionData * Chan * nat) :=
  match buf c with
  | [] => None
  | m :: rest =>
      match sendq c with
      | [] => Some (m, {| buf := rest; sendq := [] |}, 0)
      | w :: q => Some (m, {| buf := rest ++ [w]; sendq := q |}, 1)
      end
  end.

(** ** The audio pacer (the ticker loop of streamAudio) *)

Record Sample := { Sample_Data : list Byte.byte; Sample_Duration : Z }.

(** One result of ogg.ParseNextPage: a page with its payload and the
    granule position of its header, or a read error.  A reader is the
    list of results still to come; past its end ParseNextPage is io.EOF. *)
Inductive ParseResult :=
| Page (pageData : list Byte.byte) (GranulePosition : Z)
| ParseErr.

(** sampleCount := float64(pageHeader.GranulePosition - lastGranule)
    sampleDuration := time.Duration((sampleCount/48000)*1000) * time.Millisecond *)
Definition sampleDuration (GranulePosition lastGranule : Z) : Z :=
  let sampleCount :=
    Arith.float64_of_uint64 (Arith.wrap_uint64 (GranulePosition - lastGranule)) in
  Arith.wrap_int64
    (Arith.int64_of_float64
       (Arith.float64_mul
          (Arith.float64_div sampleCount (Arith.float64_of_Z 48000))
          (Arith.float64_of_Z 1000))
     * Arith.Millisecond).

Inductive Pacer :=
| PacerNone
(** file open, waiting for the first connectivity signal (second program) *)
| PacerWaitIce (ogg : list ParseResult)
(** in the ticker loop *)
| PacerLoop (lastGranule : Z) (ogg : list ParseResult)
| PacerDone.

(** The body of [case <-ticker.C]: the pacer afterwards and the sample
    handed to audioTrack.WriteSample, with [writeOk] the result of that
    write. *)
Definition pacerTick (writeOk : bool) (lastGranule : Z) (ogg : list ParseResult)
    : Pacer * option Sample :=
  match ogg with
  | [] => (PacerDone, None)
  | ParseErr :: _ => (PacerDone, None)
  | Page pageData GranulePosition :: rest =>
      let sample := {| Sample_Data := pageData;
                       Sample_Duration := sampleDuration GranulePosition lastGranule |} in
      if writeOk then (PacerLoop GranulePosition rest, Some sample)
      else (PacerDone, None)
  end.

(** The pacer goroutine from its start: os.Open and oggreader.NewWith
    gave [file] ([None] when either failed). *)
Definition pacerOpen (file : option (list ParseResult)) (next : list ParseResult -> Pacer) : Pacer :=
  match file with
  | None => PacerDone
  | Some ogg => next ogg
  end.

(** ** Pieces shared by the two programs *)

(** validCloseActions *)
Definition validCloseActions : gmap string bool :=
  <[ "terminate" := true ]> (<[ "reject" := true ]> (<[ "hangup" := true ]> ∅)).

(** The lookup of the remote description in an accept request: first
    connection.webrtc.sdp, then session.sdp; [None] is found == false. *)
Definition findSDP (action : ActionRequest) : option string :=
  let nested :=
    match ActionRequest_Connection action !! "webrtc" with
    | Some (AMap webrtcData) =>
        match webrtcData !! "sdp" with
        | Some (AString sdp) => Some sdp
        | _ => None
        end
    | _ => None
    end in
  match nested with
  | Some sdp => Some sdp
  | None =>
      match ActionRequest_Session action !! "sdp" with
      | Some (AString sessionData) => Some sessionData
      | _ => None
      end
  end.

Definition acceptData (action : ActionRequest) (sdpString : string) : actionData :=
  {| Action := ActionRequest_Action action;
     Data := {| SDP := sdpString; Type_ := "answer" |} |}.

Definition createCallbackPayload (env : Env) (request : OfferRequest) (offer : Offer)
    (callID : string) : Event :=
  let sdpData := json_Marshal env
    (<[ "type" := Offer_Type offer ]> (<[ "sdp" := Offer_SDP offer ]> ∅)) in
  let connection : gmap string any :=
    {[ "webrtc" := AStringMap {[ "sdp" := sdpData ]} ]} in
  let session : gmap string any :=
    <[ "sdp" := AString (Offer_SDP offer) ]>
      (<[ "sdp_type" := AString (Offer_Type offer) ]> ∅) in
  let call := {|
    Call_ID := callID;
    Call_From := OfferRequest_From request;
    Call_To := OfferRequest_To request;
    Call_Event := "connect";
    Call_Timestamp := pretty (time_Now_Unix env);
    Call_Direction := "USER_INITIATED";
    Call_Status := EmptyString;
    Call_Connection := connection;
    Call_Session := session |} in
  let metadata := {| DisplayPhoneNumber := "919999999999";
                     PhoneNumberID := "00000000000000" |} in
  let contacts := AArray [AMap
    (<[ "profile" := AStringMap {[ "name" := "Gupshup Load" ]} ]>
       (<[ "wa_id" := AString "00000000000000" ]> ∅))] in
  let value := {| Value_MessagingProduct := "random";
                  Value_Calls := [call];
                  Value_Metadata := metadata;
                  Value_Contacts := contacts |} in
  let change := {| Change_Value := value; Change_Field := "calls" |} in
  let entry := {| Entry_ID := "00000000000000"; Entry_Changes := [change] |} in
  {| Event_Object := "random_business_account"; Event_Entry := [entry] |}.

(** The callID a create call works with: the caller's, or a fresh uuid. *)
Definition chooseCallID (requested : string) (env : Env) : string :=
  if decide (requested = EmptyString) then uuid_New env else requested.

(** Which create function made a session. *)
Inductive Flow := OfferFlow | AnswerFlow.

(** The goroutine running autoRemovePeerConnection. *)
Inductive Reaper := ReaperNone | ReaperSleeping | ReaperDone.

(** * The first program: main.go *)

Module MainGo.

(** The goroutine a create call leaves behind: in generateSDPOffer the
    anonymous function that selects on ch and ctx.Done() and then runs
    streamAudio itself; in generateSDPAnswer, go streamAudio(...). *)
Inductive Goroutine :=
| GoNone
(** blocked in select { case action := <-ch; case <-ctx.Done() } *)
| GoSelect
(** inside streamAudio, blocked in select { case <-iceConnected; case <-ctx.Done() } *)
| GoStreamAudio
| GoReturned.

(** The objects one call of generateSDPOffer or generateSDPAnswer
    allocates, and the goroutines it starts.  A handle to pc or ch is the
    index of the frame in the heap.  A frame whose call failed before pc
    was made holds the zero connection; no handle to it exists. *)
Record Frame := {
  (** the callID variable of the call *)
  f_callID : string;
  (** which create function made the frame *)
  f_flow : Flow;
  (** pc *)
  f_pc : PeerConnection;
  (** ch *)
  f_ch : Chan;
  (** whether ctx.Done() is closed *)
  f_ctx : bool;
  (** the goroutine the call starts *)
  f_go : Goroutine;
  (** go autoRemovePeerConnection(callID, 45*time.Second) *)
  f_reaper : Reaper;
  (** the ticker goroutine inside streamAudio *)
  f_pacer : Pacer;
  (** how many times streamAudio was entered for pc *)
  f_streamAudio : nat;
  (** the decisions taken out of ch, newest first *)
  f_consumed : list actionData;
  (** the samples written to audioTrack, newest first *)
  f_track : list Sample }.

Definition set_f_pc (x : PeerConnection) (f : Frame) : Frame :=
  {| f_callID := f_callID f; f_flow := f_flow f; f_pc := x; f_ch := f_ch f; f_ctx := f_ctx f; f_go := f_go f; f_reaper := f_reaper f; f_pacer := f_pacer f; f_streamAudio := f_streamAudio f; f_consumed := f_consumed f; f_track := f_track f |}.

Definition set_f_ch (x : Chan) (f : Frame) : Frame :=
  {| f_callID := f_callID f; f_flow := f_flow f; f_pc := f_pc f; f_ch := x; f_ctx := f_ctx f; f_go := f_go f; f_reaper := f_reaper f; f_pacer := f_pacer f; f_streamAudio := f_streamAudio f; f_consumed := f_consumed f; f_track := f_track f |}.

Definition set_f_go (x : Goroutine) (f : Frame) : Frame :=
  {| f_callID := f_callID f; f_flow := f_flow f; f_pc := f_pc f; f_ch := f_ch f; f_ctx := f_ctx f; f_go := x; f_reaper := f_reaper f; f_pacer := f_pacer f; f_streamAudio := f_streamAudio f; f_consumed := f_consumed f; f_track := f_track f |}.

Definition set_f_reaper (x : Reaper) (f : Frame) : Frame :=
  {| f_callID := f_callID f; f_flow := f_flow f; f_pc := f_pc f; f_ch := f_ch f; f_ctx := f_ctx f; f_go := f_go f; f_reaper := x; f_pacer := f_pacer f; f_streamAudio := f_streamAudio f; f_consumed := f_consumed f; f_track := f_track f |}.

Definition set_f_pacer (x : Pacer) (f : Frame) : Frame :=
  {| f_callID := f_callID f; f_flow := f_flow f; f_pc := f_pc f; f_ch := f_ch f; f_ctx := f_ctx f; f_go := f_go f; f_reaper := f_reaper f; f_pacer := x; f_streamAudio := f_streamAudio f; f_consumed := f_consumed f; f_track := f_track f |}.

Definition set_f_streamAudio (x : nat) (f : Frame) : Frame :=
  {| f_callID := f_callID f; f_flow := f_flow f; f_pc := f_pc f; f_ch := f_ch f; f_ctx := f_ctx f; f_go := f_go f; f_reaper := f_reaper f; f_pacer := f_pacer f; f_streamAudio := x; f_consumed := f_consumed f; f_track := f_track f |}.

Definition set_f_consumed (x : list actionData) (f : Frame) : Frame :=
  {| f_callID := f_callID f; f_flow := f_flow f; f_pc := f_pc f; f_ch := f_ch f; f_ctx := f_ctx f; f_go := f_go f; f_reaper := f_reaper f; f_pacer := f_pacer f; f_streamAudio := f_streamAudio f; f_consumed := x; f_track := f_track f |}.

Definition set_f_track (x : list Sample) (f : Frame) : Frame :=
  {| f_callID := f_callID f; f_flow := f_flow f; f_pc := f_pc f; f_ch := f_ch f; f_ctx := f_ctx f; f_go := f_go f; f_reaper := f_reaper f; f_pacer := f_pacer f; f_streamAudio := f_streamAudio f; f_consumed := f_consumed f; f_track := x |}.

Record State := {
  callIDToOffer : gmap string nat;
  actionChannels : gmap string nat;
  frames : list Frame;
  (** the POSTs handed to sendCallbackAsync, oldest first *)
  callbacks : list (string * Event) }.

Definition init : State :=
  {| callIDToOffer := ∅; actionChannels := ∅; frames := []; callbacks := [] |}.

Definition set_callIDToOffer (m : gmap string nat) (s : State) : State :=
  {| callIDToOffer := m; actionChannels := actionChannels s;
     frames := frames s; callbacks := callbacks s |}.

Definition set_actionChannels (m : gmap string nat) (s : State) : State :=
  {| callIDToOffer := callIDToOffer s; actionChannels := m;
     frames := frames s; callbacks := callbacks s |}.

Definition set_frames (l : list Frame) (s : State) : State :=
  {| callIDToOffer := callIDToOffer s; actionChannels := actionChannels s;
     frames := l; callbacks := callbacks s |}.

(** pc.Close() on the connection of a frame. *)
Definition closeFrame (f : Frame) : Frame := set_f_pc (Close (f_pc f)) f.

(** Apply [g] to frame [n]. *)
Definition onFrame (n : nat) (g : Frame -> Frame) (s : State) : State :=
  set_frames (alter g n (frames s)) s.

Definition offerFrame (callID : string) (pc : PeerConnection) (live : bool) : Frame :=
  {| f_callID := callID; f_flow := OfferFlow; f_pc := pc; f_ch := makeChan;
     (* defer cancel() has run by the time the call has returned *)
     f_ctx := true;
     f_go := if live then GoSelect else GoNone;
     f_reaper := if live then ReaperSleeping else ReaperNone;
     f_pacer := PacerNone; f_streamAudio := 0;
     f_consumed := []; f_track := [] |}.

(** generateSDPOffer.  The whole call is one step: until it publishes
    them, pc and ch are known to this call alone. *)
Definition generateSDPOffer (request : OfferRequest) (env : Env) (s : State)
    : State * (error + Event) :=
  let n := length (frames s) in
  let callID := chooseCallID (OfferRequest_CallID request) env in
  (* actionChannels.Store(callID, ch) *)
  let s := set_actionChannels (<[ callID := n ]> (actionChannels s)) s in
  let fail (pc : PeerConnection) (err : error) : State * (error + Event) :=
    (set_frames (frames s ++ [offerFrame callID pc false]) s, inl err) in
  match NewPeerConnection_err env with
  | Some err => fail newPeerConnection err
  | None =>
  let pc := newPeerConnection in
  match NewTrackLocalStaticSample_err env with
  | Some err => fail (Close pc) err
  | None =>
  match AddTrack_err env with
  | Some err => fail (Close pc) err
  | None =>
  match Create_res env with
  | inl err => fail (Close pc) err
  | inr offer =>
  match SetLocalDescription_err env with
  | Some err => fail (Close pc) err
  | None =>
  (* <-gatherComplete; finalOffer := pc.LocalDescription() *)
  match LocalDescription env with
  | None => fail (Close pc) "failed to retrieve local description"
  | Some finalOffer =>
  let pc := SetLocalDescription (Some finalOffer) pc in
  (* callIDToOffer[callID] = pc; go autoRemovePeerConnection(...) *)
  let offerResponse :=
    {| OfferResponse_CallID := EmptyString;
       OfferResponse_Offer := {| Offer_SDP := SDP finalOffer; Offer_Type := Type_ finalOffer |};
       OfferResponse_CallbackResponse := EmptyString |} in
  let payload := createCallbackPayload env request (OfferResponse_Offer offerResponse) callID in
  let posts :=
    if decide (OfferRequest_CallbackURL request = EmptyString) then callbacks s
    else callbacks s ++ [(OfferRequest_CallbackURL request, payload)] in
  ({| callIDToOffer := <[ callID := n ]> (callIDToOffer s);
      actionChannels := actionChannels s;
      frames := frames s ++ [offerFrame callID pc true];
      callbacks := posts |}, inr payload)
  end end end end end end.

(** The handler of POST /load/offer. *)
Definition processOffer (body : option OfferRequest) (env : Env) (s : State)
    : State * Response :=
  match body with
  | None => (s, errorJSON StatusBadRequest "Invalid request")
  | Some request =>
      match generateSDPOffer request env s with
      | (s', inl err) =>
          (s', errorJSON StatusInternalServerError ("Error generating offer: " +:+ err))
      | (s', inr response) =>
          (s', {| StatusCode := StatusOK; ResponseBody := BodyEvent response |})
      end
  end.

Definition answerFrame (callID : string) (pc : PeerConnection) : Frame :=
  {| f_callID := callID; f_flow := AnswerFlow; f_pc := pc; f_ch := makeChan;
     (* context.Background() is never done *)
     f_ctx := false;
     (* go streamAudio(context.Background(), pc, ...) *)
     f_go := GoStreamAudio;
     f_reaper := ReaperSleeping;
     f_pacer := PacerNone; f_streamAudio := 1;
     f_consumed := []; f_track := [] |}.

(** generateSDPAnswer.  A call that fails leaves nothing reachable behind
    (its pc is closed and dropped), so the state is as before.  The last
    case is the nil dereference of pc.LocalDescription() at the return:
    the result is [None] and the run has no later state to show. *)
Definition generateSDPAnswer (request : AnswerRequest) (env : Env) (s : State)
    : option (State * (error + AnswerResponse)) :=
  let n := length (frames s) in
  match NewPeerConnection_err env with
  | Some err => Some (s, inl err)
  | None =>
  let pc := newPeerConnection in
  let remoteDesc := {| SDP := SDP (AnswerRequest_Session request); Type_ := "offer" |} in
  match SetRemoteDescription_err env with
  | Some err => Some (s, inl err)
  | None =>
  let pc := fst (SetRemoteDescription remoteDesc true pc) in
  match NewTrackLocalStaticSample_err env with
  | Some err => Some (s, inl err)
  | None =>
  match AddTrack_err env with
  | Some err => Some (s, inl err)
  | None =>
  match Create_res env with
  | inl err => Some (s, inl err)
  | inr answer =>
  match SetLocalDescription_err env with
  | Some err => Some (s, inl err)
  | None =>
  let callID := chooseCallID (AnswerRequest_CallID request) env in
  match LocalDescription env with
  | None => None
  | Some localDescription =>
  let pc := SetLocalDescription (Some localDescription) pc in
  Some ({| callIDToOffer := <[ callID := n ]> (callIDToOffer s);
           actionChannels := actionChannels s;
           frames := frames s ++ [answerFrame callID pc];
           callbacks := callbacks s |},
        inr {| AnswerResponse_CallID := callID;
               AnswerResponse_Answer :=
                 {| SDP := SDP localDescription; Type_ := Type_ localDescription |} |})
  end end end end end end end.

(** processAnswer, the handler of POST /load/calls; [None] when it panics. *)
Definition processAnswer (body : option AnswerRequest) (env : Env) (s : State)
    : option (State * Response) :=
  match body with
  | None => Some (s, errorJSON StatusBadRequest "Invalid request")
  | Some request =>
      if decide (AnswerRequest_Action request = "connect") then
        match generateSDPAnswer request env s with
        | None => None
        | Some (s', inl err) =>
            Some (s', errorJSON StatusInternalServerError
                        ("Error generating answer: " +:+ err))
        | Some (s', inr response) =>
            Some (s', {| StatusCode := StatusOK; ResponseBody := BodyAnswer response |})
        end
      else Some (s, errorJSON StatusBadRequest "Invalid action")
  end.

(** processAction, the handler of POST /load/action.  The reply is [None]
    when the handler is parked on the channel send. *)
Definition processAction (body : option ActionRequest) (s : State)
    : State * option Response :=
  match body with
  | None => (s, Some (errorJSON StatusBadRequest "Invalid request body"))
  | Some action =>
      match callIDToOffer s !! ActionRequest_CallID action with
      | None => (s, Some (noOfferJSON action))
      | Some pc =>
          let s :=
            match validCloseActions !! ActionRequest_Action action with
            | Some _ =>
                (* pc.Close(); delete(callIDToOffer, action.CallID) *)
                set_callIDToOffer
                  (delete (ActionRequest_CallID action) (callIDToOffer s))
                  (onFrame pc closeFrame s)
            | None => s
            end in
          if decide (ActionRequest_Action action = "accept") then
            match findSDP action with
            | None => (s, Some (errorJSON StatusBadRequest "SDP data missing"))
            | Some sdpString =>
                match actionChannels s !! ActionRequest_CallID action with
                | Some ch =>
                    match frames s !! ch with
                    | Some f =>
                        let '(c, went) := chanSend (acceptData action sdpString) (f_ch f) in
                        (onFrame ch (set_f_ch c) s,
                         if went then Some processedJSON else None)
                    | None => (s, Some processedJSON)
                    end
                | None => (s, Some processedJSON)
                end
            end
          else (s, Some processedJSON)
      end
  end.

(** actionChannels.Delete(callID), deferred in the goroutine of
    generateSDPOffer; go streamAudio has no such defer. *)
Definition goReturn (f : Frame) (s : State) : State :=
  match f_flow f with
  | OfferFlow => set_actionChannels (delete (f_callID f) (actionChannels s)) s
  | AnswerFlow => s
  end.

(** What the goroutine of generateSDPOffer does with the [action] it
    takes out of ch, leaving the channel as [c]: on "accept" it sets the
    remote description ([setRemoteOk] is the engine's verdict) and, if
    that went well, enters streamAudio; in every other case it returns. *)
Definition receiveDecision (action : actionData) (c : Chan) (setRemoteOk : bool)
    (f : Frame) : Frame :=
  let f := set_f_consumed (action :: f_consumed f) (set_f_ch c f) in
  if decide (Action action = "accept") then
    let remoteDesc := {| SDP := SDP (Data action); Type_ := "answer" |} in
    let '(pc, taken) := SetRemoteDescription remoteDesc setRemoteOk (f_pc f) in
    let f := set_f_pc pc f in
    if taken then
      (* streamAudio(ctx, pc, ...) *)
      set_f_streamAudio (S (f_streamAudio f)) (set_f_go GoStreamAudio f)
    else set_f_go GoReturned f
  else set_f_go GoReturned f.

(** [case action := <-ch] of frame [n].  When the goroutine returns, its
    deferred Delete runs.  The second component counts the parked senders
    that the receive lets go on. *)
Definition waiterReceive (n : nat) (setRemoteOk : bool) (s : State) : State * nat :=
  match frames s !! n with
  | Some f =>
      match f_go f, chanRecv (f_ch f) with
      | GoSelect, Some (action, c, released) =>
          let f' := receiveDecision action c setRemoteOk f in
          let s := onFrame n (fun _ => f') s in
          (match f_go f' with
           | GoReturned => goReturn f' s
           | _ => s
           end, released)
      | _, _ => (s, 0)
      end
  | None => (s, 0)
  end.

(** [case <-ctx.Done()] of the first select. *)
Definition waiterCtxDone (n : nat) (s : State) : State :=
  match frames s !! n with
  | Some f =>
      match f_go f, f_ctx f with
      | GoSelect, true => goReturn f (onFrame n (set_f_go GoReturned) s)
      | _, _ => s
      end
  | None => s
  end.

(** streamAudio, [case <-iceConnected]: the RTCP reader and the ticker
    goroutine are started and streamAudio returns.  [file] is what
    os.Open and oggreader.NewWith give the ticker goroutine. *)
Definition streamIceConnected (n : nat) (file : option (list ParseResult)) (s : State)
    : State :=
  match frames s !! n with
  | Some f =>
      match f_go f with
      | GoStreamAudio =>
          goReturn f
            (onFrame n (fun f => set_f_pacer (pacerOpen file (PacerLoop 0))
                                   (set_f_go GoReturned f)) s)
      | _ => s
      end
  | None => s
  end.

(** streamAudio, [case <-ctx.Done()]. *)
Definition streamCtxDone (n : nat) (s : State) : State :=
  match frames s !! n with
  | Some f =>
      match f_go f, f_ctx f with
      | GoStreamAudio, true => goReturn f (onFrame n (set_f_go GoReturned) s)
      | _, _ => s
      end
  | None => s
  end.

(** The ticker goroutine, [case <-ticker.C]. *)
Definition tickFrame (writeOk : bool) (f : Frame) : Frame :=
  match f_pacer f with
  | PacerLoop lastGranule ogg =>
      let '(p, written) := pacerTick writeOk lastGranule ogg in
      set_f_track (option_list written ++ f_track f) (set_f_pacer p f)
  | _ => f
  end.

Definition pacerTickStep (n : nat) (writeOk : bool) (s : State) : State :=
  onFrame n (tickFrame writeOk) s.

(** The ticker goroutine, [case <-ctx.Done()]. *)
Definition pacerStop (f : Frame) : Frame :=
  match f_pacer f, f_ctx f with
  | PacerLoop _ _, true => set_f_pacer PacerDone f
  | _, _ => f
  end.

Definition pacerCtxDone (n : nat) (s : State) : State :=
  onFrame n pacerStop s.

(** autoRemovePeerConnection after its sleep; what happens between
    mutex.Lock() and mutex.Unlock() is one step. *)
Definition autoRemovePeerConnection (callID : string) (s : State) : State :=
  match callIDToOffer s !! callID with
  | Some pc =>
      set_callIDToOffer (delete callID (callIDToOffer s))
        (onFrame pc closeFrame s)
  | None => s
  end.

Definition reaperWake (n : nat) (s : State) : State :=
  match frames s !! n with
  | Some f =>
      match f_reaper f with
      | ReaperSleeping =>
          onFrame n (set_f_reaper ReaperDone) (autoRemovePeerConnection (f_callID f) s)
      | _ => s
      end
  | None => s
  end.

(** ** Runs: requests and goroutine steps, interleaved *)

Inductive Label :=
| PostOffer (body : option OfferRequest) (env : Env)
| PostCalls (body : option AnswerRequest) (env : Env)
| PostAction (body : option ActionRequest)
| WaiterReceive (n : nat) (setRemoteOk : bool)
| WaiterCtxDone (n : nat)
| StreamIceConnected (n : nat) (file : option (list ParseResult))
| StreamCtxDone (n : nat)
| PacerTick (n : nat) (writeOk : bool)
| PacerCtxDone (n : nat)
| ReaperWake (n : nat).

(** One step: the state afterwards and the HTTP replies that leave the
    server during the step.  A label that the state does not enable (a
    blocked goroutine, a handle that does not exist) changes nothing.  A
    handler runs in one step up to the point where it blocks; the sleep of
    the reaper is not timed, so the reaper may wake at any point of a run.
    The interrupt handler of main (close every connection, then os.Exit)
    ends the process and is not a step. *)
Definition step (l : Label) (s : State) : State * list Response :=
  match l with
  | PostOffer body env => let '(s', r) := processOffer body env s in (s', [r])
  | PostCalls body env =>
      match processAnswer body env s with
      | Some (s', r) => (s', [r])
      | None => (s, [])
      end
  | PostAction body => let '(s', r) := processAction body s in (s', option_list r)
  | WaiterReceive n ok =>
      let '(s', released) := waiterReceive n ok s in (s', replicate released processedJSON)
  | WaiterCtxDone n => (waiterCtxDone n s, [])
  | StreamIceConnected n file => (streamIceConnected n file s, [])
  | StreamCtxDone n => (streamCtxDone n s, [])
  | PacerTick n ok => (pacerTickStep n ok s, [])
  | PacerCtxDone n => (pacerCtxDone n s, [])
  | ReaperWake n => (reaperWake n s, [])
  end.

Fixpoint run (tr : list Label) (s : State) : State * list Response :=
  match tr with
  | [] => (s, [])
  | l :: tr' =>
      let '(s1, out1) := step l s in
      let '(s2, out2) := run tr' s1 in
      (s2, out1 ++ out2)
  end.

(** The state a run leaves, from the empty server. *)
Definition after (tr : list Label) : State := fst (run tr init).

End MainGo.

(** * The second program: pc and ch kept together in ActionChannels *)

Module Details.

(** The goroutine a create call leaves behind.  In generateSDPOffer it
    receives from ch and then from closech; in generateSDPAnswer it starts
    streamAudio and receives from closech. *)
Inductive Goroutine :=
| GoNone
(** blocked in select { case action := <-ch } *)
| GoSelect
(** blocked in select { case <-closech } *)
| GoCloseWait
| GoReturned.

(** The objects one successful call of generateSDPOffer or
    generateSDPAnswer allocates, and the goroutines it starts.  A handle
    to pc or ch is the index of the frame in the heap. *)
Record Frame := {
  (** the callID variable of the call *)
  f_callID : string;
  (** which create function made the frame *)
  f_flow : Flow;
  (** pc *)
  f_pc : PeerConnection;
  (** ch *)
  f_ch : Chan;
  (** closech, a chan int of capacity one: the values buffered *)
  f_closech : list Z;
  (** the goroutine the call starts *)
  f_go : Goroutine;
  (** go autoRemovePeerConnection(callID, 45*time.Second, closech) *)
  f_reaper : Reaper;
  (** the ticker goroutine inside streamAudio *)
  f_pacer : Pacer;
  (** how many times streamAudio was started for pc *)
  f_streamAudio : nat;
  (** the decisions taken out of ch, newest first *)
  f_consumed : list actionData;
  (** the samples written to audioTrack, newest first *)
  f_track : list Sample }.

Definition set_f_pc (x : PeerConnection) (f : Frame) : Frame :=
  {| f_callID := f_callID f; f_flow := f_flow f; f_pc := x; f_ch := f_ch f; f_closech := f_closech f; f_go := f_go f; f_reaper := f_reaper f; f_pacer := f_pacer f; f_streamAudio := f_streamAudio f; f_consumed := f_consumed f; f_track := f_track f |}.

Definition set_f_ch (x : Chan) (f : Frame) : Frame :=
  {| f_callID := f_callID f; f_flow := f_flow f; f_pc := f_pc f; f_ch := x; f_closech := f_closech f; f_go := f_go f; f_reaper := f_reaper f; f_pacer := f_pacer f; f_streamAudio := f_streamAudio f; f_consumed := f_consumed f; f_track := f_track f |}.

Definition set_f_closech (x : list Z) (f : Frame) : Frame :=
  {| f_callID := f_callID f; f_flow := f_flow f; f_pc := f_pc f; f_ch := f_ch f; f_closech := x; f_go := f_go f; f_reaper := f_reaper f; f_pacer := f_pacer f; f_streamAudio := f_streamAudio f; f_consumed := f_consumed f; f_track := f_track f |}.

Definition set_f_go (x : Goroutine) (f : Frame) : Frame :=
  {| f_callID := f_callID f; f_flow := f_flow f; f_pc := f_pc f; f_ch := f_ch f; f_closech := f_closech f; f_go := x; f_reaper := f_reaper f; f_pacer := f_pacer f; f_streamAudio := f_streamAudio f; f_consumed := f_consumed f; f_track := f_track f |}.

Definition set_f_reaper (x : Reaper) (f : Frame) : Frame :=
  {| f_callID := f_callID f; f_flow := f_flow f; f_pc := f_pc f; f_ch := f_ch f; f_closech := f_closech f; f_go := f_go f; f_reaper := x; f_pacer := f_pacer f; f_streamAudio := f_streamAudio f; f_consumed := f_consumed f; f_track := f_track f |}.

Definition set_f_pacer (x : Pacer) (f : Frame) : Frame :=
  {| f_callID := f_callID f; f_flow := f_flow f; f_pc := f_pc f; f_ch := f_ch f; f_closech := f_closech f; f_go := f_go f; f_reaper := f_reaper f; f_pacer := x; f_streamAudio := f_streamAudio f; f_consumed := f_consumed f; f_track := f_track f |}.

Definition set_f_streamAudio (x : nat) (f : Frame) : Frame :=
  {| f_callID := f_callID f; f_flow := f_flow f; f_pc := f_pc f; f_ch := f_ch f; f_closech := f_closech f; f_go := f_go f; f_reaper := f_reaper f; f_pacer := f_pacer f; f_streamAudio := x; f_consumed := f_consumed f; f_track := f_track f |}.

Definition set_f_consumed (x : list actionData) (f : Frame) : Frame :=
  {| f_callID := f_callID f; f_flow := f_flow f; f_pc := f_pc f; f_ch := f_ch f; f_closech := f_closech f; f_go := f_go f; f_reaper := f_reaper f; f_pacer := f_pacer f; f_streamAudio := f_streamAudio f; f_consumed := x; f_track := f_track f |}.

Definition set_f_track (x : list Sample) (f : Frame) : Frame :=
  {| f_callID := f_callID f; f_flow := f_flow f; f_pc := f_pc f; f_ch := f_ch f; f_closech := f_closech f; f_go := f_go f; f_reaper := f_reaper f; f_pacer := f_pacer f; f_streamAudio := f_streamAudio f; f_consumed := f_consumed f; f_track := x |}.

Record CallIDDetails := {
  (** nil is [None] *)
  pc : option nat;
  ch : nat }.

Record State := {
  ActionChannels : gmap string CallIDDetails;
  frames : list Frame;
  (** the POSTs handed to sendCallbackAsync, oldest first *)
  callbacks : list (string * Event) }.

Definition init : State := {| ActionChannels := ∅; frames := []; callbacks := [] |}.

Definition set_ActionChannels (m : gmap string CallIDDetails) (s : State) : State :=
  {| ActionChannels := m; frames := frames s; callbacks := callbacks s |}.

Definition set_frames (l : list Frame) (s : State) : State :=
  {| ActionChannels := ActionChannels s; frames := l; callbacks := callbacks s |}.

(** pc.Close() on the connection of a frame. *)
Definition closeFrame (f : Frame) : Frame := set_f_pc (Close (f_pc f)) f.

(** Apply [g] to frame [n]. *)
Definition onFrame (n : nat) (g : Frame -> Frame) (s : State) : State :=
  set_frames (alter g n (frames s)) s.

Definition offerFrame (callID : string) (pc : PeerConnection) : Frame :=
  {| f_callID := callID; f_flow := OfferFlow; f_pc := pc; f_ch := makeChan;
     f_closech := []; f_go := GoSelect; f_reaper := ReaperSleeping;
     f_pacer := PacerNone; f_streamAudio := 0; f_consumed := []; f_track := [] |}.

(** generateSDPOffer.  The whole call is one step.  A call that fails
    leaves nothing reachable behind (its pc is closed and dropped). *)
Definition generateSDPOffer (request : OfferRequest) (env : Env) (s : State)
    : State * (error + Event) :=
  let callID := chooseCallID (OfferRequest_CallID request) env in
  match NewPeerConnection_err env with
  | Some err => (s, inl err)
  | None =>
  let pc := newPeerConnection in
  match NewTrackLocalStaticSample_err env with
  | Some err => (s, inl err)
  | None =>
  match AddTrack_err env with
  | Some err => (s, inl err)
  | None =>
  match Create_res env with
  | inl err => (s, inl err)
  | inr offer =>
  match SetLocalDescription_err env with
  | Some err => (s, inl err)
  | None =>
  match LocalDescription env with
  | None => (s, inl "failed to retrieve local description")
  | Some finalOffer =>
  let pc := SetLocalDescription (Some finalOffer) pc in
  let n := length (frames s) in
  let details := {| pc := Some n; ch := n |} in
  let offerResponse :=
    {| OfferResponse_CallID := EmptyString;
       OfferResponse_Offer := {| Offer_SDP := SDP finalOffer; Offer_Type := Type_ finalOffer |};
       OfferResponse_CallbackResponse := EmptyString |} in
  let payload := createCallbackPayload env request (OfferResponse_Offer offerResponse) callID in
  let posts :=
    if decide (OfferRequest_CallbackURL request = EmptyString) then callbacks s
    else callbacks s ++ [(OfferRequest_CallbackURL request, payload)] in
  ({| ActionChannels := <[ callID := details ]> (ActionChannels s);
      frames := frames s ++ [offerFrame callID pc];
      callbacks := posts |}, inr payload)
  end end end end end end.

(** The handler of POST /load/offer. *)
Definition processOffer (body : option OfferRequest) (env : Env) (s : State)
    : State * Response :=
  match body with
  | None => (s, errorJSON StatusBadRequest "Invalid request")
  | Some request =>
      match generateSDPOffer request env s with
      | (s', inl err) =>
          (s', errorJSON StatusInternalServerError ("Error generating offer: " +:+ err))
      | (s', inr response) =>
          (s', {| StatusCode := StatusOK; ResponseBody := BodyEvent response |})
      end
  end.

(** The frame of generateSDPAnswer: its goroutine has started streamAudio
    and waits on closech; [file] is what os.Open and oggreader.NewWith
    give the ticker goroutine. *)
Definition answerFrame (callID : string) (pc : PeerConnection)
    (file : option (list ParseResult)) : Frame :=
  {| f_callID := callID; f_flow := AnswerFlow; f_pc := pc; f_ch := makeChan;
     f_closech := []; f_go := GoCloseWait; f_reaper := ReaperSleeping;
     f_pacer := pacerOpen file PacerWaitIce; f_streamAudio := 1;
     f_consumed := []; f_track := [] |}.

(** generateSDPAnswer; [None] is the nil dereference of
    pc.LocalDescription() at the return. *)
Definition generateSDPAnswer (request : AnswerRequest) (env : Env)
    (file : option (list ParseResult)) (s : State)
    : option (State * (error + AnswerResponse)) :=
  match NewPeerConnection_err env with
  | Some err => Some (s, inl err)
  | None =>
  let pc := newPeerConnection in
  let remoteDesc := {| SDP := SDP (AnswerRequest_Session request); Type_ := "offer" |} in
  match SetRemoteDescription_err env with
  | Some err => Some (s, inl err)
  | None =>
  let pc := fst (SetRemoteDescription remoteDesc true pc) in
  match NewTrackLocalStaticSample_err env with
  | Some err => Some (s, inl err)
  | None =>
  match AddTrack_err env with
  | Some err => Some (s, inl err)
  | None =>
  match Create_res env with
  | inl err => Some (s, inl err)
  | inr answer =>
  match SetLocalDescription_err env with
  | Some err => Some (s, inl err)
  | None =>
  let callID := chooseCallID (AnswerRequest_CallID request) env in
  let n := length (frames s) in
  let details := {| pc := Some n; ch := n |} in
  match LocalDescription env with
  | None => None
  | Some localDescription =>
  let pc := SetLocalDescription (Some localDescription) pc in
  Some ({| ActionChannels := <[ callID := details ]> (ActionChannels s);
           frames := frames s ++ [answerFrame callID pc file];
           callbacks := callbacks s |},
        inr {| AnswerResponse_CallID := callID;
               AnswerResponse_Answer :=
                 {| SDP := SDP localDescription; Type_ := Type_ localDescription |} |})
  end end end end end end end.

(** processAnswer, the handler of POST /load/calls; [None] when it panics. *)
Definition processAnswer (body : option AnswerRequest) (env : Env)
    (file : option (list ParseResult)) (s : State) : option (State * Response) :=
  match body with
  | None => Some (s, errorJSON StatusBadRequest "Invalid request")
  | Some request =>
      if decide (AnswerRequest_Action request = "connect") then
        match generateSDPAnswer request env file s with
        | None => None
        | Some (s', inl err) =>
            Some (s', errorJSON StatusInternalServerError
                        ("Error generating answer: " +:+ err))
        | Some (s', inr response) =>
            Some (s', {| StatusCode := StatusOK; ResponseBody := BodyAnswer response |})
        end
      else Some (s, errorJSON StatusBadRequest "Invalid action")
  end.

(** details.pc.Close() *)
Definition closeDetails (details : CallIDDetails) (s : State) : State :=
  match pc details with
  | Some h => onFrame h closeFrame s
  | None => s
  end.

(** processAction, the handler of POST /load/action.  The reply is [None]
    when the handler is parked on the channel send. *)
Definition processAction (body : option ActionRequest) (s : State)
    : State * option Response :=
  match body with
  | None => (s, Some (errorJSON StatusBadRequest "Invalid request body"))
  | Some action =>
      match ActionChannels s !! ActionRequest_CallID action with
      | None => (s, Some (noOfferJSON action))
      | Some details =>
          match pc details with
          | None => (s, Some (noOfferJSON action))
          | Some _ =>
              let s :=
                match validCloseActions !! ActionRequest_Action action with
                | Some _ =>
                    (* pc.Close(); ActionChannels.Delete(action.CallID) *)
                    set_ActionChannels
                      (delete (ActionRequest_CallID action) (ActionChannels s))
                      (closeDetails details s)
                | None => s
                end in
              if decide (ActionRequest_Action action = "accept") then
                match findSDP action with
                | None => (s, Some (errorJSON StatusBadRequest "SDP data missing"))
                | Some sdpString =>
                    (* details.ch <- ActionData{...} *)
                    match frames s !! ch details with
                    | Some f =>
                        let '(c, went) := chanSend (acceptData action sdpString) (f_ch f) in
                        (onFrame (ch details) (set_f_ch c) s,
                         if went then Some processedJSON else None)
                    | None => (s, Some processedJSON)
                    end
                end
              else (s, Some processedJSON)
          end
      end
  end.

(** What the goroutine of generateSDPOffer does with the [action] it
    takes out of ch, leaving the channel as [c]: on "accept" it sets the
    remote description ([setRemoteOk] is the engine's verdict); if that
    fails it returns, otherwise it starts go streamAudio ([file] is what
    the ticker goroutine finds on disk); unless it returned, it goes on
    to wait on closech. *)
Definition receiveDecision (action : actionData) (c : Chan) (setRemoteOk : bool)
    (file : option (list ParseResult)) (f : Frame) : Frame :=
  let f := set_f_consumed (action :: f_consumed f) (set_f_ch c f) in
  if decide (Action action = "accept") then
    let remoteDesc := {| SDP := SDP (Data action); Type_ := "answer" |} in
    let '(pc, taken) := SetRemoteDescription remoteDesc setRemoteOk (f_pc f) in
    let f := set_f_pc pc f in
    if taken then
      (* go streamAudio(pc, ...) *)
      set_f_pacer (pacerOpen file PacerWaitIce)
        (set_f_streamAudio (S (f_streamAudio f)) (set_f_go GoCloseWait f))
    else set_f_go GoReturned f
  else set_f_go GoCloseWait f.

(** [case action := <-ch] of frame [n].  The second component counts the
    parked senders that the receive lets go on. *)
Definition waiterReceive (n : nat) (setRemoteOk : bool)
    (file : option (list ParseResult)) (s : State) : State * nat :=
  match frames s !! n with
  | Some f =>
      match f_go f, chanRecv (f_ch f) with
      | GoSelect, Some (action, c, released) =>
          (onFrame n (fun _ => receiveDecision action c setRemoteOk file f) s, released)
      | _, _ => (s, 0)
      end
  | None => (s, 0)
  end.

(** [case <-closech] in the goroutine of either create function. *)
Definition closeReceiveFrame (f : Frame) : Frame :=
  match f_go f, f_closech f with
  | GoCloseWait, _ :: rest => set_f_closech rest (set_f_go GoReturned f)
  | _, _ => f
  end.

Definition closeReceive (n : nat) (s : State) : State :=
  onFrame n closeReceiveFrame s.

(** The ticker goroutine receives [state] from iceConnected: 1 is
    connected ([true]), 2 is disconnected ([false]). *)
Definition pacerIceFrame (connected : bool) (f : Frame) : Frame :=
  match f_pacer f with
  | PacerWaitIce ogg =>
      set_f_pacer (if connected then PacerLoop 0 ogg else PacerDone) f
  | PacerLoop lastGranule ogg =>
      set_f_pacer (if connected then PacerLoop lastGranule ogg else PacerDone) f
  | _ => f
  end.

Definition pacerIce (n : nat) (connected : bool) (s : State) : State :=
  onFrame n (pacerIceFrame connected) s.

(** The ticker goroutine, [case <-ticker.C]. *)
Definition tickFrame (writeOk : bool) (f : Frame) : Frame :=
  match f_pacer f with
  | PacerLoop lastGranule ogg =>
      let '(p, written) := pacerTick writeOk lastGranule ogg in
      set_f_track (option_list written ++ f_track f) (set_f_pacer p f)
  | _ => f
  end.

Definition pacerTickStep (n : nat) (writeOk : bool) (s : State) : State :=
  onFrame n (tickFrame writeOk) s.

(** autoRemovePeerConnection after its sleep, up to the send on closech. *)
Definition autoRemovePeerConnection (callID : string) (s : State) : State :=
  match ActionChannels s !! callID with
  | Some details =>
      set_ActionChannels (delete callID (ActionChannels s)) (closeDetails details s)
  | None => s
  end.

(** closech <- 1, the only send on closech, so the buffer has room; the
    reaper is done. *)
Definition reaperDoneFrame (f : Frame) : Frame :=
  set_f_closech (f_closech f ++ [1%Z]) (set_f_reaper ReaperDone f).

(** The reaper of frame [n]: autoRemovePeerConnection, then closech <- 1. *)
Definition reaperWake (n : nat) (s : State) : State :=
  match frames s !! n with
  | Some f =>
      match f_reaper f with
      | ReaperSleeping =>
          onFrame n reaperDoneFrame (autoRemovePeerConnection (f_callID f) s)
      | _ => s
      end
  | None => s
  end.

(** ** Runs: requests and goroutine steps, interleaved *)

Inductive Label :=
| PostOffer (body : option OfferRequest) (env : Env)
| PostCalls (body : option AnswerRequest) (env : Env) (file : option (list ParseResult))
| PostAction (body : option ActionRequest)
| WaiterReceive (n : nat) (setRemoteOk : bool) (file : option (list ParseResult))
| CloseReceive (n : nat)
| PacerIce (n : nat) (connected : bool)
| PacerTick (n : nat) (writeOk : bool)
| ReaperWake (n : nat).

(** One step: the state afterwards and the HTTP replies that leave the
    server during the step.  A label that the state does not enable
    changes nothing.  As in the first program, a handler runs in one step
    up to the point where it blocks, the reaper may wake at any point, and
    the interrupt handler of main is not a step. *)
Definition step (l : Label) (s : State) : State * list Response :=
  match l with
  | PostOffer body env => let '(s', r) := processOffer body env s in (s', [r])
  | PostCalls body env file =>
      match processAnswer body env file s with
      | Some (s', r) => (s', [r])
      | None => (s, [])
      end
  | PostAction body => let '(s', r) := processAction body s in (s', option_list r)
  | WaiterReceive n ok file =>
      let '(s', released) := waiterReceive n ok file s in
      (s', replicate released processedJSON)
  | CloseReceive n => (closeReceive n s, [])
  | PacerIce n connected => (pacerIce n connected s, [])
  | PacerTick n ok => (pacerTickStep n ok s, [])
  | ReaperWake n => (reaperWake n s, [])
  end.

Fixpoint run (tr : list Label) (s : State) : State * list Response :=
  match tr with
  | [] => (s, [])
  | l :: tr' =>
      let '(s1, out1) := step l s in
      let '(s2, out2) := run tr' s1 in
      (s2, out1 ++ out2)
  end.

(** The state a run leaves, from the empty server. *)
Definition after (tr : list Label) : State := fst (run tr init).

End Details.

(** * Inputs used by the worked examples *)

Module Scenario.

(** An engine that accepts everything. *)
Definition env0 : Env := {|
  uuid_New := "6ba7b810-9dad-11d1-80b4-00c04fd430c8";
  time_Now_Unix := 1700000000;
  NewPeerConnection_err := None;
  NewTrackLocalStaticSample_err := None;
  AddTrack_err := None;
  Create_res := inr {| SDP := "v=0 local"; Type_ := "offer" |};
  SetLocalDescription_err := None;
  LocalDescription := Some {| SDP := "v=0 local candidates"; Type_ := "offer" |};
  SetRemoteDescription_err := None;
  json_Marshal := fun m => default EmptyString (m !! "sdp") |}.


Definition offerRequest (callID : string) : OfferRequest :=
  {| OfferRequest_To := "X"; OfferRequest_CallbackURL := EmptyString;
     OfferRequest_CallID := callID; OfferRequest_From := "Y" |}.

Definition answerRequest (callID sdp : string) : AnswerRequest :=
  {| AnswerRequest_CallID := callID; AnswerRequest_To := "X";
     AnswerRequest_Action := "connect";
     AnswerRequest_Session := {| SDP := sdp; Type_ := "offer" |};
     AnswerRequest_MessagingProduct := "whatsapp";
     AnswerRequest_CallbackURL := EmptyString;
     AnswerRequest_CallbackData := EmptyString |}.

(** {call_id, action, connection: {webrtc: {sdp: "v=0 remote"}}} *)
Definition accept (callID : string) : ActionRequest :=
  {| ActionRequest_CallID := callID; ActionRequest_Action := "accept";
     ActionRequest_Connection := {[ "webrtc" := AMap {[ "sdp" := AString "v=0 remote" ]} ]};
     ActionRequest_Session := ∅;
     ActionRequest_MessagingProduct := "whatsapp" |}.

(** {call_id, action} *)
Definition decision (callID action : string) : ActionRequest :=
  {| ActionRequest_CallID := callID; ActionRequest_Action := action;
     ActionRequest_Connection := ∅; ActionRequest_Session := ∅;
     ActionRequest_MessagingProduct := "whatsapp" |}.

Definition acceptMsg : actionData :=
  {| Action := "accept"; Data := {| SDP := "v=0 remote"; Type_ := "answer" |} |}.

End Scenario.

(** * Vocabulary of the properties *)

(** [p] holds at the [n] integers from [z] on. *)
Fixpoint all_from (n : nat) (z : Z) (p : Z -> bool) : bool :=
  match n with
  | O => true
  | S n' => p z && all_from n' (z + 1)%Z p
  end.

(** The duration the pacer computes for a page that ends [count] samples
    after the previous one. *)
Definition durationOfCount (count : Z) : Z :=
  sampleDuration count 0.



(** The values waiting in a channel, buffered or held by a parked sender. *)
Definition pending (c : Chan) : list actionData := buf c ++ sendq c.

(** The calls carried by an Event payload. *)
Definition payloadCalls (e : Event) : list Call :=
  c ← Event_Entry e;
  ch ← Entry_Changes c;
  Value_Calls (Change_Value ch).



(** Every change a step makes to a frame that exists. *)
Inductive main_move : MainGo.Frame -> MainGo.Frame -> Prop :=
| main_move_close f : main_move f (MainGo.closeFrame f)
| main_move_send f m : main_move f (MainGo.set_f_ch (fst (chanSend m (MainGo.f_ch f))) f)
| main_move_receive f action c released ok :
    MainGo.f_go f = MainGo.GoSelect ->
    chanRecv (MainGo.f_ch f) = Some (action, c, released) ->
    main_move f (MainGo.receiveDecision action c ok f)
| main_move_select_ctx f :
    MainGo.f_go f = MainGo.GoSelect ->
    main_move f (MainGo.set_f_go MainGo.GoReturned f)
| main_move_stream_ice f file :
    MainGo.f_go f = MainGo.GoStreamAudio ->
    main_move f (MainGo.set_f_pacer (pacerOpen file (PacerLoop 0))
                   (MainGo.set_f_go MainGo.GoReturned f))
| main_move_stream_ctx f :
    MainGo.f_go f = MainGo.GoStreamAudio ->
    main_move f (MainGo.set_f_go MainGo.GoReturned f)
| main_move_tick f ok : main_move f (MainGo.tickFrame ok f)
| main_move_pacer_ctx f : main_move f (MainGo.pacerStop f)
| main_move_reaper f :
    MainGo.f_reaper f = ReaperSleeping ->
    main_move f (MainGo.set_f_reaper ReaperDone f).

(** The frames a create call adds. *)
Inductive main_born : MainGo.Frame -> Prop :=
| main_born_offer callID pc live :
    pc_remote pc = [] ->
    (live = true -> pc_closed pc = false) ->
    main_born (MainGo.offerFrame callID pc live)
| main_born_answer callID pc :
    pc_closed pc = false ->
    main_born (MainGo.answerFrame callID pc).

(** [l'] comes from [l] by moves of its frames and by new frames. *)
Definition main_evolve (l l' : list MainGo.Frame) : Prop :=
  length l <= length l'
  /\ forall k y, l' !! k = Some y ->
       exists x, rtc main_move x y
                 /\ (l !! k = Some x \/ (l !! k = None /\ main_born x)).

(** How many decisions the goroutine of a frame can have taken. *)
Definition main_budget (f : MainGo.Frame) : nat :=
  match MainGo.f_go f with
  | MainGo.GoNone | MainGo.GoSelect => 0
  | _ => 1
  end.

(** An offer-flow frame has used no more than its budget of decisions,
    SetRemoteDescription calls and entries into streamAudio. *)
Definition main_single_decision (f : MainGo.Frame) : Prop :=
  MainGo.f_flow f = OfferFlow ->
  length (MainGo.f_consumed f) <= main_budget f
  /\ length (pc_remote (MainGo.f_pc f)) <= main_budget f
  /\ MainGo.f_streamAudio f <= main_budget f.

(** Every change a step of the second program makes to a frame that
    exists. *)
Inductive details_move : Details.Frame -> Details.Frame -> Prop :=
| details_move_close f : details_move f (Details.closeFrame f)
| details_move_send f m :
    details_move f (Details.set_f_ch (fst (chanSend m (Details.f_ch f))) f)
| details_move_receive f action c released ok file :
    Details.f_go f = Details.GoSelect ->
    chanRecv (Details.f_ch f) = Some (action, c, released) ->
    details_move f (Details.receiveDecision action c ok file f)
| details_move_close_receive f : details_move f (Details.closeReceiveFrame f)
| details_move_pacer_ice f connected : details_move f (Details.pacerIceFrame connected f)
| details_move_tick f ok : details_move f (Details.tickFrame ok f)
| details_move_reaper f :
    Details.f_reaper f = ReaperSleeping ->
    details_move f (Details.reaperDoneFrame f).

(** The frames a create call of the second program adds. *)
Inductive details_born : Details.Frame -> Prop :=
| details_born_offer callID pc :
    pc_remote pc = [] -> pc_closed pc = false ->
    details_born (Details.offerFrame callID pc)
| details_born_answer callID pc file :
    pc_closed pc = false ->
    details_born (Details.answerFrame callID pc file).

(** [l'] comes from [l] by moves of its frames and by new frames. *)
Definition details_evolve (l l' : list Details.Frame) : Prop :=
  length l <= length l'
  /\ forall k y, l' !! k = Some y ->
       exists x, rtc details_move x y
                 /\ (l !! k = Some x \/ (l !! k = None /\ details_born x)).

(** How many decisions the goroutine of a frame can have taken. *)
Definition details_budget (f : Details.Frame) : nat :=
  match Details.f_go f with
  | Details.GoNone | Details.GoSelect => 0
  | _ => 1
  end.

(** As [main_single_decision], for the second program. *)
Definition details_single_decision (f : Details.Frame) : Prop :=
  Details.f_flow f = OfferFlow ->
  length (Details.f_consumed f) <= details_budget f
  /\ length (pc_remote (Details.f_pc f)) <= details_budget f
  /\ Details.f_streamAudio f <= details_budget f.

(** Two accepts for "c" arrive before the goroutine runs: the second
    handler is parked, the goroutine takes the first decision, and the
    second one is never taken. *)
Definition main_two_accepts : list MainGo.Label :=
  [MainGo.PostOffer (Some (Scenario.offerRequest "c")) Scenario.env0;
   MainGo.PostAction (Some (Scenario.accept "c"));
   MainGo.PostAction (Some (Scenario.accept "c"));
   MainGo.WaiterReceive 0 true;
   MainGo.StreamIceConnected 0 None].

Definition details_two_accepts : list Details.Label :=
  [Details.PostOffer (Some (Scenario.offerRequest "c")) Scenario.env0;
   Details.PostAction (Some (Scenario.accept "c"));
   Details.PostAction (Some (Scenario.accept "c"));
   Details.WaiterReceive 0 true None].

(** One accept is taken by the goroutine; two more follow. *)
Definition main_three_accepts : list MainGo.Label :=
  [MainGo.PostOffer (Some (Scenario.offerRequest "c")) Scenario.env0;
   MainGo.PostAction (Some (Scenario.accept "c"));
   MainGo.WaiterReceive 0 true;
   MainGo.PostAction (Some (Scenario.accept "c"))].

Definition details_three_accepts : list Details.Label :=
  [Details.PostOffer (Some (Scenario.offerRequest "c")) Scenario.env0;
   Details.PostAction (Some (Scenario.accept "c"));
   Details.WaiterReceive 0 true None;
   Details.PostAction (Some (Scenario.accept "c"))].

(** The handler of the accept [m] is parked on the channel of the frame,
    and the goroutine of the frame is past its receive. *)
Definition main_parked (m : actionData) (f : MainGo.Frame) : Prop :=
  MainGo.f_go f <> MainGo.GoSelect
  /\ exists q, sendq (MainGo.f_ch f) = m :: q.

Definition details_parked (m : actionData) (f : Details.Frame) : Prop :=
  Details.f_go f <> Details.GoSelect
  /\ exists q, sendq (Details.f_ch f) = m :: q.

(** What the registry invariant looks at in a frame: its call id, whether
    its create call registered it (the frame is a session), and whether
    its connection is closed. *)
Record Slot := { slot_id : string; slot_session : bool; slot_closed : bool }.

Definition slot_close (x : Slot) : Slot :=
  {| slot_id := slot_id x; slot_session := slot_session x; slot_closed := true |}.

(** Close the connection that [id] names and take [id] out. *)
Definition view_remove (id : string) (v : gmap string nat * list Slot)
    : gmap string nat * list Slot :=
  match fst v !! id with
  | Some pc => (delete id (fst v), alter slot_close pc (snd v))
  | None => v
  end.

(** A create call for [id]: a new slot, registered when [session]. *)
Definition view_add (id : string) (session closed : bool)
    (v : gmap string nat * list Slot) : gmap string nat * list Slot :=
  (if session then <[ id := length (snd v) ]> (fst v) else fst v,
   snd v ++ [{| slot_id := id; slot_session := session; slot_closed := closed |}]).


Definition main_slot (f : MainGo.Frame) : Slot :=
  {| slot_id := MainGo.f_callID f;
     slot_session := match MainGo.f_reaper f with ReaperNone => false | _ => true end;
     slot_closed := pc_closed (MainGo.f_pc f) |}.

Definition main_view (s : MainGo.State) : gmap string nat * list Slot :=
  (MainGo.callIDToOffer s, main_slot <$> MainGo.frames s).

(** The call id a request makes a create function work with. *)
Definition main_created (l : MainGo.Label) : list string :=
  match l with
  | MainGo.PostOffer (Some request) env => [chooseCallID (OfferRequest_CallID request) env]
  | MainGo.PostCalls (Some request) env =>
      if decide (AnswerRequest_Action request = "connect")
      then [chooseCallID (AnswerRequest_CallID request) env] else []
  | _ => []
  end.

(** The steps of the decision waiter and of the pacer: taking a decision,
    giving up on ctx.Done(), connectivity, ticks (the last of which finds
    the end of the stream). *)
Definition main_call_step (l : MainGo.Label) : Prop :=
  match l with
  | MainGo.WaiterReceive _ _ | MainGo.WaiterCtxDone _
  | MainGo.StreamIceConnected _ _ | MainGo.StreamCtxDone _
  | MainGo.PacerTick _ _ | MainGo.PacerCtxDone _ => True
  | _ => False
  end.

Definition details_slot (f : Details.Frame) : Slot :=
  {| slot_id := Details.f_callID f;
     slot_session := match Details.f_reaper f with ReaperNone => false | _ => true end;
     slot_closed := pc_closed (Details.f_pc f) |}.

(** The connection handles that ActionChannels holds. *)
Definition details_view (s : Details.State) : gmap string nat * list Slot :=
  (omap Details.pc (Details.ActionChannels s), details_slot <$> Details.frames s).

Definition details_created (l : Details.Label) : list string :=
  match l with
  | Details.PostOffer (Some request) env =>
      [chooseCallID (OfferRequest_CallID request) env]
  | Details.PostCalls (Some request) env file =>
      if decide (AnswerRequest_Action request = "connect")
      then [chooseCallID (AnswerRequest_CallID request) env] else []
  | _ => []
  end.











(** ** Vocabulary of the further properties *)

(** The samples the ticker loop writes for the pages [ogg], in order,
    when the granule position before them is [lastGranule] and no write
    fails; the loop ends at the first read error. *)
Fixpoint samplesOf (lastGranule : Z) (ogg : list ParseResult) : list Sample :=
  match ogg with
  | Page pageData GranulePosition :: rest =>
      {| Sample_Data := pageData;
         Sample_Duration := sampleDuration GranulePosition lastGranule |}
      :: samplesOf GranulePosition rest
  | _ => []
  end.

(** The frame has written the first [k] of the samples [all], and its
    pacer, if still running, has exactly the others left; [old] is what
    the track held before. *)
Definition main_written (all old : list Sample) (f : MainGo.Frame) : Prop :=
  MainGo.f_go f = MainGo.GoReturned
  /\ exists k,
       MainGo.f_track f = rev (take k all) ++ old
       /\ match MainGo.f_pacer f with
          | PacerLoop lastGranule ogg => samplesOf lastGranule ogg = drop k all
          | PacerDone => True
          | _ => False
          end.

Definition details_written (all old : list Sample) (f : Details.Frame) : Prop :=
  Details.f_go f <> Details.GoSelect
  /\ exists k,
       Details.f_track f = rev (take k all) ++ old
       /\ match Details.f_pacer f with
          | PacerLoop lastGranule ogg => samplesOf lastGranule ogg = drop k all
          | PacerDone => True
          | _ => False
          end.

(** A frame whose pacer has been started has a goroutine that is past
    its decision. *)
Definition main_pacer_after_go (f : MainGo.Frame) : Prop :=
  MainGo.f_pacer f <> PacerNone -> MainGo.f_go f = MainGo.GoReturned.

Definition details_pacer_after_go (f : Details.Frame) : Prop :=
  Details.f_pacer f <> PacerNone -> Details.f_go f <> Details.GoSelect.

(** A call is accepted, connectivity comes, and the file has two pages. *)
Definition main_two_pages : list MainGo.Label :=
  [MainGo.PostOffer (Some (Scenario.offerRequest "c")) Scenario.env0;
   MainGo.PostAction (Some (Scenario.accept "c"));
   MainGo.WaiterReceive 0 true;
   MainGo.StreamIceConnected 0 (Some [Page [] 960; Page [] 1920])].

Definition details_two_pages : list Details.Label :=
  [Details.PostOffer (Some (Scenario.offerRequest "c")) Scenario.env0;
   Details.PostAction (Some (Scenario.accept "c"));
   Details.WaiterReceive 0 true (Some [Page [] 960; Page [] 1920]);
   Details.PacerIce 0 true].

(** The reader of a file whose pages all parse. *)
Definition pagesOf (pages : list (list Byte.byte * Z)) : list ParseResult :=
  (fun p => Page (fst p) (snd p)) <$> pages.

(** Granule positions that do not decrease and advance by fewer than
    48048 samples a page. *)
Fixpoint steady (lastGranule : Z) (ogg : list ParseResult) : Prop :=
  match ogg with
  | Page _ GranulePosition :: rest =>
      (lastGranule <= GranulePosition /\ GranulePosition - lastGranule < 48048)%Z
      /\ steady GranulePosition rest
  | _ => True
  end.

(** Every page ends a whole number of milliseconds (a multiple of 48
    samples) after the one before. *)
Fixpoint wholeMilliseconds (lastGranule : Z) (ogg : list ParseResult) : Prop :=
  match ogg with
  | Page _ GranulePosition :: rest =>
      ((GranulePosition - lastGranule) mod 48 = 0)%Z
      /\ wholeMilliseconds GranulePosition rest
  | _ => True
  end.

(** The granule position of the last page the loop gets to. *)
Fixpoint endGranule (lastGranule : Z) (ogg : list ParseResult) : Z :=
  match ogg with
  | Page _ GranulePosition :: rest => endGranule GranulePosition rest
  | _ => lastGranule
  end.

(** The play time of a list of samples, in nanoseconds. *)
Definition totalDuration (l : list Sample) : Z :=
  foldr (fun x acc => (Sample_Duration x + acc)%Z) 0%Z l.

(** Every registry entry names an open session with that call id. *)
Definition view_sound (v : gmap string nat * list Slot) : Prop :=
  forall id n, fst v !! id = Some n ->
    exists x, snd v !! n = Some x /\ slot_id x = id
              /\ slot_session x = true /\ slot_closed x = false.

(** Every entry of ActionChannels holds the connection and the channel of
    one and the same create call. *)
Definition details_paired (s : Details.State) : Prop :=
  forall id d, Details.ActionChannels s !! id = Some d ->
    Details.pc d = Some (Details.ch d).

(** A channel of capacity one: at most one buffered value, and a sender
    parked only while the buffer is full. *)
Definition chan_ok (c : Chan) : Prop :=
  length (buf c) <= 1 /\ (sendq c <> [] -> buf c <> []).

(** An answer-flow frame never waits for a decision: it has consumed
    none, and streamAudio was started for it once. *)
Definition main_answer_streams (f : MainGo.Frame) : Prop :=
  MainGo.f_flow f = AnswerFlow ->
  MainGo.f_go f <> MainGo.GoSelect
  /\ MainGo.f_consumed f = []
  /\ MainGo.f_streamAudio f = 1.

Definition details_answer_streams (f : Details.Frame) : Prop :=
  Details.f_flow f = AnswerFlow ->
  Details.f_go f <> Details.GoSelect
  /\ Details.f_consumed f = []
  /\ Details.f_streamAudio f = 1.



(** The callback a step hands to sendCallbackAsync: the one of a
    CreateOffer request that names a callback URL and succeeds.  The
    event is the one generateSDPOffer returns, here on the empty server. *)
Definition main_posted (l : MainGo.Label) : list (string * Event) :=
  match l with
  | MainGo.PostOffer (Some request) env =>
      match snd (MainGo.generateSDPOffer request env MainGo.init) with
      | inr payload =>
          if decide (OfferRequest_CallbackURL request = EmptyString) then []
          else [(OfferRequest_CallbackURL request, payload)]
      | inl _ => []
      end
  | _ => []
  end.

Definition details_posted (l : Details.Label) : list (string * Event) :=
  match l with
  | Details.PostOffer (Some request) env =>
      match snd (Details.generateSDPOffer request env Details.init) with
      | inr payload =>
          if decide (OfferRequest_CallbackURL request = EmptyString) then []
          else [(OfferRequest_CallbackURL request, payload)]
      | inl _ => []
      end
  | _ => []
  end.

(** An engine that cannot make a connection. *)
Definition envNoEngine : Env := {|
  uuid_New := uuid_New Scenario.env0;
  time_Now_Unix := time_Now_Unix Scenario.env0;
  NewPeerConnection_err := Some "no engine";
  NewTrackLocalStaticSample_err := None;
  AddTrack_err := None;
  Create_res := Create_res Scenario.env0;
  SetLocalDescription_err := None;
  LocalDescription := LocalDescription Scenario.env0;
  SetRemoteDescription_err := None;
  json_Marshal := json_Marshal Scenario.env0 |}.

(** A frame whose create call failed: no goroutine was started for it. *)
Definition main_dead (f : MainGo.Frame) : Prop :=
  MainGo.f_go f = MainGo.GoNone
  /\ MainGo.f_reaper f = ReaperNone
  /\ MainGo.f_consumed f = []
  /\ MainGo.f_streamAudio f = 0.

(** An offer for call "c" that succeeds. *)
Definition main_offer_c : list MainGo.Label :=
  [MainGo.PostOffer (Some (Scenario.offerRequest "c")) Scenario.env0].



(** An offer of the second program that nobody answers before its reaper
    wakes. *)
Definition details_unanswered : list Details.Label :=
  [Details.PostOffer (Some (Scenario.offerRequest "c")) Scenario.env0;
   Details.ReaperWake 0].

(** The context a frame's goroutines watch: generateSDPOffer cancels its
    own when it returns, generateSDPAnswer passes context.Background(). *)
Definition main_ctx_by_flow (f : MainGo.Frame) : Prop :=
  MainGo.f_ctx f = match MainGo.f_flow f with OfferFlow => true | AnswerFlow => false end.

(** The goroutine of the frame has returned, its pacer is [p] and its
    track is [t]. *)
Definition main_idle (p : Pacer) (t : list Sample) (f : MainGo.Frame) : Prop :=
  MainGo.f_go f = MainGo.GoReturned /\ MainGo.f_pacer f = p /\ MainGo.f_track f = t.

Definition details_idle (p : Pacer) (t : list Sample) (f : Details.Frame) : Prop :=
  Details.f_go f <> Details.GoSelect /\ Details.f_pacer f = p /\ Details.f_track f = t.

(** A pacer that is not running. *)
Definition pacerStopped (p : Pacer) : bool :=
  match p with
  | PacerNone | PacerDone => true
  | _ => false
  end.

(** An offer is accepted; connectivity has not come yet. *)
Definition main_accepted : list MainGo.Label :=
  [MainGo.PostOffer (Some (Scenario.offerRequest "c")) Scenario.env0;
   MainGo.PostAction (Some (Scenario.accept "c"));
   MainGo.WaiterReceive 0 true].

(** An offer for call "c" that succeeds, in the second program. *)
Definition details_offer_c : list Details.Label :=
  [Details.PostOffer (Some (Scenario.offerRequest "c")) Scenario.env0].




(** closech of a frame of the second program: empty while the reaper
    sleeps, and never more than the reaper's one value. *)
Definition details_closech_ok (f : Details.Frame) : Prop :=
  Details.f_reaper f <> ReaperNone
  /\ (Details.f_reaper f = ReaperSleeping -> Details.f_closech f = [])
  /\ (Details.f_closech f = [] \/ Details.f_closech f = [1%Z]).

(** A CreateAnswer call that succeeds, in either program. *)
Definition main_answer_a : list MainGo.Label :=
  [MainGo.PostCalls (Some (Scenario.answerRequest "a" "v=0 remote")) Scenario.env0].

Definition details_answer_a : list Details.Label :=
  [Details.PostCalls (Some (Scenario.answerRequest "a" "v=0 remote")) Scenario.env0 None].

(** A create-offer request that names a callback URL. *)
Definition offerRequestWithCallback : OfferRequest :=
  {| OfferRequest_To := "X"; OfferRequest_CallbackURL := "http://callback.example/hook";
     OfferRequest_CallID := "c"; OfferRequest_From := "Y" |}.

(** * Properties *)


(** ** The pacer's frame duration *)

Lemma all_from_spec (p : Z -> bool) (n : nat) (z k : Z) :
  all_from n z p = true -> (z <= k < z + Z.of_nat n)%Z -> p k = true.
Proof.
  revert z. induction n as [|n IH]; intros z Hall Hk; simpl in *.
  - lia.
  - apply andb_prop in Hall as [Hz Hrest].
    destruct (Z.eq_dec k z) as [->|Hne]; [exact Hz|].
    apply (IH (z + 1)%Z); [exact Hrest|lia].
Qed.

Lemma sampleDuration_count (g l : Z) :
  sampleDuration g l = durationOfCount (g - l).
Proof. unfold durationOfCount, sampleDuration. rewrite Z.sub_0_r. reflexivity. Qed.

Lemma durationOfCount_below_48048 :
  all_from (Z.to_nat 48048) 0
    (fun d => (durationOfCount d =? d * 1000 / 48000 * Arith.Millisecond)%Z) = true.
Proof. vm_cast_no_check (eq_refl true). Qed.

Lemma durationOfCount_floor (d : Z) :
  (0 <= d < 48048)%Z ->
  durationOfCount d = (d * 1000 / 48000 * Arith.Millisecond)%Z.
Proof.
  intros Hd. apply Z.eqb_eq.
  apply (all_from_spec _ (Z.to_nat 48048) 0%Z d durationOfCount_below_48048). lia.
Qed.

(** C8, as stated, fails: a page whose granule position is 2^63 samples
    after the previous one is written with a negative duration. *)
Lemma pacer_duration_negative :
  snd (pacerTick true 0 [Page [] (2 ^ 63)])
    = Some {| Sample_Data := []; Sample_Duration := -6148914691247183872 |}
  /\ (Sample_Duration {| Sample_Data := []; Sample_Duration := -6148914691247183872 |} < 0)%Z.
Proof. split; [vm_compute; reflexivity | reflexivity]. Qed.

(** The rounding of the two float64 operations already loses a
    millisecond at 48048 samples (1001 ms of audio). *)
Lemma pacer_duration_48048 :
  durationOfCount 48048 = (1000 * Arith.Millisecond)%Z
  /\ (48048 * 1000 / 48000 = 1001)%Z.
Proof. split; vm_compute; reflexivity. Qed.

(** C8 (amended): when a page ends fewer than 48048 samples after the
    previous one (positions not decreasing), the sample written for it
    carries (cur - prev) * 1000 / 48000 whole milliseconds, the quotient
    truncated, which is not negative; the pacer then remembers cur as the
    previous position. *)
Theorem pacer_duration_below_one_second (lastGranule GranulePosition : Z)
    (pageData : list Byte.byte) (rest : list ParseResult) :
  (0 <= lastGranule)%Z ->
  (lastGranule <= GranulePosition)%Z ->
  (GranulePosition - lastGranule < 48048)%Z ->
  let ms := ((GranulePosition - lastGranule) * 1000 / 48000)%Z in
  pacerTick true lastGranule (Page pageData GranulePosition :: rest)
    = (PacerLoop GranulePosition rest,
       Some {| Sample_Data := pageData;
               Sample_Duration := (ms * Arith.Millisecond)%Z |})
  /\ (0 <= ms * Arith.Millisecond)%Z.
Proof.
  intros H0 Hle Hlt ms. split.
  - unfold pacerTick. rewrite sampleDuration_count.
    rewrite durationOfCount_floor by lia. reflexivity.
  - subst ms. unfold Arith.Millisecond.
    apply Z.mul_nonneg_nonneg; [|lia].
    apply Z.div_pos; lia.
Qed.

Lemma pacer_duration_below_one_second_witness :
  pacerTick true 960 (Page [] 1920 :: [])
    = (PacerLoop 1920 [],
       Some {| Sample_Data := []; Sample_Duration := (20 * Arith.Millisecond)%Z |})
  /\ (0 <= 20 * Arith.Millisecond)%Z.
Proof.
  apply (pacer_duration_below_one_second 960 1920 [] []); lia.
Defined.

(** ** CreateAnswer and its validation *)





(** ** The dispatcher on a call id it does not know *)

Lemma validCloseActions_not_accept (a : string) :
  is_Some (validCloseActions !! a) -> a <> "accept".
Proof. intros H ->. vm_compute in H. destruct H as [x H]. discriminate. Qed.

Lemma main_close_action_removes (action : ActionRequest) (s : MainGo.State) :
  is_Some (validCloseActions !! ActionRequest_Action action) ->
  MainGo.callIDToOffer (fst (MainGo.processAction (Some action) s))
    !! ActionRequest_CallID action = None.
Proof.
  intros Hc. pose proof (validCloseActions_not_accept _ Hc) as Hna.
  unfold MainGo.processAction.
  destruct (MainGo.callIDToOffer s !! ActionRequest_CallID action) eqn:Hl; [|exact Hl].
  destruct Hc as [b ->].
  destruct (decide (ActionRequest_Action action = "accept")); [contradiction|].
  simpl. apply lookup_delete_eq.
Qed.

Lemma details_close_action_removes (action : ActionRequest) (s : Details.State) :
  is_Some (validCloseActions !! ActionRequest_Action action) ->
  Details.ActionChannels (fst (Details.processAction (Some action) s))
    !! ActionRequest_CallID action = None
  \/ exists d, Details.ActionChannels s !! ActionRequest_CallID action = Some d
               /\ Details.pc d = None.
Proof.
  intros Hc. pose proof (validCloseActions_not_accept _ Hc) as Hna.
  unfold Details.processAction.
  destruct (Details.ActionChannels s !! ActionRequest_CallID action) as [d|] eqn:Hl;
    [|left; exact Hl].
  destruct (Details.pc d) eqn:Hpc; [|right; eauto].
  left. destruct Hc as [b ->].
  destruct (decide (ActionRequest_Action action = "accept")); [contradiction|].
  simpl. apply lookup_delete_eq.
Qed.

(** C6: a decision for a call id that is not in the registry, whatever
    its action, is answered with status 200 and the "no corresponding
    offer ... or already closed" body, and changes nothing, in both
    programs; and after a terminate, reject or hangup has been handled, the
    same request sent again gets that reply. *)
Theorem unknown_call_id_soft_status (action : ActionRequest)
    (sa : MainGo.State) (sb : Details.State) :
  MainGo.callIDToOffer sa !! ActionRequest_CallID action = None ->
  Details.ActionChannels sb !! ActionRequest_CallID action = None ->
  MainGo.processAction (Some action) sa = (sa, Some (noOfferJSON action))
  /\ Details.processAction (Some action) sb = (sb, Some (noOfferJSON action))
  /\ StatusCode (noOfferJSON action) = StatusOK
  /\ (forall (s0 : MainGo.State),
        is_Some (validCloseActions !! ActionRequest_Action action) ->
        let s1 := fst (MainGo.processAction (Some action) s0) in
        MainGo.processAction (Some action) s1 = (s1, Some (noOfferJSON action)))
  /\ (forall (s0 : Details.State),
        is_Some (validCloseActions !! ActionRequest_Action action) ->
        let s1 := fst (Details.processAction (Some action) s0) in
        Details.processAction (Some action) s1 = (s1, Some (noOfferJSON action))).
Proof.
  intros Ha Hb. repeat split.
  - unfold MainGo.processAction. rewrite Ha. reflexivity.
  - unfold Details.processAction. rewrite Hb. reflexivity.
  - intros s0 Hc s1.
    pose proof (main_close_action_removes action s0 Hc) as Hgone. fold s1 in Hgone.
    unfold MainGo.processAction at 1. rewrite Hgone. reflexivity.
  - intros s0 Hc s1.
    destruct (details_close_action_removes action s0 Hc) as [Hgone | (d & Hd & Hnil)].
    + fold s1 in Hgone. unfold Details.processAction at 1. rewrite Hgone. reflexivity.
    + assert (s1 = s0) as ->.
      { subst s1. unfold Details.processAction. rewrite Hd, Hnil. reflexivity. }
      unfold Details.processAction. rewrite Hd, Hnil. reflexivity.
Qed.

Lemma unknown_call_id_soft_status_witness :
  MainGo.processAction (Some (Scenario.decision "c" "terminate")) MainGo.init
    = (MainGo.init, Some (noOfferJSON (Scenario.decision "c" "terminate")))
  /\ Details.processAction (Some (Scenario.decision "c" "terminate")) Details.init
    = (Details.init, Some (noOfferJSON (Scenario.decision "c" "terminate"))).
Proof.
  pose proof (unknown_call_id_soft_status (Scenario.decision "c" "terminate")
                MainGo.init Details.init eq_refl eq_refl) as (Ha & Hb & _).
  exact (conj Ha Hb).
Defined.

(** ** Accept: finding the description and handing it over *)






(** ** CreateOffer without a call id *)

(** C9: for a create-offer request without a call id, when the uuid
    source gives a non-empty id and the engine's local description has a
    non-empty SDP, a 200 reply carries an Event with one call whose id is
    the generated, non-empty id and whose session.sdp is the non-empty
    local description, and the registry of the state the call leaves
    contains that id. *)
Theorem create_offer_without_call_id (request : OfferRequest) (env : Env)
    (s s' : MainGo.State) (r : Response) :
  OfferRequest_CallID request = EmptyString ->
  uuid_New env <> EmptyString ->
  (forall d, LocalDescription env = Some d -> SDP d <> EmptyString) ->
  MainGo.processOffer (Some request) env s = (s', r) ->
  StatusCode r = StatusOK ->
  exists payload call d,
    ResponseBody r = BodyEvent payload
    /\ payloadCalls payload = [call]
    /\ Call_ID call = uuid_New env
    /\ Call_ID call <> EmptyString
    /\ Call_From call = OfferRequest_From request
    /\ Call_To call = OfferRequest_To request
    /\ LocalDescription env = Some d
    /\ Call_Session call !! "sdp" = Some (AString (SDP d))
    /\ SDP d <> EmptyString
    /\ MainGo.callIDToOffer s' !! Call_ID call = Some (length (MainGo.frames s))
    /\ MainGo.frames s' !! length (MainGo.frames s)
         = Some (MainGo.offerFrame (Call_ID call)
                   (SetLocalDescription (Some d) newPeerConnection) true).
Proof.
  intros Hid Huuid Hsdp Hrun Hok.
  unfold MainGo.processOffer, MainGo.generateSDPOffer in Hrun.
  unfold chooseCallID in Hrun. rewrite Hid in Hrun.
  destruct (decide (EmptyString = EmptyString)) as [_|]; [|contradiction].
  destruct (NewPeerConnection_err env);
    [inversion Hrun; subst; discriminate|].
  destruct (NewTrackLocalStaticSample_err env);
    [inversion Hrun; subst; discriminate|].
  destruct (AddTrack_err env); [inversion Hrun; subst; discriminate|].
  destruct (Create_res env); [inversion Hrun; subst; discriminate|].
  destruct (SetLocalDescription_err env); [inversion Hrun; subst; discriminate|].
  destruct (LocalDescription env) as [d|] eqn:Hd;
    [|inversion Hrun; subst; discriminate].
  inversion Hrun; subst; clear Hrun. simpl.
  eexists _, _, d. repeat split; try reflexivity; try assumption.
  - apply Hsdp. reflexivity.
  - apply lookup_insert_eq.
  - rewrite lookup_app_r by lia. rewrite Nat.sub_diag. reflexivity.
Qed.

Lemma create_offer_without_call_id_witness :
  exists payload call d,
    ResponseBody (snd (MainGo.processOffer (Some (Scenario.offerRequest EmptyString))
                         Scenario.env0 MainGo.init)) = BodyEvent payload
    /\ payloadCalls payload = [call]
    /\ Call_ID call = "6ba7b810-9dad-11d1-80b4-00c04fd430c8"
    /\ LocalDescription Scenario.env0 = Some d
    /\ Call_Session call !! "sdp" = Some (AString (SDP d))
    /\ MainGo.callIDToOffer
         (fst (MainGo.processOffer (Some (Scenario.offerRequest EmptyString))
                 Scenario.env0 MainGo.init)) !! Call_ID call = Some 0.
Proof.
  destruct (create_offer_without_call_id (Scenario.offerRequest EmptyString) Scenario.env0
              MainGo.init _ _ eq_refl ltac:(discriminate)
              ltac:(intros d [= <-]; discriminate)
              (surjective_pairing _) eq_refl)
    as (payload & call & d & H1 & H2 & H3 & _ & _ & _ & H4 & H5 & _ & H6 & _).
  exists payload, call, d. repeat split; assumption.
Defined.

(** ** Registering a call id that is already registered *)




(** ** Runs and invariants *)

Lemma main_run_app (tr1 tr2 : list MainGo.Label) (s : MainGo.State) :
  fst (MainGo.run (tr1 ++ tr2) s) = fst (MainGo.run tr2 (fst (MainGo.run tr1 s))).
Proof.
  revert s. induction tr1 as [|l tr1 IH]; intros s; simpl; [reflexivity|].
  destruct (MainGo.step l s) as [s1 o1] eqn:Hs. specialize (IH s1).
  destruct (MainGo.run (tr1 ++ tr2) s1) as [s2 o2].
  destruct (MainGo.run tr1 s1) as [s3 o3]. simpl in *. exact IH.
Qed.

Lemma main_run_single (l : MainGo.Label) (s : MainGo.State) :
  fst (MainGo.run [l] s) = fst (MainGo.step l s).
Proof. simpl. destruct (MainGo.step l s). reflexivity. Qed.

Lemma main_after_snoc (tr : list MainGo.Label) (l : MainGo.Label) :
  MainGo.after (tr ++ [l]) = fst (MainGo.step l (MainGo.after tr)).
Proof. unfold MainGo.after. rewrite main_run_app. apply main_run_single. Qed.

(** A property that every step preserves holds along every run. *)
Lemma main_run_invariant (P : MainGo.State -> Prop) :
  (forall l s, P s -> P (fst (MainGo.step l s))) ->
  forall tr s, P s -> P (fst (MainGo.run tr s)).
Proof.
  intros Hstep tr. induction tr as [|l tr IH]; intros s Hs; simpl; [exact Hs|].
  specialize (Hstep l s Hs). destruct (MainGo.step l s) as [s1 o1].
  specialize (IH s1 Hstep). destruct (MainGo.run tr s1). exact IH.
Qed.

Lemma details_run_app (tr1 tr2 : list Details.Label) (s : Details.State) :
  fst (Details.run (tr1 ++ tr2) s) = fst (Details.run tr2 (fst (Details.run tr1 s))).
Proof.
  revert s. induction tr1 as [|l tr1 IH]; intros s; simpl; [reflexivity|].
  destruct (Details.step l s) as [s1 o1] eqn:Hs. specialize (IH s1).
  destruct (Details.run (tr1 ++ tr2) s1) as [s2 o2].
  destruct (Details.run tr1 s1) as [s3 o3]. simpl in *. exact IH.
Qed.

Lemma details_run_single (l : Details.Label) (s : Details.State) :
  fst (Details.run [l] s) = fst (Details.step l s).
Proof. simpl. destruct (Details.step l s). reflexivity. Qed.

Lemma details_after_snoc (tr : list Details.Label) (l : Details.Label) :
  Details.after (tr ++ [l]) = fst (Details.step l (Details.after tr)).
Proof. unfold Details.after. rewrite details_run_app. apply details_run_single. Qed.

Lemma details_run_invariant (P : Details.State -> Prop) :
  (forall l s, P s -> P (fst (Details.step l s))) ->
  forall tr s, P s -> P (fst (Details.run tr s)).
Proof.
  intros Hstep tr. induction tr as [|l tr IH]; intros s Hs; simpl; [exact Hs|].
  specialize (Hstep l s Hs). destruct (Details.step l s) as [s1 o1].
  specialize (IH s1 Hstep). destruct (Details.run tr s1). exact IH.
Qed.

(** ** How a step changes the frames (first program) *)

Lemma main_evolve_refl (l : list MainGo.Frame) : main_evolve l l.
Proof.
  split; [lia|]. intros k y Hy. exists y. split; [apply rtc_refl|left; exact Hy].
Qed.

Lemma main_evolve_alter (l l1 : list MainGo.Frame) (g : MainGo.Frame -> MainGo.Frame) (n : nat) :
  main_evolve l l1 ->
  (forall x, l1 !! n = Some x -> main_move x (g x)) ->
  main_evolve l (alter g n l1).
Proof.
  intros [Hlen Hev] Hg. split; [rewrite length_alter; exact Hlen|].
  intros k y Hy.
  destruct (decide (n = k)) as [->|Hne].
  - rewrite list_lookup_alter_eq in Hy.
    destruct (l1 !! k) as [x|] eqn:Hx; [|discriminate].
    injection Hy as <-.
    destruct (Hev k x Hx) as (x0 & Hr & Hx0).
    exists x0. split; [|exact Hx0].
    eapply rtc_r; [exact Hr|]. apply Hg. reflexivity.
  - rewrite list_lookup_alter_ne in Hy by exact Hne. apply Hev. exact Hy.
Qed.

Lemma main_evolve_snoc (l : list MainGo.Frame) (b : MainGo.Frame) :
  main_born b -> main_evolve l (l ++ [b]).
Proof.
  intros Hb. split; [rewrite length_app; simpl; lia|].
  intros k y Hy. exists y. split; [apply rtc_refl|].
  apply lookup_snoc_Some in Hy as [[Hk Hy]|[Hk <-]].
  - left. exact Hy.
  - right. split; [|exact Hb]. apply lookup_ge_None. lia.
Qed.

Lemma main_goReturn_frames (f : MainGo.Frame) (s : MainGo.State) :
  MainGo.frames (MainGo.goReturn f s) = MainGo.frames s.
Proof. unfold MainGo.goReturn. destruct (MainGo.f_flow f); reflexivity. Qed.

Lemma main_generateSDPOffer_frames (request : OfferRequest) (env : Env) (s : MainGo.State) :
  exists b, main_born b
    /\ MainGo.frames (fst (MainGo.generateSDPOffer request env s)) = MainGo.frames s ++ [b].
Proof.
  unfold MainGo.generateSDPOffer.
  repeat match goal with
         | |- context [match ?x with _ => _ end] => destruct x
         end; simpl; eexists; (split; [|reflexivity]);
    constructor; solve [reflexivity | discriminate].
Qed.

Lemma main_generateSDPAnswer_frames (request : AnswerRequest) (env : Env)
    (s s' : MainGo.State) (r : error + AnswerResponse) :
  MainGo.generateSDPAnswer request env s = Some (s', r) ->
  MainGo.frames s' = MainGo.frames s
  \/ exists b, main_born b /\ MainGo.frames s' = MainGo.frames s ++ [b].
Proof.
  unfold MainGo.generateSDPAnswer. intros H.
  repeat match type of H with
         | context [match ?x with _ => _ end] => destruct x
         end; inversion H; subst; clear H; simpl;
    try (left; reflexivity).
  right. eexists. split; [|reflexivity]. constructor. reflexivity.
Qed.

Lemma main_processAction_evolve (body : option ActionRequest) (s : MainGo.State) :
  main_evolve (MainGo.frames s) (MainGo.frames (fst (MainGo.processAction body s))).
Proof.
  unfold MainGo.processAction.
  destruct body as [action|]; [|apply main_evolve_refl].
  destruct (MainGo.callIDToOffer s !! ActionRequest_CallID action) as [pc|];
    [|apply main_evolve_refl].
  set (s1 := match validCloseActions !! ActionRequest_Action action with
             | Some _ => _
             | None => s
             end).
  assert (main_evolve (MainGo.frames s) (MainGo.frames s1)) as H1.
  { subst s1. destruct (validCloseActions !! ActionRequest_Action action);
      [|apply main_evolve_refl].
    simpl. apply main_evolve_alter; [apply main_evolve_refl|].
    intros x _. constructor. }
  destruct (decide (ActionRequest_Action action = "accept")); [|exact H1].
  destruct (findSDP action) as [sdp|]; [|exact H1].
  destruct (MainGo.actionChannels s1 !! ActionRequest_CallID action) as [ch|]; [|exact H1].
  destruct (MainGo.frames s1 !! ch) as [f|] eqn:Hf; [|exact H1].
  destruct (chanSend (acceptData action sdp) (MainGo.f_ch f)) as [c went] eqn:Hsend.
  simpl. apply main_evolve_alter; [exact H1|].
  intros x Hx. rewrite Hf in Hx. injection Hx as <-.
  replace c with (fst (chanSend (acceptData action sdp) (MainGo.f_ch f)))
    by (rewrite Hsend; reflexivity).
  constructor.
Qed.

Lemma main_autoRemove_evolve (callID : string) (s : MainGo.State) :
  main_evolve (MainGo.frames s) (MainGo.frames (MainGo.autoRemovePeerConnection callID s)).
Proof.
  unfold MainGo.autoRemovePeerConnection.
  destruct (MainGo.callIDToOffer s !! callID); [|apply main_evolve_refl].
  simpl. apply main_evolve_alter; [apply main_evolve_refl|]. intros x _. constructor.
Qed.

Lemma main_autoRemove_lookup (callID : string) (s : MainGo.State) (n : nat)
    (x : MainGo.Frame) :
  MainGo.frames (MainGo.autoRemovePeerConnection callID s) !! n = Some x ->
  exists f, MainGo.frames s !! n = Some f /\ (x = f \/ x = MainGo.closeFrame f).
Proof.
  unfold MainGo.autoRemovePeerConnection.
  destruct (MainGo.callIDToOffer s !! callID) as [pc|]; simpl; [|eauto].
  destruct (decide (pc = n)) as [->|Hne].
  - rewrite list_lookup_alter_eq.
    destruct (MainGo.frames s !! n) as [f|]; simpl; [|discriminate].
    intros [= <-]. eauto.
  - rewrite list_lookup_alter_ne by exact Hne. eauto.
Qed.

(** Every step moves frames and adds frames, nothing else. *)
Lemma main_step_evolve (l : MainGo.Label) (s : MainGo.State) :
  main_evolve (MainGo.frames s) (MainGo.frames (fst (MainGo.step l s))).
Proof.
  destruct l as [body env|body env|body|n ok|n|n file|n|n ok|n|n]; simpl.
  - unfold MainGo.processOffer. destruct body as [request|]; [|apply main_evolve_refl].
    destruct (main_generateSDPOffer_frames request env s) as (b & Hb & Hf).
    destruct (MainGo.generateSDPOffer request env s) as [s' [err|ev]]; simpl in *;
      rewrite Hf; apply main_evolve_snoc; exact Hb.
  - unfold MainGo.processAnswer. destruct body as [request|]; [|apply main_evolve_refl].
    destruct (decide (AnswerRequest_Action request = "connect")); [|apply main_evolve_refl].
    destruct (MainGo.generateSDPAnswer request env s) as [[s' r]|] eqn:Hg;
      [|apply main_evolve_refl].
    apply main_generateSDPAnswer_frames in Hg as [Hf|(b & Hb & Hf)];
      destruct r; simpl; rewrite Hf;
      first [apply main_evolve_refl | apply main_evolve_snoc; exact Hb].
  - pose proof (main_processAction_evolve body s) as H.
    destruct (MainGo.processAction body s). exact H.
  - unfold MainGo.waiterReceive.
    destruct (MainGo.frames s !! n) as [f|] eqn:Hf; [|apply main_evolve_refl].
    destruct (MainGo.f_go f) eqn:Hgo; try apply main_evolve_refl.
    destruct (chanRecv (MainGo.f_ch f)) as [[[action c] released]|] eqn:Hrecv;
      [|apply main_evolve_refl].
    simpl.
    assert (main_evolve (MainGo.frames s)
              (alter (fun _ => MainGo.receiveDecision action c ok f) n (MainGo.frames s))) as H.
    { apply main_evolve_alter; [apply main_evolve_refl|].
      intros x Hx. rewrite Hf in Hx. injection Hx as <-.
      econstructor; eassumption. }
    destruct (MainGo.f_go (MainGo.receiveDecision action c ok f));
      try exact H.
    rewrite main_goReturn_frames. exact H.
  - unfold MainGo.waiterCtxDone.
    destruct (MainGo.frames s !! n) as [f|] eqn:Hf; [|apply main_evolve_refl].
    destruct (MainGo.f_go f) eqn:Hgo; try apply main_evolve_refl.
    destruct (MainGo.f_ctx f); [|apply main_evolve_refl].
    rewrite main_goReturn_frames. simpl.
    apply main_evolve_alter; [apply main_evolve_refl|].
    intros x Hx. rewrite Hf in Hx. injection Hx as <-.
    apply main_move_select_ctx. exact Hgo.
  - unfold MainGo.streamIceConnected.
    destruct (MainGo.frames s !! n) as [f|] eqn:Hf; [|apply main_evolve_refl].
    destruct (MainGo.f_go f) eqn:Hgo; try apply main_evolve_refl.
    rewrite main_goReturn_frames. simpl.
    apply main_evolve_alter; [apply main_evolve_refl|].
    intros x Hx. rewrite Hf in Hx. injection Hx as <-.
    apply main_move_stream_ice. exact Hgo.
  - unfold MainGo.streamCtxDone.
    destruct (MainGo.frames s !! n) as [f|] eqn:Hf; [|apply main_evolve_refl].
    destruct (MainGo.f_go f) eqn:Hgo; try apply main_evolve_refl.
    destruct (MainGo.f_ctx f); [|apply main_evolve_refl].
    rewrite main_goReturn_frames. simpl.
    apply main_evolve_alter; [apply main_evolve_refl|].
    intros x Hx. rewrite Hf in Hx. injection Hx as <-.
    apply main_move_stream_ctx. exact Hgo.
  - apply main_evolve_alter; [apply main_evolve_refl|]. intros x _. constructor.
  - apply main_evolve_alter; [apply main_evolve_refl|]. intros x _. constructor.
  - unfold MainGo.reaperWake.
    destruct (MainGo.frames s !! n) as [f|] eqn:Hf; [|apply main_evolve_refl].
    destruct (MainGo.f_reaper f) eqn:Hr; try apply main_evolve_refl.
    simpl. apply main_evolve_alter; [apply main_autoRemove_evolve|].
    intros x Hx. apply main_move_reaper.
    apply main_autoRemove_lookup in Hx as (f0 & Hf0 & [->| ->]);
      rewrite Hf in Hf0; injection Hf0 as <-; exact Hr.
Qed.

(** A property of single frames that new frames have and moves keep holds
    of every frame along every run. *)
Lemma main_frame_invariant (P : MainGo.Frame -> Prop) :
  (forall b, main_born b -> P b) ->
  (forall x y, P x -> main_move x y -> P y) ->
  forall tr s, (forall n f, MainGo.frames s !! n = Some f -> P f) ->
  forall n f, MainGo.frames (fst (MainGo.run tr s)) !! n = Some f -> P f.
Proof.
  intros Hborn Hmove tr s Hs.
  apply (main_run_invariant (fun s => forall n f, MainGo.frames s !! n = Some f -> P f));
    [|exact Hs].
  clear s Hs. intros l s Hs n f Hf.
  destruct (proj2 (main_step_evolve l s) n f Hf) as (x & Hr & Hx).
  assert (P x) as Hpx.
  { destruct Hx as [Hx|[_ Hb]]; [exact (Hs n x Hx)|exact (Hborn x Hb)]. }
  clear Hx Hf. induction Hr as [x|x y z Hxy Hyz IH]; [exact Hpx|].
  apply IH. exact (Hmove x y Hpx Hxy).
Qed.

(** ** At most one decision per session *)

Lemma main_single_decision_born (b : MainGo.Frame) :
  main_born b -> main_single_decision b.
Proof.
  intros [callID pc live Hrem _|callID pc _] Hflow; [|discriminate].
  unfold main_budget. simpl. rewrite Hrem. simpl. lia.
Qed.

(** The ticker goroutine changes nothing but the pacer and the track. *)
Lemma main_tickFrame_same (ok : bool) (f : MainGo.Frame) :
  let g := MainGo.tickFrame ok f in
  MainGo.f_callID g = MainGo.f_callID f /\ MainGo.f_flow g = MainGo.f_flow f
  /\ MainGo.f_pc g = MainGo.f_pc f /\ MainGo.f_ch g = MainGo.f_ch f
  /\ MainGo.f_go g = MainGo.f_go f /\ MainGo.f_reaper g = MainGo.f_reaper f
  /\ MainGo.f_streamAudio g = MainGo.f_streamAudio f
  /\ MainGo.f_consumed g = MainGo.f_consumed f.
Proof.
  unfold MainGo.tickFrame. destruct (MainGo.f_pacer f); simpl; try tauto.
  destruct (pacerTick ok lastGranule ogg). simpl. tauto.
Qed.

Lemma main_pacerStop_same (f : MainGo.Frame) :
  let g := MainGo.pacerStop f in
  MainGo.f_callID g = MainGo.f_callID f /\ MainGo.f_flow g = MainGo.f_flow f
  /\ MainGo.f_pc g = MainGo.f_pc f /\ MainGo.f_ch g = MainGo.f_ch f
  /\ MainGo.f_go g = MainGo.f_go f /\ MainGo.f_reaper g = MainGo.f_reaper f
  /\ MainGo.f_streamAudio g = MainGo.f_streamAudio f
  /\ MainGo.f_consumed g = MainGo.f_consumed f.
Proof.
  unfold MainGo.pacerStop. destruct (MainGo.f_pacer f); simpl; try tauto.
  destruct (MainGo.f_ctx f); simpl; tauto.
Qed.

Lemma main_single_decision_move (x y : MainGo.Frame) :
  main_single_decision x -> main_move x y -> main_single_decision y.
Proof.
  intros Hx Hmove. unfold main_single_decision, main_budget in *.
  destruct Hmove as [f|f m|f action c released ok Hgo Hrecv|f Hgo|f file Hgo|f Hgo
                    |f ok|f|f Hr]; simpl in *.
  - exact Hx.
  - exact Hx.
  - intros Hflow. rewrite Hgo in Hx. unfold MainGo.receiveDecision in *.
    destruct (decide (Action action = "accept")); simpl in *.
    + destruct (ok && negb (pc_closed (MainGo.f_pc f))); simpl in *;
        specialize (Hx Hflow); lia.
    + specialize (Hx Hflow). lia.
  - intros Hflow. specialize (Hx Hflow). rewrite Hgo in Hx. lia.
  - intros Hflow. specialize (Hx Hflow). rewrite Hgo in Hx. lia.
  - intros Hflow. specialize (Hx Hflow). rewrite Hgo in Hx. lia.
  - destruct (main_tickFrame_same ok f) as (_ & -> & -> & _ & -> & _ & -> & ->). exact Hx.
  - destruct (main_pacerStop_same f) as (_ & -> & -> & _ & -> & _ & -> & ->). exact Hx.
  - exact Hx.
Qed.

(** In the first program, every offer-flow frame of every run has had at
    most one decision taken out of its channel, at most one
    SetRemoteDescription call on its connection, and at most one entry
    into streamAudio. *)
Lemma main_single_decision_holds (tr : list MainGo.Label) (n : nat) (f : MainGo.Frame) :
  MainGo.frames (MainGo.after tr) !! n = Some f -> main_single_decision f.
Proof.
  apply (main_frame_invariant main_single_decision
           main_single_decision_born main_single_decision_move tr MainGo.init).
  intros k g Hk. discriminate.
Qed.

(** ** How a step changes the frames (second program) *)

Lemma details_evolve_refl (l : list Details.Frame) : details_evolve l l.
Proof.
  split; [lia|]. intros k y Hy. exists y. split; [apply rtc_refl|left; exact Hy].
Qed.

Lemma details_evolve_alter (l l1 : list Details.Frame)
    (g : Details.Frame -> Details.Frame) (n : nat) :
  details_evolve l l1 ->
  (forall x, l1 !! n = Some x -> details_move x (g x)) ->
  details_evolve l (alter g n l1).
Proof.
  intros [Hlen Hev] Hg. split; [rewrite length_alter; exact Hlen|].
  intros k y Hy.
  destruct (decide (n = k)) as [->|Hne].
  - rewrite list_lookup_alter_eq in Hy.
    destruct (l1 !! k) as [x|] eqn:Hx; [|discriminate].
    injection Hy as <-.
    destruct (Hev k x Hx) as (x0 & Hr & Hx0).
    exists x0. split; [|exact Hx0].
    eapply rtc_r; [exact Hr|]. apply Hg. reflexivity.
  - rewrite list_lookup_alter_ne in Hy by exact Hne. apply Hev. exact Hy.
Qed.

Lemma details_evolve_snoc (l : list Details.Frame) (b : Details.Frame) :
  details_born b -> details_evolve l (l ++ [b]).
Proof.
  intros Hb. split; [rewrite length_app; simpl; lia|].
  intros k y Hy. exists y. split; [apply rtc_refl|].
  apply lookup_snoc_Some in Hy as [[Hk Hy]|[Hk <-]].
  - left. exact Hy.
  - right. split; [|exact Hb]. apply lookup_ge_None. lia.
Qed.

Lemma details_generateSDPOffer_frames (request : OfferRequest) (env : Env)
    (s : Details.State) :
  Details.frames (fst (Details.generateSDPOffer request env s)) = Details.frames s
  \/ exists b, details_born b
       /\ Details.frames (fst (Details.generateSDPOffer request env s))
            = Details.frames s ++ [b].
Proof.
  unfold Details.generateSDPOffer.
  repeat match goal with
         | |- context [match ?x with _ => _ end] => destruct x
         end; simpl;
    first [ left; reflexivity
          | right; eexists; split; [|reflexivity]; constructor; reflexivity ].
Qed.

Lemma details_generateSDPAnswer_frames (request : AnswerRequest) (env : Env)
    (file : option (list ParseResult)) (s s' : Details.State)
    (r : error + AnswerResponse) :
  Details.generateSDPAnswer request env file s = Some (s', r) ->
  Details.frames s' = Details.frames s
  \/ exists b, details_born b /\ Details.frames s' = Details.frames s ++ [b].
Proof.
  unfold Details.generateSDPAnswer. intros H.
  repeat match type of H with
         | context [match ?x with _ => _ end] => destruct x
         end; inversion H; subst; clear H; simpl;
    try (left; reflexivity).
  right. eexists. split; [|reflexivity]. constructor. reflexivity.
Qed.

Lemma details_closeDetails_evolve (d : Details.CallIDDetails) (s : Details.State) :
  details_evolve (Details.frames s) (Details.frames (Details.closeDetails d s)).
Proof.
  unfold Details.closeDetails. destruct (Details.pc d); [|apply details_evolve_refl].
  simpl. apply details_evolve_alter; [apply details_evolve_refl|]. intros x _. constructor.
Qed.

Lemma details_processAction_evolve (body : option ActionRequest) (s : Details.State) :
  details_evolve (Details.frames s) (Details.frames (fst (Details.processAction body s))).
Proof.
  unfold Details.processAction.
  destruct body as [action|]; [|apply details_evolve_refl].
  destruct (Details.ActionChannels s !! ActionRequest_CallID action) as [d|];
    [|apply details_evolve_refl].
  destruct (Details.pc d) as [h|] eqn:Hpc; [|apply details_evolve_refl].
  set (s1 := match validCloseActions !! ActionRequest_Action action with
             | Some _ => _
             | None => s
             end).
  assert (details_evolve (Details.frames s) (Details.frames s1)) as H1.
  { subst s1. destruct (validCloseActions !! ActionRequest_Action action);
      [|apply details_evolve_refl].
    simpl. apply details_closeDetails_evolve. }
  destruct (decide (ActionRequest_Action action = "accept")); [|exact H1].
  destruct (findSDP action) as [sdp|]; [|exact H1].
  destruct (Details.frames s1 !! Details.ch d) as [f|] eqn:Hf; [|exact H1].
  destruct (chanSend (acceptData action sdp) (Details.f_ch f)) as [c went] eqn:Hsend.
  simpl. apply details_evolve_alter; [exact H1|].
  intros x Hx. rewrite Hf in Hx. injection Hx as <-.
  replace c with (fst (chanSend (acceptData action sdp) (Details.f_ch f)))
    by (rewrite Hsend; reflexivity).
  constructor.
Qed.

Lemma details_autoRemove_evolve (callID : string) (s : Details.State) :
  details_evolve (Details.frames s)
    (Details.frames (Details.autoRemovePeerConnection callID s)).
Proof.
  unfold Details.autoRemovePeerConnection.
  destruct (Details.ActionChannels s !! callID); [|apply details_evolve_refl].
  simpl. apply details_closeDetails_evolve.
Qed.

Lemma details_autoRemove_lookup (callID : string) (s : Details.State) (n : nat)
    (x : Details.Frame) :
  Details.frames (Details.autoRemovePeerConnection callID s) !! n = Some x ->
  exists f, Details.frames s !! n = Some f /\ (x = f \/ x = Details.closeFrame f).
Proof.
  unfold Details.autoRemovePeerConnection.
  destruct (Details.ActionChannels s !! callID) as [d|]; simpl; [|eauto].
  unfold Details.closeDetails. destruct (Details.pc d) as [h|]; simpl; [|eauto].
  destruct (decide (h = n)) as [->|Hne].
  - rewrite list_lookup_alter_eq.
    destruct (Details.frames s !! n) as [f|]; simpl; [|discriminate].
    intros [= <-]. eauto.
  - rewrite list_lookup_alter_ne by exact Hne. eauto.
Qed.

Lemma details_step_evolve (l : Details.Label) (s : Details.State) :
  details_evolve (Details.frames s) (Details.frames (fst (Details.step l s))).
Proof.
  destruct l as [body env|body env file|body|n ok file|n|n connected|n ok|n]; simpl.
  - unfold Details.processOffer. destruct body as [request|]; [|apply details_evolve_refl].
    destruct (details_generateSDPOffer_frames request env s) as [Hf|(b & Hb & Hf)];
      destruct (Details.generateSDPOffer request env s) as [s' [err|ev]]; simpl in *;
      rewrite Hf; first [apply details_evolve_refl | apply details_evolve_snoc; exact Hb].
  - unfold Details.processAnswer. destruct body as [request|]; [|apply details_evolve_refl].
    destruct (decide (AnswerRequest_Action request = "connect"));
      [|apply details_evolve_refl].
    destruct (Details.generateSDPAnswer request env file s) as [[s' r]|] eqn:Hg;
      [|apply details_evolve_refl].
    apply details_generateSDPAnswer_frames in Hg as [Hf|(b & Hb & Hf)];
      destruct r; simpl; rewrite Hf;
      first [apply details_evolve_refl | apply details_evolve_snoc; exact Hb].
  - pose proof (details_processAction_evolve body s) as H.
    destruct (Details.processAction body s). exact H.
  - unfold Details.waiterReceive.
    destruct (Details.frames s !! n) as [f|] eqn:Hf; [|apply details_evolve_refl].
    destruct (Details.f_go f) eqn:Hgo; try apply details_evolve_refl.
    destruct (chanRecv (Details.f_ch f)) as [[[action c] released]|] eqn:Hrecv;
      [|apply details_evolve_refl].
    simpl. apply details_evolve_alter; [apply details_evolve_refl|].
    intros x Hx. rewrite Hf in Hx. injection Hx as <-.
    econstructor; eassumption.
  - apply details_evolve_alter; [apply details_evolve_refl|]. intros x _. constructor.
  - apply details_evolve_alter; [apply details_evolve_refl|]. intros x _. constructor.
  - apply details_evolve_alter; [apply details_evolve_refl|]. intros x _. constructor.
  - unfold Details.reaperWake.
    destruct (Details.frames s !! n) as [f|] eqn:Hf; [|apply details_evolve_refl].
    destruct (Details.f_reaper f) eqn:Hr; try apply details_evolve_refl.
    simpl. apply details_evolve_alter; [apply details_autoRemove_evolve|].
    intros x Hx. apply details_move_reaper.
    apply details_autoRemove_lookup in Hx as (f0 & Hf0 & [->| ->]);
      rewrite Hf in Hf0; injection Hf0 as <-; exact Hr.
Qed.

Lemma details_frame_invariant (P : Details.Frame -> Prop) :
  (forall b, details_born b -> P b) ->
  (forall x y, P x -> details_move x y -> P y) ->
  forall tr s, (forall n f, Details.frames s !! n = Some f -> P f) ->
  forall n f, Details.frames (fst (Details.run tr s)) !! n = Some f -> P f.
Proof.
  intros Hborn Hmove tr s Hs.
  apply (details_run_invariant
           (fun s => forall n f, Details.frames s !! n = Some f -> P f)); [|exact Hs].
  clear s Hs. intros l s Hs n f Hf.
  destruct (proj2 (details_step_evolve l s) n f Hf) as (x & Hr & Hx).
  assert (P x) as Hpx.
  { destruct Hx as [Hx|[_ Hb]]; [exact (Hs n x Hx)|exact (Hborn x Hb)]. }
  clear Hx Hf. induction Hr as [x|x y z Hxy Hyz IH]; [exact Hpx|].
  apply IH. exact (Hmove x y Hpx Hxy).
Qed.

Lemma details_tickFrame_same (ok : bool) (f : Details.Frame) :
  let g := Details.tickFrame ok f in
  Details.f_callID g = Details.f_callID f /\ Details.f_flow g = Details.f_flow f
  /\ Details.f_pc g = Details.f_pc f /\ Details.f_ch g = Details.f_ch f
  /\ Details.f_go g = Details.f_go f /\ Details.f_reaper g = Details.f_reaper f
  /\ Details.f_streamAudio g = Details.f_streamAudio f
  /\ Details.f_consumed g = Details.f_consumed f.
Proof.
  unfold Details.tickFrame. destruct (Details.f_pacer f); simpl; try tauto.
  destruct (pacerTick ok lastGranule ogg). simpl. tauto.
Qed.

Lemma details_pacerIceFrame_same (connected : bool) (f : Details.Frame) :
  let g := Details.pacerIceFrame connected f in
  Details.f_callID g = Details.f_callID f /\ Details.f_flow g = Details.f_flow f
  /\ Details.f_pc g = Details.f_pc f /\ Details.f_ch g = Details.f_ch f
  /\ Details.f_go g = Details.f_go f /\ Details.f_reaper g = Details.f_reaper f
  /\ Details.f_streamAudio g = Details.f_streamAudio f
  /\ Details.f_consumed g = Details.f_consumed f.
Proof. unfold Details.pacerIceFrame. destruct (Details.f_pacer f); simpl; tauto. Qed.

Lemma details_single_decision_born (b : Details.Frame) :
  details_born b -> details_single_decision b.
Proof.
  intros [callID pc Hrem _|callID pc file _] Hflow; [|discriminate].
  unfold details_budget. simpl. rewrite Hrem. simpl. lia.
Qed.

Lemma details_single_decision_move (x y : Details.Frame) :
  details_single_decision x -> details_move x y -> details_single_decision y.
Proof.
  intros Hx Hmove. unfold details_single_decision, details_budget in *.
  destruct Hmove as [f|f m|f action c released ok file Hgo Hrecv|f|f connected|f ok|f Hr];
    simpl in *.
  - exact Hx.
  - exact Hx.
  - intros Hflow. rewrite Hgo in Hx. unfold Details.receiveDecision in *.
    destruct (decide (Action action = "accept")); simpl in *.
    + destruct (ok && negb (pc_closed (Details.f_pc f))); simpl in *;
        specialize (Hx Hflow); lia.
    + specialize (Hx Hflow). lia.
  - unfold Details.closeReceiveFrame.
    destruct (Details.f_go f) eqn:Hgo; simpl; rewrite ?Hgo; simpl; try exact Hx.
    destruct (Details.f_closech f); simpl; rewrite ?Hgo; simpl; exact Hx.
  - destruct (details_pacerIceFrame_same connected f)
      as (_ & -> & -> & _ & -> & _ & -> & ->). exact Hx.
  - destruct (details_tickFrame_same ok f) as (_ & -> & -> & _ & -> & _ & -> & ->).
    exact Hx.
  - exact Hx.
Qed.

Lemma details_single_decision_holds (tr : list Details.Label) (n : nat)
    (f : Details.Frame) :
  Details.frames (Details.after tr) !! n = Some f -> details_single_decision f.
Proof.
  apply (details_frame_invariant details_single_decision
           details_single_decision_born details_single_decision_move tr Details.init).
  intros k g Hk. discriminate.
Qed.

(** C1: in every run of either program, interleaved in any way, a session
    made by CreateOffer has at most one decision taken out of its channel,
    at most one SetRemoteDescription call on its transport, and at most one
    start of streamAudio (the Media Pacer); two accepts for the same call
    id change none of this. *)
Theorem one_decision_per_session
    (ta : list MainGo.Label) (na : nat) (fa : MainGo.Frame)
    (tb : list Details.Label) (nb : nat) (fb : Details.Frame) :
  MainGo.frames (MainGo.after ta) !! na = Some fa ->
  MainGo.f_flow fa = OfferFlow ->
  Details.frames (Details.after tb) !! nb = Some fb ->
  Details.f_flow fb = OfferFlow ->
  (length (MainGo.f_consumed fa) <= 1
   /\ length (pc_remote (MainGo.f_pc fa)) <= 1
   /\ MainGo.f_streamAudio fa <= 1)
  /\ (length (Details.f_consumed fb) <= 1
      /\ length (pc_remote (Details.f_pc fb)) <= 1
      /\ Details.f_streamAudio fb <= 1).
Proof.
  intros Ha Hfa Hb Hfb.
  pose proof (main_single_decision_holds ta na fa Ha Hfa) as (A1 & A2 & A3).
  pose proof (details_single_decision_holds tb nb fb Hb Hfb) as (B1 & B2 & B3).
  assert (main_budget fa <= 1) by (unfold main_budget; destruct (MainGo.f_go fa); lia).
  assert (details_budget fb <= 1)
    by (unfold details_budget; destruct (Details.f_go fb); lia).
  lia.
Qed.

Lemma one_decision_per_session_witness :
  exists fa fb,
    MainGo.frames (MainGo.after main_two_accepts) !! 0 = Some fa
    /\ Details.frames (Details.after details_two_accepts) !! 0 = Some fb
    /\ MainGo.f_consumed fa = [Scenario.acceptMsg]
    /\ Details.f_consumed fb = [Scenario.acceptMsg]
    /\ (length (MainGo.f_consumed fa) <= 1
        /\ length (pc_remote (MainGo.f_pc fa)) <= 1
        /\ MainGo.f_streamAudio fa <= 1)
    /\ (length (Details.f_consumed fb) <= 1
        /\ length (pc_remote (Details.f_pc fb)) <= 1
        /\ Details.f_streamAudio fb <= 1).
Proof.
  eexists _, _.
  split; [vm_compute; reflexivity|].
  split; [vm_compute; reflexivity|].
  split; [reflexivity|]. split; [reflexivity|].
  apply (one_decision_per_session main_two_accepts 0 _ details_two_accepts 0 _);
    vm_compute; reflexivity.
Defined.

(** ** A third accept parks its handler for good *)

(** A property of the frame at index [k] that moves keep stays true of
    that frame along every run. *)
Lemma main_frame_stable (Q : MainGo.Frame -> Prop) (k : nat) :
  (forall x y, Q x -> main_move x y -> Q y) ->
  forall tr s, (exists f, MainGo.frames s !! k = Some f /\ Q f) ->
  exists f, MainGo.frames (fst (MainGo.run tr s)) !! k = Some f /\ Q f.
Proof.
  intros Hmove tr s Hs.
  apply (main_run_invariant (fun s => exists f, MainGo.frames s !! k = Some f /\ Q f));
    [|exact Hs].
  clear s Hs. intros l s (f & Hf & Hq).
  destruct (main_step_evolve l s) as [Hlen Hev].
  destruct (MainGo.frames (fst (MainGo.step l s)) !! k) as [y|] eqn:Hy.
  - exists y. split; [reflexivity|].
    destruct (Hev k y Hy) as (x & Hr & [Hx|[Hx _]]); [|congruence].
    rewrite Hf in Hx. injection Hx as <-.
    clear Hy Hf. induction Hr as [x|x y z Hxy Hyz IH]; [exact Hq|].
    apply IH. exact (Hmove x y Hq Hxy).
  - apply lookup_ge_None in Hy. apply lookup_lt_Some in Hf. lia.
Qed.

Lemma details_frame_stable (Q : Details.Frame -> Prop) (k : nat) :
  (forall x y, Q x -> details_move x y -> Q y) ->
  forall tr s, (exists f, Details.frames s !! k = Some f /\ Q f) ->
  exists f, Details.frames (fst (Details.run tr s)) !! k = Some f /\ Q f.
Proof.
  intros Hmove tr s Hs.
  apply (details_run_invariant
           (fun s => exists f, Details.frames s !! k = Some f /\ Q f)); [|exact Hs].
  clear s Hs. intros l s (f & Hf & Hq).
  destruct (details_step_evolve l s) as [Hlen Hev].
  destruct (Details.frames (fst (Details.step l s)) !! k) as [y|] eqn:Hy.
  - exists y. split; [reflexivity|].
    destruct (Hev k y Hy) as (x & Hr & [Hx|[Hx _]]); [|congruence].
    rewrite Hf in Hx. injection Hx as <-.
    clear Hy Hf. induction Hr as [x|x y z Hxy Hyz IH]; [exact Hq|].
    apply IH. exact (Hmove x y Hq Hxy).
  - apply lookup_ge_None in Hy. apply lookup_lt_Some in Hf. lia.
Qed.

Lemma chanSend_keeps_parked (m x : actionData) (c : Chan) (q : list actionData) :
  sendq c = m :: q -> exists q', sendq (fst (chanSend x c)) = m :: q'.
Proof.
  intros Hq. unfold chanSend. destruct (buf c); simpl; rewrite Hq; eauto.
Qed.

Lemma main_parked_move (m : actionData) (x y : MainGo.Frame) :
  main_parked m x -> main_move x y -> main_parked m y.
Proof.
  intros [Hgo (q & Hq)] Hmove. unfold main_parked.
  destruct Hmove as [f|f m'|f action c released ok Hsel Hrecv|f Hsel|f file Hsa|f Hsa
                    |f ok|f|f Hr]; simpl in *; try contradiction.
  - eauto.
  - split; [exact Hgo|]. eapply chanSend_keeps_parked; eauto.
  - split; [discriminate|eauto].
  - split; [discriminate|eauto].
  - destruct (main_tickFrame_same ok f) as (_ & _ & _ & -> & -> & _). eauto.
  - destruct (main_pacerStop_same f) as (_ & _ & _ & -> & -> & _). eauto.
  - eauto.
Qed.

Lemma details_parked_move (m : actionData) (x y : Details.Frame) :
  details_parked m x -> details_move x y -> details_parked m y.
Proof.
  intros [Hgo (q & Hq)] Hmove. unfold details_parked.
  destruct Hmove as [f|f m'|f action c released ok file Hsel Hrecv|f|f connected|f ok|f Hr];
    simpl in *; try contradiction.
  - eauto.
  - split; [exact Hgo|]. eapply chanSend_keeps_parked; eauto.
  - unfold Details.closeReceiveFrame.
    destruct (Details.f_go f) eqn:Hg; try congruence; simpl; rewrite ?Hg;
      try (split; [discriminate|eauto]).
    destruct (Details.f_closech f); simpl; rewrite ?Hg;
      (split; [discriminate|eauto]).
  - destruct (details_pacerIceFrame_same connected f) as (_ & _ & _ & -> & -> & _). eauto.
  - destruct (details_tickFrame_same ok f) as (_ & _ & _ & -> & -> & _). eauto.
  - eauto.
Qed.

(** C4, evaluated: after one accept has been taken by the goroutine, the
    next accept fills the buffer and is answered, and the one after that
    gets no reply: its handler is parked on the send, and however the run
    goes on (further requests, the reaper, the pacer), it stays parked, in
    both programs. *)
Theorem third_accept_parks_forever (ta : list MainGo.Label) (tb : list Details.Label) :
  (snd (MainGo.processAction (Some (Scenario.accept "c")) (MainGo.after main_three_accepts))
     = None
   /\ exists f, MainGo.frames
                  (fst (MainGo.run (MainGo.PostAction (Some (Scenario.accept "c")) :: ta)
                          (MainGo.after main_three_accepts))) !! 0 = Some f
                /\ main_parked Scenario.acceptMsg f)
  /\ (snd (Details.processAction (Some (Scenario.accept "c"))
             (Details.after details_three_accepts)) = None
      /\ exists f, Details.frames
                     (fst (Details.run (Details.PostAction (Some (Scenario.accept "c")) :: tb)
                             (Details.after details_three_accepts))) !! 0 = Some f
                   /\ details_parked Scenario.acceptMsg f).
Proof.
  split; (split; [vm_compute; reflexivity|]).
  - change (MainGo.PostAction (Some (Scenario.accept "c")) :: ta)
      with ([MainGo.PostAction (Some (Scenario.accept "c"))] ++ ta).
    rewrite main_run_app.
    apply (main_frame_stable (main_parked Scenario.acceptMsg) 0
             (main_parked_move Scenario.acceptMsg)).
    eexists. split; [vm_compute; reflexivity|].
    split; [discriminate|]. eexists. reflexivity.
  - change (Details.PostAction (Some (Scenario.accept "c")) :: tb)
      with ([Details.PostAction (Some (Scenario.accept "c"))] ++ tb).
    rewrite details_run_app.
    apply (details_frame_stable (details_parked Scenario.acceptMsg) 0
             (details_parked_move Scenario.acceptMsg)).
    eexists. split; [vm_compute; reflexivity|].
    split; [discriminate|]. eexists. reflexivity.
Qed.

(** ** The registry and the transports it names *)






Lemma fmap_alter_at {A B : Type} (f : A -> B) (g : A -> A) (h : B -> B)
    (l : list A) (i : nat) :
  (forall x, l !! i = Some x -> f (g x) = h (f x)) ->
  f <$> alter g i l = alter h i (f <$> l).
Proof.
  intros Hx. apply list_eq. intros k. rewrite list_lookup_fmap.
  destruct (decide (i = k)) as [->|Hne].
  - rewrite !list_lookup_alter_eq, list_lookup_fmap.
    destruct (l !! k) as [x|] eqn:Hk; simpl; [|reflexivity].
    f_equal. apply Hx. reflexivity.
  - rewrite !list_lookup_alter_ne by exact Hne. rewrite list_lookup_fmap. reflexivity.
Qed.

Lemma fmap_alter_quiet {A B : Type} (f : A -> B) (g : A -> A) (l : list A) (i : nat) :
  (forall x, l !! i = Some x -> f (g x) = f x) ->
  f <$> alter g i l = f <$> l.
Proof.
  intros Hx. rewrite (fmap_alter_at f g id) by exact Hx.
  apply list_alter_id. reflexivity.
Qed.

(** *** First program *)

Lemma main_view_quiet (n : nat) (g : MainGo.Frame -> MainGo.Frame) (s : MainGo.State) :
  (forall x, MainGo.frames s !! n = Some x -> main_slot (g x) = main_slot x) ->
  main_view (MainGo.onFrame n g s) = main_view s.
Proof.
  intros Hq. unfold main_view. simpl. rewrite fmap_alter_quiet by exact Hq. reflexivity.
Qed.

Lemma main_view_goReturn (f : MainGo.Frame) (s : MainGo.State) :
  main_view (MainGo.goReturn f s) = main_view s.
Proof. unfold MainGo.goReturn. destruct (MainGo.f_flow f); reflexivity. Qed.

Lemma main_view_autoRemove (id : string) (s : MainGo.State) :
  main_view (MainGo.autoRemovePeerConnection id s) = view_remove id (main_view s).
Proof.
  unfold MainGo.autoRemovePeerConnection, view_remove, main_view. simpl.
  destruct (MainGo.callIDToOffer s !! id) as [pc|]; [|reflexivity].
  simpl. f_equal. apply fmap_alter_at. reflexivity.
Qed.

Lemma main_view_generateSDPOffer (request : OfferRequest) (env : Env) (s : MainGo.State) :
  exists session closed,
    (session = true -> closed = false)
    /\ main_view (fst (MainGo.generateSDPOffer request env s))
       = view_add (chooseCallID (OfferRequest_CallID request) env) session closed
           (main_view s).
Proof.
  unfold MainGo.generateSDPOffer, view_add, main_view.
  repeat match goal with
         | |- context [match ?x with _ => _ end] => destruct x
         end; simpl; rewrite fmap_app, ?length_fmap; simpl;
    first [ exists false, false; split; [discriminate|reflexivity]
          | exists false, true; split; [discriminate|reflexivity]
          | exists true, false; split; reflexivity ].
Qed.

Lemma main_view_generateSDPAnswer (request : AnswerRequest) (env : Env)
    (s s' : MainGo.State) (r : error + AnswerResponse) :
  MainGo.generateSDPAnswer request env s = Some (s', r) ->
  main_view s' = main_view s
  \/ main_view s'
       = view_add (chooseCallID (AnswerRequest_CallID request) env) true false (main_view s).
Proof.
  unfold MainGo.generateSDPAnswer, view_add, main_view. intros H.
  repeat match type of H with
         | context [match ?x with _ => _ end] => destruct x
         end; inversion H; subst; clear H; simpl;
    first [ left; reflexivity
          | right; rewrite fmap_app, ?length_fmap; reflexivity ].
Qed.

Lemma main_view_processAction (body : option ActionRequest) (s : MainGo.State) :
  main_view (fst (MainGo.processAction body s)) = main_view s
  \/ exists id, main_view (fst (MainGo.processAction body s)) = view_remove id (main_view s).
Proof.
  unfold MainGo.processAction.
  destruct body as [action|]; [|left; reflexivity].
  destruct (MainGo.callIDToOffer s !! ActionRequest_CallID action) as [pc|] eqn:Hpc;
    [|left; reflexivity].
  set (s1 := match validCloseActions !! ActionRequest_Action action with
             | Some _ => _
             | None => s
             end).
  assert (main_view s1 = main_view s
          \/ exists id, main_view s1 = view_remove id (main_view s)) as H1.
  { subst s1. destruct (validCloseActions !! ActionRequest_Action action);
      [|left; reflexivity].
    right. exists (ActionRequest_CallID action).
    rewrite <- main_view_autoRemove. unfold MainGo.autoRemovePeerConnection.
    rewrite Hpc. reflexivity. }
  destruct (decide (ActionRequest_Action action = "accept")); [|exact H1].
  destruct (findSDP action) as [sdp|]; [|exact H1].
  destruct (MainGo.actionChannels s1 !! ActionRequest_CallID action) as [ch|]; [|exact H1].
  destruct (MainGo.frames s1 !! ch) as [f|] eqn:Hf; [|exact H1].
  destruct (chanSend (acceptData action sdp) (MainGo.f_ch f)) as [c went].
  simpl. rewrite main_view_quiet; [exact H1|]. reflexivity.
Qed.

Lemma main_receiveDecision_slot (action : actionData) (c : Chan) (ok : bool)
    (f : MainGo.Frame) :
  main_slot (MainGo.receiveDecision action c ok f) = main_slot f.
Proof.
  unfold MainGo.receiveDecision.
  destruct (decide (Action action = "accept")); [|reflexivity].
  simpl. destruct (ok && negb (pc_closed (MainGo.f_pc f))); reflexivity.
Qed.

Lemma main_tickFrame_slot (ok : bool) (f : MainGo.Frame) :
  main_slot (MainGo.tickFrame ok f) = main_slot f.
Proof.
  destruct (main_tickFrame_same ok f) as (H1 & _ & H2 & _ & _ & H3 & _).
  unfold main_slot. rewrite H1, H2, H3. reflexivity.
Qed.

Lemma main_pacerStop_slot (f : MainGo.Frame) :
  main_slot (MainGo.pacerStop f) = main_slot f.
Proof.
  destruct (main_pacerStop_same f) as (H1 & _ & H2 & _ & _ & H3 & _).
  unfold main_slot. rewrite H1, H2, H3. reflexivity.
Qed.

(** Those steps leave the registry, and every frame's call id, session
    mark and transport state, as they were. *)
Lemma main_call_step_view (l : MainGo.Label) (s : MainGo.State) :
  main_call_step l -> main_view (fst (MainGo.step l s)) = main_view s.
Proof.
  destruct l as [body env|body env|body|n ok|n|n file|n|n ok|n|n]; simpl;
    intros Hl; try contradiction.
  - unfold MainGo.waiterReceive.
    destruct (MainGo.frames s !! n) as [f|] eqn:Hf; [|reflexivity].
    destruct (MainGo.f_go f) eqn:Hgo; try reflexivity.
    destruct (chanRecv (MainGo.f_ch f)) as [[[action c] released]|]; [|reflexivity].
    simpl.
    assert (main_view (MainGo.onFrame n (fun _ => MainGo.receiveDecision action c ok f) s)
            = main_view s) as H.
    { apply main_view_quiet. intros x Hx. rewrite Hf in Hx. injection Hx as <-.
      apply main_receiveDecision_slot. }
    destruct (MainGo.f_go (MainGo.receiveDecision action c ok f)); try exact H.
    rewrite main_view_goReturn. exact H.
  - unfold MainGo.waiterCtxDone.
    destruct (MainGo.frames s !! n) as [f|]; [|reflexivity].
    destruct (MainGo.f_go f); try reflexivity.
    destruct (MainGo.f_ctx f); [|reflexivity].
    rewrite main_view_goReturn. apply main_view_quiet. reflexivity.
  - unfold MainGo.streamIceConnected.
    destruct (MainGo.frames s !! n) as [f|]; [|reflexivity].
    destruct (MainGo.f_go f); try reflexivity.
    rewrite main_view_goReturn. apply main_view_quiet. reflexivity.
  - unfold MainGo.streamCtxDone.
    destruct (MainGo.frames s !! n) as [f|]; [|reflexivity].
    destruct (MainGo.f_go f); try reflexivity.
    destruct (MainGo.f_ctx f); [|reflexivity].
    rewrite main_view_goReturn. apply main_view_quiet. reflexivity.
  - apply main_view_quiet. intros x _. apply main_tickFrame_slot.
  - apply main_view_quiet. intros x _. apply main_pacerStop_slot.
Qed.

(** What a step does to the registry and the slots: nothing, a removal,
    or the addition its create call makes. *)
Lemma main_step_view (l : MainGo.Label) (s : MainGo.State) :
  main_view (fst (MainGo.step l s)) = main_view s
  \/ (exists id, main_view (fst (MainGo.step l s)) = view_remove id (main_view s))
  \/ (exists id session closed,
        main_created l = [id] /\ (session = true -> closed = false)
        /\ main_view (fst (MainGo.step l s)) = view_add id session closed (main_view s)).
Proof.
  destruct l as [body env|body env|body|n ok|n|n file|n|n ok|n|n]; simpl.
  - unfold MainGo.processOffer. destruct body as [request|]; [|left; reflexivity].
    right. right.
    destruct (main_view_generateSDPOffer request env s) as (session & closed & Hsc & Hv).
    exists (chooseCallID (OfferRequest_CallID request) env), session, closed.
    split; [reflexivity|]. split; [exact Hsc|].
    destruct (MainGo.generateSDPOffer request env s) as [s' [err|ev]]; exact Hv.
  - unfold MainGo.processAnswer. destruct body as [request|]; [|left; reflexivity].
    destruct (decide (AnswerRequest_Action request = "connect")); [|left; reflexivity].
    destruct (MainGo.generateSDPAnswer request env s) as [[s' r]|] eqn:Hg;
      [|left; reflexivity].
    apply main_view_generateSDPAnswer in Hg as [Hv|Hv].
    + left. destruct r; exact Hv.
    + right. right. eexists _, true, false.
      split; [reflexivity|]. split; [reflexivity|]. destruct r; exact Hv.
  - destruct (main_view_processAction body s) as [H|H];
      destruct (MainGo.processAction body s); [left|right; left]; exact H.
  - left. apply (main_call_step_view (MainGo.WaiterReceive n ok)). exact I.
  - left. apply (main_call_step_view (MainGo.WaiterCtxDone n)). exact I.
  - left. apply (main_call_step_view (MainGo.StreamIceConnected n file)). exact I.
  - left. apply (main_call_step_view (MainGo.StreamCtxDone n)). exact I.
  - left. apply (main_call_step_view (MainGo.PacerTick n ok)). exact I.
  - left. apply (main_call_step_view (MainGo.PacerCtxDone n)). exact I.
  - unfold MainGo.reaperWake.
    destruct (MainGo.frames s !! n) as [f|] eqn:Hf; [|left; reflexivity].
    destruct (MainGo.f_reaper f) eqn:Hr; try (left; reflexivity).
    right. left. exists (MainGo.f_callID f).
    rewrite <- main_view_autoRemove. apply main_view_quiet.
    intros x Hx.
    apply main_autoRemove_lookup in Hx as (f0 & Hf0 & [->| ->]);
      rewrite Hf in Hf0; injection Hf0 as <-;
      unfold main_slot; simpl; rewrite Hr; reflexivity.
Qed.



(** *** Second program *)

Lemma details_view_quiet (n : nat) (g : Details.Frame -> Details.Frame)
    (s : Details.State) :
  (forall x, Details.frames s !! n = Some x -> details_slot (g x) = details_slot x) ->
  details_view (Details.onFrame n g s) = details_view s.
Proof.
  intros Hq. unfold details_view. simpl. rewrite fmap_alter_quiet by exact Hq. reflexivity.
Qed.

Lemma details_view_autoRemove (id : string) (s : Details.State) :
  details_view (Details.autoRemovePeerConnection id s) = view_remove id (details_view s).
Proof.
  unfold Details.autoRemovePeerConnection, view_remove, details_view. simpl.
  rewrite lookup_omap.
  destruct (Details.ActionChannels s !! id) as [d|] eqn:Hd; simpl; [|reflexivity].
  unfold Details.closeDetails.
  destruct (Details.pc d) as [h|] eqn:Hpc; simpl.
  - rewrite omap_delete. f_equal. apply fmap_alter_at. reflexivity.
  - rewrite omap_delete. f_equal. apply delete_id. rewrite lookup_omap, Hd. exact Hpc.
Qed.

Lemma details_view_generateSDPOffer (request : OfferRequest) (env : Env)
    (s : Details.State) :
  details_view (fst (Details.generateSDPOffer request env s)) = details_view s
  \/ details_view (fst (Details.generateSDPOffer request env s))
       = view_add (chooseCallID (OfferRequest_CallID request) env) true false
           (details_view s).
Proof.
  unfold Details.generateSDPOffer, view_add, details_view.
  repeat match goal with
         | |- context [match ?x with _ => _ end] => destruct x
         end; simpl;
    first [ left; reflexivity
          | right; rewrite fmap_app, ?length_fmap;
            erewrite omap_insert_Some by reflexivity; reflexivity ].
Qed.

Lemma details_view_generateSDPAnswer (request : AnswerRequest) (env : Env)
    (file : option (list ParseResult)) (s s' : Details.State)
    (r : error + AnswerResponse) :
  Details.generateSDPAnswer request env file s = Some (s', r) ->
  details_view s' = details_view s
  \/ details_view s'
       = view_add (chooseCallID (AnswerRequest_CallID request) env) true false
           (details_view s).
Proof.
  unfold Details.generateSDPAnswer, view_add, details_view. intros H.
  repeat match type of H with
         | context [match ?x with _ => _ end] => destruct x
         end; inversion H; subst; clear H; simpl;
    first [ left; reflexivity
          | right; rewrite fmap_app, ?length_fmap;
            erewrite omap_insert_Some by reflexivity; reflexivity ].
Qed.

Lemma details_view_processAction (body : option ActionRequest) (s : Details.State) :
  details_view (fst (Details.processAction body s)) = details_view s
  \/ exists id,
       details_view (fst (Details.processAction body s)) = view_remove id (details_view s).
Proof.
  unfold Details.processAction.
  destruct body as [action|]; [|left; reflexivity].
  destruct (Details.ActionChannels s !! ActionRequest_CallID action) as [d|] eqn:Hd;
    [|left; reflexivity].
  destruct (Details.pc d) as [h|] eqn:Hpc; [|left; reflexivity].
  set (s1 := match validCloseActions !! ActionRequest_Action action with
             | Some _ => _
             | None => s
             end).
  assert (details_view s1 = details_view s
          \/ exists id, details_view s1 = view_remove id (details_view s)) as H1.
  { subst s1. destruct (validCloseActions !! ActionRequest_Action action);
      [|left; reflexivity].
    right. exists (ActionRequest_CallID action).
    rewrite <- details_view_autoRemove. unfold Details.autoRemovePeerConnection.
    rewrite Hd. reflexivity. }
  destruct (decide (ActionRequest_Action action = "accept")); [|exact H1].
  destruct (findSDP action) as [sdp|]; [|exact H1].
  destruct (Details.frames s1 !! Details.ch d) as [f|] eqn:Hf; [|exact H1].
  destruct (chanSend (acceptData action sdp) (Details.f_ch f)) as [c went].
  simpl. rewrite details_view_quiet; [exact H1|]. reflexivity.
Qed.

Lemma details_receiveDecision_slot (action : actionData) (c : Chan) (ok : bool)
    (file : option (list ParseResult)) (f : Details.Frame) :
  details_slot (Details.receiveDecision action c ok file f) = details_slot f.
Proof.
  unfold Details.receiveDecision.
  destruct (decide (Action action = "accept")); [|reflexivity].
  simpl. destruct (ok && negb (pc_closed (Details.f_pc f))); reflexivity.
Qed.

Lemma details_tickFrame_slot (ok : bool) (f : Details.Frame) :
  details_slot (Details.tickFrame ok f) = details_slot f.
Proof.
  destruct (details_tickFrame_same ok f) as (H1 & _ & H2 & _ & _ & H3 & _).
  unfold details_slot. rewrite H1, H2, H3. reflexivity.
Qed.

Lemma details_pacerIceFrame_slot (connected : bool) (f : Details.Frame) :
  details_slot (Details.pacerIceFrame connected f) = details_slot f.
Proof.
  destruct (details_pacerIceFrame_same connected f) as (H1 & _ & H2 & _ & _ & H3 & _).
  unfold details_slot. rewrite H1, H2, H3. reflexivity.
Qed.

Lemma details_closeReceiveFrame_slot (f : Details.Frame) :
  details_slot (Details.closeReceiveFrame f) = details_slot f.
Proof.
  unfold Details.closeReceiveFrame. destruct (Details.f_go f); try reflexivity.
  destruct (Details.f_closech f); reflexivity.
Qed.

Lemma details_step_view (l : Details.Label) (s : Details.State) :
  details_view (fst (Details.step l s)) = details_view s
  \/ (exists id, details_view (fst (Details.step l s)) = view_remove id (details_view s))
  \/ (exists id session closed,
        details_created l = [id] /\ (session = true -> closed = false)
        /\ details_view (fst (Details.step l s))
           = view_add id session closed (details_view s)).
Proof.
  destruct l as [body env|body env file|body|n ok file|n|n connected|n ok|n]; simpl.
  - unfold Details.processOffer. destruct body as [request|]; [|left; reflexivity].
    destruct (details_view_generateSDPOffer request env s) as [Hv|Hv].
    + left. destruct (Details.generateSDPOffer request env s) as [s' [err|ev]]; exact Hv.
    + right. right. eexists _, true, false.
      split; [reflexivity|]. split; [reflexivity|].
      destruct (Details.generateSDPOffer request env s) as [s' [err|ev]]; exact Hv.
  - unfold Details.processAnswer. destruct body as [request|]; [|left; reflexivity].
    destruct (decide (AnswerRequest_Action request = "connect")); [|left; reflexivity].
    destruct (Details.generateSDPAnswer request env file s) as [[s' r]|] eqn:Hg;
      [|left; reflexivity].
    apply details_view_generateSDPAnswer in Hg as [Hv|Hv].
    + left. destruct r; exact Hv.
    + right. right. eexists _, true, false.
      split; [reflexivity|]. split; [reflexivity|]. destruct r; exact Hv.
  - destruct (details_view_processAction body s) as [H|H];
      destruct (Details.processAction body s); [left|right; left]; exact H.
  - left. unfold Details.waiterReceive.
    destruct (Details.frames s !! n) as [f|] eqn:Hf; [|reflexivity].
    destruct (Details.f_go f) eqn:Hgo; try reflexivity.
    destruct (chanRecv (Details.f_ch f)) as [[[action c] released]|]; [|reflexivity].
    simpl. apply details_view_quiet. intros x Hx. rewrite Hf in Hx. injection Hx as <-.
    apply details_receiveDecision_slot.
  - left. apply details_view_quiet. intros x _. apply details_closeReceiveFrame_slot.
  - left. apply details_view_quiet. intros x _. apply details_pacerIceFrame_slot.
  - left. apply details_view_quiet. intros x _. apply details_tickFrame_slot.
  - unfold Details.reaperWake.
    destruct (Details.frames s !! n) as [f|] eqn:Hf; [|left; reflexivity].
    destruct (Details.f_reaper f) eqn:Hr; try (left; reflexivity).
    right. left. exists (Details.f_callID f).
    rewrite <- details_view_autoRemove. apply details_view_quiet.
    intros x Hx.
    apply details_autoRemove_lookup in Hx as (f0 & Hf0 & [->| ->]);
      rewrite Hf in Hf0; injection Hf0 as <-;
      unfold details_slot; simpl; rewrite Hr; reflexivity.
Qed.


Lemma details_generateSDPOffer_registry (request : OfferRequest) (env : Env)
    (s : Details.State) :
  Details.ActionChannels (fst (Details.generateSDPOffer request env s))
    = Details.ActionChannels s
  \/ exists id n,
       Details.ActionChannels (fst (Details.generateSDPOffer request env s))
         = <[ id := {| Details.pc := Some n; Details.ch := n |} ]> (Details.ActionChannels s).
Proof.
  unfold Details.generateSDPOffer.
  repeat match goal with
         | |- context [match ?x with _ => _ end] => destruct x
         end; simpl; first [left; reflexivity | right; eexists _, _; reflexivity].
Qed.

Lemma details_generateSDPAnswer_registry (request : AnswerRequest) (env : Env)
    (file : option (list ParseResult)) (s s' : Details.State)
    (r : error + AnswerResponse) :
  Details.generateSDPAnswer request env file s = Some (s', r) ->
  Details.ActionChannels s' = Details.ActionChannels s
  \/ exists id n,
       Details.ActionChannels s'
         = <[ id := {| Details.pc := Some n; Details.ch := n |} ]> (Details.ActionChannels s).
Proof.
  unfold Details.generateSDPAnswer. intros H.
  repeat match type of H with
         | context [match ?x with _ => _ end] => destruct x
         end; inversion H; subst; clear H; simpl;
    first [left; reflexivity | right; eexists _, _; reflexivity].
Qed.

Lemma details_processAction_registry (body : option ActionRequest) (s : Details.State) :
  Details.ActionChannels (fst (Details.processAction body s)) = Details.ActionChannels s
  \/ exists id,
       Details.ActionChannels (fst (Details.processAction body s))
         = delete id (Details.ActionChannels s).
Proof.
  unfold Details.processAction, Details.closeDetails.
  repeat match goal with
         | |- context [match ?x with _ => _ end] => destruct x
         end; simpl; first [left; reflexivity | right; eexists; reflexivity].
Qed.

(** ActionChannels after a step: as before, with one id deleted, or with
    one id bound to a new connection. *)
Lemma details_step_registry (l : Details.Label) (s : Details.State) :
  let m := Details.ActionChannels s in
  let m' := Details.ActionChannels (fst (Details.step l s)) in
  m' = m \/ (exists id, m' = delete id m)
  \/ (exists id n, m' = <[ id := {| Details.pc := Some n; Details.ch := n |} ]> m).
Proof.
  cbv zeta.
  destruct l as [body env|body env file|body|n ok file|n|n connected|n ok|n]; simpl.
  - unfold Details.processOffer. destruct body as [request|]; [|left; reflexivity].
    destruct (details_generateSDPOffer_registry request env s) as [H|H];
      destruct (Details.generateSDPOffer request env s) as [s' [err|ev]];
      simpl in *; [left|left|right; right|right; right]; exact H.
  - unfold Details.processAnswer. destruct body as [request|]; [|left; reflexivity].
    destruct (decide (AnswerRequest_Action request = "connect")); [|left; reflexivity].
    destruct (Details.generateSDPAnswer request env file s) as [[s' r]|] eqn:Hg;
      [|left; reflexivity].
    apply details_generateSDPAnswer_registry in Hg as [H|H];
      destruct r; simpl; [left|left|right; right|right; right]; exact H.
  - destruct (details_processAction_registry body s) as [H|H];
      destruct (Details.processAction body s); [left|right; left]; exact H.
  - left.
    assert (Details.ActionChannels (fst (Details.waiterReceive n ok file s))
            = Details.ActionChannels s) as H.
    { unfold Details.waiterReceive.
      repeat match goal with
             | |- context [match ?x with _ => _ end] => destruct x
             end; reflexivity. }
    destruct (Details.waiterReceive n ok file s). exact H.
  - left. reflexivity.
  - left. reflexivity.
  - left. reflexivity.
  - unfold Details.reaperWake, Details.autoRemovePeerConnection, Details.closeDetails.
    repeat match goal with
           | |- context [match ?x with _ => _ end] => destruct x
           end; simpl; first [left; reflexivity | right; left; eexists; reflexivity].
Qed.







(** ** Terminal transitions (first program) *)

















(** * Further properties of the code *)

(** ** The pacer writes the pages of its file, in order *)

Lemma samplesOf_tick (ok : bool) (lastGranule : Z) (ogg : list ParseResult)
    (all : list Sample) (k : nat) :
  samplesOf lastGranule ogg = drop k all ->
  match pacerTick ok lastGranule ogg with
  | (PacerLoop g rest, Some x) =>
      take (S k) all = take k all ++ [x] /\ samplesOf g rest = drop (S k) all
  | (PacerDone, None) => True
  | _ => False
  end.
Proof.
  intros Hrest. unfold pacerTick.
  destruct ogg as [|[pageData g|] rest]; try exact I.
  destruct ok; [|exact I].
  simpl in Hrest.
  assert (all !! k = Some {| Sample_Data := pageData;
                             Sample_Duration := sampleDuration g lastGranule |}) as Hk.
  { rewrite <- (Nat.add_0_r k), <- lookup_drop, <- Hrest. reflexivity. }
  split.
  - apply take_S_r. exact Hk.
  - replace (S k) with (k + 1) by lia.
    rewrite <- (drop_drop all 1 k), <- Hrest. reflexivity.
Qed.

Lemma main_pacer_after_go_born (b : MainGo.Frame) : main_born b -> main_pacer_after_go b.
Proof. intros [callID pc live _ _|callID pc _] H; simpl in H; contradiction. Qed.

Lemma main_pacer_after_go_move (x y : MainGo.Frame) :
  main_pacer_after_go x -> main_move x y -> main_pacer_after_go y.
Proof.
  intros Hx Hmove. unfold main_pacer_after_go in *.
  destruct Hmove as [f|f m|f action c released ok Hgo Hrecv|f Hgo|f file Hgo|f Hgo
                    |f ok|f|f Hr]; simpl in *; try assumption; try reflexivity.
  - intros Hp. exfalso.
    assert (MainGo.f_pacer (MainGo.receiveDecision action c ok f) = MainGo.f_pacer f) as Heq.
    { unfold MainGo.receiveDecision.
      destruct (decide (Action action = "accept")); [|reflexivity]. simpl.
      destruct (ok && negb (pc_closed (MainGo.f_pc f))); reflexivity. }
    rewrite Heq in Hp. specialize (Hx Hp). congruence.
  - intros Hp. destruct (main_tickFrame_same ok f) as (_ & _ & _ & _ & -> & _).
    apply Hx. intros Hnone. apply Hp. unfold MainGo.tickFrame. rewrite Hnone. exact Hnone.
  - intros Hp. destruct (main_pacerStop_same f) as (_ & _ & _ & _ & -> & _).
    apply Hx. intros Hnone. apply Hp. unfold MainGo.pacerStop. rewrite Hnone. exact Hnone.
Qed.

Lemma main_pacer_after_go_holds (tr : list MainGo.Label) (n : nat) (f : MainGo.Frame) :
  MainGo.frames (MainGo.after tr) !! n = Some f -> main_pacer_after_go f.
Proof.
  apply (main_frame_invariant main_pacer_after_go
           main_pacer_after_go_born main_pacer_after_go_move tr MainGo.init).
  intros k g Hk. discriminate.
Qed.

Lemma main_written_move (all old : list Sample) (x y : MainGo.Frame) :
  main_written all old x -> main_move x y -> main_written all old y.
Proof.
  intros (Hgo & k & Htrack & Hp) Hmove. unfold main_written.
  destruct Hmove as [f|f m|f action c released ok Hsel Hrecv|f Hsel|f file Hsa|f Hsa
                    |f ok|f|f Hr]; simpl in *; try congruence; eauto.
  - destruct (main_tickFrame_same ok f) as (_ & _ & _ & _ & -> & _).
    split; [exact Hgo|]. unfold MainGo.tickFrame.
    destruct (MainGo.f_pacer f) as [|w|g ogg|] eqn:Hpacer; try contradiction.
    + pose proof (samplesOf_tick ok g ogg all k Hp) as Htick.
      destruct (pacerTick ok g ogg) as [[|w|g' rest|] [x|]]; simpl; try contradiction.
      * destruct Htick as [Htake Hdrop]. exists (S k). split; [|exact Hdrop].
        rewrite Htake, rev_app_distr, Htrack. reflexivity.
      * exists k. split; [exact Htrack|exact I].
    + exists k. rewrite Hpacer. split; [exact Htrack|exact I].
  - destruct (main_pacerStop_same f) as (_ & _ & _ & _ & -> & _).
    split; [exact Hgo|]. exists k. unfold MainGo.pacerStop.
    destruct (MainGo.f_pacer f) as [|w|g ogg|] eqn:Hpacer; try contradiction.
    + destruct (MainGo.f_ctx f); simpl; rewrite ?Hpacer; split; auto.
    + rewrite Hpacer. split; [exact Htrack|exact I].
Qed.

Lemma details_receiveDecision_go (action : actionData) (c : Chan) (ok : bool)
    (file : option (list ParseResult)) (f : Details.Frame) :
  Details.f_go (Details.receiveDecision action c ok file f) <> Details.GoSelect.
Proof.
  unfold Details.receiveDecision.
  destruct (decide (Action action = "accept")); [|discriminate]. simpl.
  destruct (ok && negb (pc_closed (Details.f_pc f))); discriminate.
Qed.

Lemma details_closeReceiveFrame_go (f : Details.Frame) :
  Details.f_go f <> Details.GoSelect ->
  Details.f_go (Details.closeReceiveFrame f) <> Details.GoSelect.
Proof.
  intros H. unfold Details.closeReceiveFrame.
  destruct (Details.f_go f) eqn:Hgo; try (rewrite Hgo; exact H).
  destruct (Details.f_closech f); [rewrite Hgo; exact H|discriminate].
Qed.

Lemma details_closeReceiveFrame_pacer (f : Details.Frame) :
  Details.f_pacer (Details.closeReceiveFrame f) = Details.f_pacer f
  /\ Details.f_track (Details.closeReceiveFrame f) = Details.f_track f.
Proof.
  unfold Details.closeReceiveFrame. destruct (Details.f_go f); try (split; reflexivity).
  destruct (Details.f_closech f); split; reflexivity.
Qed.

Lemma details_pacer_after_go_born (b : Details.Frame) :
  details_born b -> details_pacer_after_go b.
Proof.
  intros [callID pc _ _|callID pc file _] H; simpl in *; [contradiction|discriminate].
Qed.

Lemma details_pacer_after_go_move (x y : Details.Frame) :
  details_pacer_after_go x -> details_move x y -> details_pacer_after_go y.
Proof.
  intros Hx Hmove. unfold details_pacer_after_go in *.
  destruct Hmove as [f|f m|f action c released ok file Hgo Hrecv|f|f connected|f ok|f Hr];
    simpl in *; try assumption.
  - intros _. apply details_receiveDecision_go.
  - intros Hp. apply details_closeReceiveFrame_go. apply Hx.
    destruct (details_closeReceiveFrame_pacer f) as [<- _]. exact Hp.
  - intros Hp. destruct (details_pacerIceFrame_same connected f) as (_ & _ & _ & _ & -> & _).
    apply Hx. intros Hnone. apply Hp. unfold Details.pacerIceFrame. rewrite Hnone.
    exact Hnone.
  - intros Hp. destruct (details_tickFrame_same ok f) as (_ & _ & _ & _ & -> & _).
    apply Hx. intros Hnone. apply Hp. unfold Details.tickFrame. rewrite Hnone. exact Hnone.
Qed.

Lemma details_pacer_after_go_holds (tr : list Details.Label) (n : nat)
    (f : Details.Frame) :
  Details.frames (Details.after tr) !! n = Some f -> details_pacer_after_go f.
Proof.
  apply (details_frame_invariant details_pacer_after_go
           details_pacer_after_go_born details_pacer_after_go_move tr Details.init).
  intros k g Hk. discriminate.
Qed.

Lemma details_written_move (all old : list Sample) (x y : Details.Frame) :
  details_written all old x -> details_move x y -> details_written all old y.
Proof.
  intros (Hgo & k & Htrack & Hp) Hmove. unfold details_written.
  destruct Hmove as [f|f m|f action c released ok file Hsel Hrecv|f|f connected|f ok|f Hr];
    simpl in *; try congruence; eauto.
  - split; [apply details_closeReceiveFrame_go; exact Hgo|].
    destruct (details_closeReceiveFrame_pacer f) as [-> ->]. eauto.
  - destruct (details_pacerIceFrame_same connected f) as (_ & _ & _ & _ & -> & _).
    split; [exact Hgo|]. exists k. unfold Details.pacerIceFrame.
    destruct (Details.f_pacer f) as [|w|g ogg|] eqn:Hpacer; try contradiction.
    + destruct connected; simpl; split; auto.
    + rewrite Hpacer. split; [exact Htrack|exact I].
  - destruct (details_tickFrame_same ok f) as (_ & _ & _ & _ & -> & _).
    split; [exact Hgo|]. unfold Details.tickFrame.
    destruct (Details.f_pacer f) as [|w|g ogg|] eqn:Hpacer; try contradiction.
    + pose proof (samplesOf_tick ok g ogg all k Hp) as Htick.
      destruct (pacerTick ok g ogg) as [[|w|g' rest|] [x|]]; simpl; try contradiction.
      * destruct Htick as [Htake Hdrop]. exists (S k). split; [|exact Hdrop].
        rewrite Htake, rev_app_distr, Htrack. reflexivity.
      * exists k. split; [exact Htrack|exact I].
    + exists k. rewrite Hpacer. split; [exact Htrack|exact I].
Qed.

(** X1: from the moment a pacer is in its ticker loop over the pages
    [ogg], with previous granule position [lastGranule], whatever steps
    the run takes afterwards (ticks, failed writes, decisions, the reaper,
    other calls), the samples added to the session's track are the first k
    samples of [samplesOf lastGranule ogg] for some k: the pages of the
    file in order, none skipped or repeated, each with its own payload and
    the duration computed from its granule position and the one before.
    Both programs. *)
Theorem pacer_writes_pages_in_order
    (ta0 ta : list MainGo.Label) (na : nat) (fa : MainGo.Frame)
    (tb0 tb : list Details.Label) (nb : nat) (fb : Details.Frame)
    (lastGranule : Z) (ogg : list ParseResult) :
  MainGo.frames (MainGo.after ta0) !! na = Some fa ->
  MainGo.f_pacer fa = PacerLoop lastGranule ogg ->
  Details.frames (Details.after tb0) !! nb = Some fb ->
  Details.f_pacer fb = PacerLoop lastGranule ogg ->
  (exists y k,
      MainGo.frames (MainGo.after (ta0 ++ ta)) !! na = Some y
      /\ MainGo.f_track y = rev (take k (samplesOf lastGranule ogg)) ++ MainGo.f_track fa)
  /\ (exists y k,
      Details.frames (Details.after (tb0 ++ tb)) !! nb = Some y
      /\ Details.f_track y
         = rev (take k (samplesOf lastGranule ogg)) ++ Details.f_track fb).
Proof.
  intros Ha Hpa Hb Hpb. split.
  - unfold MainGo.after at 1. rewrite main_run_app.
    destruct (main_frame_stable
                (main_written (samplesOf lastGranule ogg) (MainGo.f_track fa)) na
                (main_written_move _ _) ta (MainGo.after ta0))
      as (y & Hy & _ & k & Htrack & _).
    + exists fa. split; [exact Ha|]. split.
      * apply (main_pacer_after_go_holds ta0 na fa Ha). rewrite Hpa. discriminate.
      * exists 0. rewrite Hpa. split; reflexivity.
    + exists y, k. split; [exact Hy|exact Htrack].
  - unfold Details.after at 1. rewrite details_run_app.
    destruct (details_frame_stable
                (details_written (samplesOf lastGranule ogg) (Details.f_track fb)) nb
                (details_written_move _ _) tb (Details.after tb0))
      as (y & Hy & _ & k & Htrack & _).
    + exists fb. split; [exact Hb|]. split.
      * apply (details_pacer_after_go_holds tb0 nb fb Hb). rewrite Hpb. discriminate.
      * exists 0. rewrite Hpb. split; reflexivity.
    + exists y, k. split; [exact Hy|exact Htrack].
Qed.

Lemma pacer_writes_pages_in_order_witness :
  (exists y k,
      MainGo.frames
        (MainGo.after (main_two_pages ++ [MainGo.PacerTick 0 true; MainGo.PacerTick 0 false]))
        !! 0 = Some y
      /\ MainGo.f_track y = rev (take k (samplesOf 0 [Page [] 960; Page [] 1920])) ++ [])
  /\ (exists y k,
      Details.frames
        (Details.after (details_two_pages ++ [Details.PacerTick 0 true]))
        !! 0 = Some y
      /\ Details.f_track y = rev (take k (samplesOf 0 [Page [] 960; Page [] 1920])) ++ []).
Proof.
  assert (exists fa, MainGo.frames (MainGo.after main_two_pages) !! 0 = Some fa
                     /\ MainGo.f_pacer fa = PacerLoop 0 [Page [] 960; Page [] 1920]
                     /\ MainGo.f_track fa = []) as (fa & Ha & Hpa & Hta)
    by (eexists; repeat split; vm_compute; reflexivity).
  assert (exists fb, Details.frames (Details.after details_two_pages) !! 0 = Some fb
                     /\ Details.f_pacer fb = PacerLoop 0 [Page [] 960; Page [] 1920]
                     /\ Details.f_track fb = []) as (fb & Hb & Hpb & Htb)
    by (eexists; repeat split; vm_compute; reflexivity).
  pose proof (pacer_writes_pages_in_order main_two_pages
                [MainGo.PacerTick 0 true; MainGo.PacerTick 0 false] 0 fa
                details_two_pages [Details.PacerTick 0 true] 0 fb 0
                [Page [] 960; Page [] 1920] Ha Hpa Hb Hpb) as H.
  rewrite Hta, Htb in H. exact H.
Defined.

Lemma main_run_cons (l : MainGo.Label) (tr : list MainGo.Label) (s : MainGo.State) :
  fst (MainGo.run (l :: tr) s) = fst (MainGo.run tr (fst (MainGo.step l s))).
Proof.
  simpl. destruct (MainGo.step l s) as [s1 o1]. simpl.
  destruct (MainGo.run tr s1). reflexivity.
Qed.

Lemma details_run_cons (l : Details.Label) (tr : list Details.Label) (s : Details.State) :
  fst (Details.run (l :: tr) s) = fst (Details.run tr (fst (Details.step l s))).
Proof.
  simpl. destruct (Details.step l s) as [s1 o1]. simpl.
  destruct (Details.run tr s1). reflexivity.
Qed.

Lemma main_ticks_to_the_end (pages : list (list Byte.byte * Z)) (n : nat)
    (s : MainGo.State) (f : MainGo.Frame) (lastGranule : Z) :
  MainGo.frames s !! n = Some f ->
  MainGo.f_pacer f = PacerLoop lastGranule (pagesOf pages) ->
  exists y,
    MainGo.frames
      (fst (MainGo.run (replicate (S (length pages)) (MainGo.PacerTick n true)) s)) !! n
      = Some y
    /\ MainGo.f_pacer y = PacerDone
    /\ MainGo.f_track y = rev (samplesOf lastGranule (pagesOf pages)) ++ MainGo.f_track f.
Proof.
  revert s f lastGranule.
  induction pages as [|[d g] pages IH]; intros s f lastGranule Hf Hp.
  - simpl. unfold MainGo.pacerTickStep. simpl.
    rewrite list_lookup_alter_eq, Hf. simpl. eexists. split; [reflexivity|].
    unfold MainGo.tickFrame. rewrite Hp. simpl. split; reflexivity.
  - change (replicate (S (length ((d, g) :: pages))) (MainGo.PacerTick n true))
      with (MainGo.PacerTick n true
            :: replicate (S (length pages)) (MainGo.PacerTick n true)).
    rewrite main_run_cons.
    destruct (IH (fst (MainGo.step (MainGo.PacerTick n true) s))
                (MainGo.tickFrame true f) g) as (y & Hy & Hdone & Htrack).
    + simpl. rewrite list_lookup_alter_eq, Hf. reflexivity.
    + unfold MainGo.tickFrame. rewrite Hp. reflexivity.
    + exists y. split; [exact Hy|]. split; [exact Hdone|].
      rewrite Htrack. unfold MainGo.tickFrame. rewrite Hp. simpl.
      rewrite <- app_assoc. reflexivity.
Qed.

Lemma details_ticks_to_the_end (pages : list (list Byte.byte * Z)) (n : nat)
    (s : Details.State) (f : Details.Frame) (lastGranule : Z) :
  Details.frames s !! n = Some f ->
  Details.f_pacer f = PacerLoop lastGranule (pagesOf pages) ->
  exists y,
    Details.frames
      (fst (Details.run (replicate (S (length pages)) (Details.PacerTick n true)) s)) !! n
      = Some y
    /\ Details.f_pacer y = PacerDone
    /\ Details.f_track y
       = rev (samplesOf lastGranule (pagesOf pages)) ++ Details.f_track f.
Proof.
  revert s f lastGranule.
  induction pages as [|[d g] pages IH]; intros s f lastGranule Hf Hp.
  - simpl. unfold Details.pacerTickStep. simpl.
    rewrite list_lookup_alter_eq, Hf. simpl. eexists. split; [reflexivity|].
    unfold Details.tickFrame. rewrite Hp. simpl. split; reflexivity.
  - change (replicate (S (length ((d, g) :: pages))) (Details.PacerTick n true))
      with (Details.PacerTick n true
            :: replicate (S (length pages)) (Details.PacerTick n true)).
    rewrite details_run_cons.
    destruct (IH (fst (Details.step (Details.PacerTick n true) s))
                (Details.tickFrame true f) g) as (y & Hy & Hdone & Htrack).
    + simpl. rewrite list_lookup_alter_eq, Hf. reflexivity.
    + unfold Details.tickFrame. rewrite Hp. reflexivity.
    + exists y. split; [exact Hy|]. split; [exact Hdone|].
      rewrite Htrack. unfold Details.tickFrame. rewrite Hp. simpl.
      rewrite <- app_assoc. reflexivity.
Qed.

Lemma samplesOf_pagesOf_length (pages : list (list Byte.byte * Z)) (lastGranule : Z) :
  length (samplesOf lastGranule (pagesOf pages)) = length pages.
Proof.
  revert lastGranule. induction pages as [|[d g] pages IH]; intros lastGranule; simpl;
    [reflexivity|]. f_equal. apply IH.
Qed.

(** X2: a pacer in its ticker loop over a file of n readable pages, given
    n+1 ticks with every write succeeding and nothing stopping it, writes
    one sample per page, all n of them in file order, and then ends at
    io.EOF: it neither stops early nor goes on past the end.  Both
    programs. *)
Theorem pacer_streams_whole_file
    (pages : list (list Byte.byte * Z)) (lastGranule : Z)
    (sa : MainGo.State) (na : nat) (fa : MainGo.Frame)
    (sb : Details.State) (nb : nat) (fb : Details.Frame) :
  MainGo.frames sa !! na = Some fa ->
  MainGo.f_pacer fa = PacerLoop lastGranule (pagesOf pages) ->
  Details.frames sb !! nb = Some fb ->
  Details.f_pacer fb = PacerLoop lastGranule (pagesOf pages) ->
  length (samplesOf lastGranule (pagesOf pages)) = length pages
  /\ (exists y,
        MainGo.frames
          (fst (MainGo.run (replicate (S (length pages)) (MainGo.PacerTick na true)) sa))
          !! na = Some y
        /\ MainGo.f_pacer y = PacerDone
        /\ MainGo.f_track y
           = rev (samplesOf lastGranule (pagesOf pages)) ++ MainGo.f_track fa)
  /\ (exists y,
        Details.frames
          (fst (Details.run (replicate (S (length pages)) (Details.PacerTick nb true)) sb))
          !! nb = Some y
        /\ Details.f_pacer y = PacerDone
        /\ Details.f_track y
           = rev (samplesOf lastGranule (pagesOf pages)) ++ Details.f_track fb).
Proof.
  intros Ha Hpa Hb Hpb. split; [apply samplesOf_pagesOf_length|]. split.
  - exact (main_ticks_to_the_end pages na sa fa lastGranule Ha Hpa).
  - exact (details_ticks_to_the_end pages nb sb fb lastGranule Hb Hpb).
Qed.

Lemma pacer_streams_whole_file_witness :
  (exists y,
      MainGo.frames
        (fst (MainGo.run (replicate 3 (MainGo.PacerTick 0 true)) (MainGo.after main_two_pages)))
        !! 0 = Some y
      /\ MainGo.f_pacer y = PacerDone
      /\ length (MainGo.f_track y) = 2)
  /\ (exists y,
      Details.frames
        (fst (Details.run (replicate 3 (Details.PacerTick 0 true))
                (Details.after details_two_pages))) !! 0 = Some y
      /\ Details.f_pacer y = PacerDone
      /\ length (Details.f_track y) = 2).
Proof.
  assert (exists fa, MainGo.frames (MainGo.after main_two_pages) !! 0 = Some fa
                     /\ MainGo.f_pacer fa = PacerLoop 0 (pagesOf [([], 960%Z); ([], 1920%Z)])
                     /\ MainGo.f_track fa = []) as (fa & Ha & Hpa & Hta)
    by (eexists; repeat split; vm_compute; reflexivity).
  assert (exists fb, Details.frames (Details.after details_two_pages) !! 0 = Some fb
                     /\ Details.f_pacer fb = PacerLoop 0 (pagesOf [([], 960%Z); ([], 1920%Z)])
                     /\ Details.f_track fb = []) as (fb & Hb & Hpb & Htb)
    by (eexists; repeat split; vm_compute; reflexivity).
  destruct (pacer_streams_whole_file [([], 960%Z); ([], 1920%Z)] 0
              (MainGo.after main_two_pages) 0 fa (Details.after details_two_pages) 0 fb
              Ha Hpa Hb Hpb) as (_ & (ya & Hya & Hda & Htra) & (yb & Hyb & Hdb & Htrb)).
  split; [exists ya|exists yb]; (split; [assumption|]); (split; [assumption|]).
  - rewrite Htra, Hta. reflexivity.
  - rewrite Htrb, Htb. reflexivity.
Defined.

(** ** The play time the pacer reports *)

Lemma endGranule_steady (lastGranule : Z) (ogg : list ParseResult) :
  steady lastGranule ogg -> (lastGranule <= endGranule lastGranule ogg)%Z.
Proof.
  revert lastGranule. induction ogg as [|[d g|] rest IH]; intros lastGranule Hs; simpl in *;
    try lia.
  destruct Hs as [[Hle _] Hrest]. specialize (IH g Hrest). lia.
Qed.

Lemma floor48_add (a b : Z) :
  (0 <= a)%Z -> (0 <= b)%Z -> (a / 48 + b / 48 <= (a + b) / 48)%Z.
Proof.
  intros Ha Hb. apply Z.div_le_lower_bound; [lia|].
  pose proof (Z.mul_div_le a 48 ltac:(lia)). pose proof (Z.mul_div_le b 48 ltac:(lia)). lia.
Qed.

Lemma floor48_add_exact (a b : Z) :
  (a mod 48 = 0)%Z -> ((a + b) / 48 = a / 48 + b / 48)%Z.
Proof.
  intros Ha. rewrite (Z.div_mod a 48) at 1 by lia. rewrite Ha, Z.add_0_r.
  rewrite (Z.mul_comm 48). apply Z.div_add_l. lia.
Qed.

Lemma sampleDuration_steady (g l : Z) :
  (l <= g)%Z -> (g - l < 48048)%Z ->
  sampleDuration g l = ((g - l) / 48 * Arith.Millisecond)%Z.
Proof.
  intros Hle Hlt. rewrite sampleDuration_count, durationOfCount_floor by lia.
  f_equal. change 48000%Z with (48 * 1000)%Z. apply Z.div_mul_cancel_r; lia.
Qed.

(** X3: when the granule positions of a file do not decrease and advance
    by fewer than 48048 samples a page, the durations of the samples the
    pacer writes add up to no more than the play time of the file,
    (end - start) / 48 milliseconds rounded down, and to exactly that when
    every page ends a whole number of milliseconds after the one before:
    the truncation to milliseconds can only make the reported play time
    fall short. *)
Theorem pacer_play_time (lastGranule : Z) (ogg : list ParseResult) :
  steady lastGranule ogg ->
  (0 <= totalDuration (samplesOf lastGranule ogg)
   <= (endGranule lastGranule ogg - lastGranule) / 48 * Arith.Millisecond)%Z
  /\ (wholeMilliseconds lastGranule ogg ->
      totalDuration (samplesOf lastGranule ogg)
      = ((endGranule lastGranule ogg - lastGranule) / 48 * Arith.Millisecond)%Z).
Proof.
  revert lastGranule. induction ogg as [|[d g|] rest IH]; intros lastGranule Hs;
    simpl in *.
  - rewrite Z.sub_diag. split; [split; reflexivity|reflexivity].
  - destruct Hs as [[Hle Hlt] Hrest].
    destruct (IH g Hrest) as [[H0 Hup] Hexact].
    pose proof (endGranule_steady g rest Hrest) as Hend.
    rewrite (sampleDuration_steady g lastGranule Hle Hlt).
    assert (0 <= (g - lastGranule) / 48)%Z as Hq by (apply Z.div_pos; lia).
    unfold totalDuration in *. fold (totalDuration (samplesOf g rest)) in *.
    unfold Arith.Millisecond in *.
    replace (endGranule g rest - lastGranule)%Z
      with ((g - lastGranule) + (endGranule g rest - g))%Z by lia.
    split.
    + pose proof (floor48_add (g - lastGranule) (endGranule g rest - g)
                    ltac:(lia) ltac:(lia)). lia.
    + intros [Hwhole Hw]. rewrite (floor48_add_exact _ _ Hwhole).
      rewrite (Hexact Hw). lia.
  - rewrite Z.sub_diag. split; [split; reflexivity|reflexivity].
Qed.

Lemma pacer_play_time_witness :
  steady 0 [Page [] 960; Page [] 1000; Page [] 1040]
  /\ (0 <= totalDuration (samplesOf 0 [Page [] 960; Page [] 1000; Page [] 1040])
       <= (endGranule 0 [Page [] 960; Page [] 1000; Page [] 1040] - 0) / 48
          * Arith.Millisecond)%Z.
Proof.
  assert (steady 0 [Page [] 960; Page [] 1000; Page [] 1040]) as Hs
    by (simpl; lia).
  split; [exact Hs|].
  exact (proj1 (pacer_play_time 0 [Page [] 960; Page [] 1000; Page [] 1040] Hs)).
Defined.

(** ** The registry never names a closed transport *)

Lemma view_sound_remove (id : string) (v : gmap string nat * list Slot) :
  view_sound v -> view_sound (view_remove id v).
Proof.
  intros Hs. unfold view_remove.
  destruct (fst v !! id) as [pc|] eqn:Hid; [|exact Hs].
  destruct (Hs id pc Hid) as (xp & Hxp & Hxid & _).
  intros id' n Hl. simpl in *.
  apply lookup_delete_Some in Hl as [Hne Hl].
  destruct (Hs id' n Hl) as (x & Hx & Hxi & Hrest).
  assert (n <> pc) as Hnpc.
  { intros ->. rewrite Hxp in Hx. injection Hx as <-. congruence. }
  exists x. rewrite list_lookup_alter_ne by congruence. tauto.
Qed.

Lemma view_sound_add (id : string) (session closed : bool)
    (v : gmap string nat * list Slot) :
  (session = true -> closed = false) ->
  view_sound v -> view_sound (view_add id session closed v).
Proof.
  intros Hsc Hs id' n Hl. unfold view_add in *. simpl in *.
  assert (fst v !! id' = Some n \/ (session = true /\ id' = id /\ n = length (snd v)))
    as [Hl'|(Hse & -> & ->)].
  { destruct session; [|left; exact Hl].
    apply lookup_insert_Some in Hl as [[<- <-]|[_ Hl]]; [right|left]; tauto. }
  - destruct (Hs id' n Hl') as (x & Hx & Hrest). exists x.
    split; [|exact Hrest]. apply lookup_app_l_Some. exact Hx.
  - eexists. split.
    + rewrite lookup_app_r by lia. rewrite Nat.sub_diag. reflexivity.
    + simpl. split; [reflexivity|]. split; [exact Hse|]. apply Hsc. exact Hse.
Qed.

Lemma main_view_sound (tr : list MainGo.Label) : view_sound (main_view (MainGo.after tr)).
Proof.
  apply (main_run_invariant (fun s => view_sound (main_view s))).
  - intros l s Hs.
    destruct (main_step_view l s) as [->|[(id & ->)|(id & se & cl & _ & Hsc & ->)]].
    + exact Hs.
    + apply view_sound_remove. exact Hs.
    + apply view_sound_add; assumption.
  - intros id n Hl. discriminate.
Qed.

Lemma details_view_sound (tr : list Details.Label) :
  view_sound (details_view (Details.after tr)).
Proof.
  apply (details_run_invariant (fun s => view_sound (details_view s))).
  - intros l s Hs.
    destruct (details_step_view l s) as [->|[(id & ->)|(id & se & cl & _ & Hsc & ->)]].
    + exact Hs.
    + apply view_sound_remove. exact Hs.
    + apply view_sound_add; assumption.
  - intros id n Hl. discriminate.
Qed.

Lemma details_paired_holds (tr : list Details.Label) : details_paired (Details.after tr).
Proof.
  apply (details_run_invariant details_paired).
  - intros l s Hs id d Hl.
    destruct (details_step_registry l s) as [Hm|[(i & Hm)|(i & n & Hm)]];
      simpl in Hm; rewrite Hm in Hl.
    + eapply Hs. exact Hl.
    + apply lookup_delete_Some in Hl as [_ Hl]. eapply Hs. exact Hl.
    + apply lookup_insert_Some in Hl as [[_ <-]|[_ Hl]]; [reflexivity|].
      eapply Hs. exact Hl.
  - intros id d Hl. discriminate.
Qed.

Lemma main_registry_sound (ta : list MainGo.Label) (id : string) (n : nat) :
  MainGo.callIDToOffer (MainGo.after ta) !! id = Some n ->
  exists f, MainGo.frames (MainGo.after ta) !! n = Some f
            /\ MainGo.f_callID f = id
            /\ MainGo.f_reaper f <> ReaperNone
            /\ pc_closed (MainGo.f_pc f) = false.
Proof.
  intros Hl.
  destruct (main_view_sound ta id n Hl) as (x & Hx & Hid & Hse & Hcl).
  simpl in Hx. rewrite list_lookup_fmap in Hx.
  destruct (MainGo.frames (MainGo.after ta) !! n) as [f|]; [|discriminate].
  injection Hx as <-. exists f. simpl in *.
  repeat split; try assumption. intros Hr. rewrite Hr in Hse. discriminate.
Qed.

Lemma details_registry_sound (tb : list Details.Label) (id : string)
    (d : Details.CallIDDetails) :
  Details.ActionChannels (Details.after tb) !! id = Some d ->
  exists f, Details.pc d = Some (Details.ch d)
            /\ Details.frames (Details.after tb) !! Details.ch d = Some f
            /\ Details.f_callID f = id
            /\ Details.f_reaper f <> ReaperNone
            /\ pc_closed (Details.f_pc f) = false.
Proof.
  intros Hl.
  pose proof (details_paired_holds tb id d Hl) as Hpair.
  destruct (details_view_sound tb id (Details.ch d)) as (x & Hx & Hid & Hse & Hcl).
  { simpl. rewrite lookup_omap, Hl. exact Hpair. }
  simpl in Hx. rewrite list_lookup_fmap in Hx.
  destruct (Details.frames (Details.after tb) !! Details.ch d) as [f|]; [|discriminate].
  injection Hx as <-. exists f. simpl in *.
  repeat split; try assumption. intros Hr. rewrite Hr in Hse. discriminate.
Qed.



(** ** A closed transport is final *)





(** ** Answer-flow sessions never wait for a decision *)

Lemma main_answer_streams_born (b : MainGo.Frame) : main_born b -> main_answer_streams b.
Proof.
  intros [callID pc live _ _|callID pc _] Hflow; [discriminate|].
  simpl. repeat split. discriminate.
Qed.

Lemma main_answer_streams_move (x y : MainGo.Frame) :
  main_answer_streams x -> main_move x y -> main_answer_streams y.
Proof.
  intros Hx Hmove. unfold main_answer_streams in *.
  destruct Hmove as [f|f m|f action c released ok Hgo Hrecv|f Hgo|f file Hgo|f Hgo
                    |f ok|f|f Hr]; simpl in *; try exact Hx.
  - intros Hflow. exfalso.
    assert (MainGo.f_flow f = AnswerFlow) as Hf.
    { revert Hflow. unfold MainGo.receiveDecision.
      destruct (decide (Action action = "accept")); simpl; [|tauto].
      destruct (ok && negb (pc_closed (MainGo.f_pc f))); simpl; tauto. }
    destruct (Hx Hf) as [Hne _]. contradiction.
  - intros Hflow. destruct (Hx Hflow) as [Hne _]. contradiction.
  - intros Hflow. destruct (Hx Hflow) as (_ & Hc & Hs). repeat split; try assumption.
    discriminate.
  - intros Hflow. destruct (Hx Hflow) as (_ & Hc & Hs). repeat split; try assumption.
    discriminate.
  - destruct (main_tickFrame_same ok f) as (_ & -> & _ & _ & -> & _ & -> & ->). exact Hx.
  - destruct (main_pacerStop_same f) as (_ & -> & _ & _ & -> & _ & -> & ->). exact Hx.
Qed.

Lemma details_answer_streams_born (b : Details.Frame) :
  details_born b -> details_answer_streams b.
Proof.
  intros [callID pc _ _|callID pc file _] Hflow; [discriminate|].
  simpl. repeat split. discriminate.
Qed.

Lemma details_answer_streams_move (x y : Details.Frame) :
  details_answer_streams x -> details_move x y -> details_answer_streams y.
Proof.
  intros Hx Hmove. unfold details_answer_streams in *.
  destruct Hmove as [f|f m|f action c released ok file Hgo Hrecv|f|f connected|f ok
                    |f Hr]; simpl in *; try exact Hx.
  - intros Hflow. exfalso.
    assert (Details.f_flow f = AnswerFlow) as Hf.
    { revert Hflow. unfold Details.receiveDecision.
      destruct (decide (Action action = "accept")); simpl; [|tauto].
      destruct (ok && negb (pc_closed (Details.f_pc f))); simpl; tauto. }
    destruct (Hx Hf) as [Hne _]. contradiction.
  - unfold Details.closeReceiveFrame.
    destruct (Details.f_go f) eqn:Hgo; try (rewrite Hgo; exact Hx).
    destruct (Details.f_closech f); [rewrite Hgo; exact Hx|]. simpl.
    intros Hflow. destruct (Hx Hflow) as (_ & Hc & Hs). repeat split; try assumption.
    discriminate.
  - destruct (details_pacerIceFrame_same connected f)
      as (_ & -> & _ & _ & -> & _ & -> & ->). exact Hx.
  - destruct (details_tickFrame_same ok f) as (_ & -> & _ & _ & -> & _ & -> & ->). exact Hx.
Qed.

(** X6: in every run of either program, a session made by
    generateSDPAnswer never waits on its decision channel: no decision is
    ever taken out of it, and streamAudio has been started for it exactly
    once, by the create call itself.  Decisions sent for such a call are
    never read. *)
Theorem answer_flow_never_reads_decisions
    (ta : list MainGo.Label) (tb : list Details.Label) :
  (forall n f, MainGo.frames (MainGo.after ta) !! n = Some f ->
     MainGo.f_flow f = AnswerFlow ->
     MainGo.f_go f <> MainGo.GoSelect /\ MainGo.f_consumed f = []
     /\ MainGo.f_streamAudio f = 1)
  /\ (forall n f, Details.frames (Details.after tb) !! n = Some f ->
        Details.f_flow f = AnswerFlow ->
        Details.f_go f <> Details.GoSelect /\ Details.f_consumed f = []
        /\ Details.f_streamAudio f = 1).
Proof.
  split.
  - intros n f Hf.
    apply (main_frame_invariant main_answer_streams
             main_answer_streams_born main_answer_streams_move ta MainGo.init
             (fun k g Hk => ltac:(discriminate)) n f Hf).
  - intros n f Hf.
    apply (details_frame_invariant details_answer_streams
             details_answer_streams_born details_answer_streams_move tb Details.init
             (fun k g Hk => ltac:(discriminate)) n f Hf).
Qed.

Lemma answer_flow_never_reads_decisions_witness :
  (exists f, MainGo.frames (MainGo.after main_answer_a) !! 0 = Some f
             /\ MainGo.f_go f <> MainGo.GoSelect /\ MainGo.f_consumed f = []
             /\ MainGo.f_streamAudio f = 1)
  /\ (exists f, Details.frames (Details.after details_answer_a) !! 0 = Some f
                /\ Details.f_go f <> Details.GoSelect /\ Details.f_consumed f = []
                /\ Details.f_streamAudio f = 1).
Proof.
  assert (exists f, MainGo.frames (MainGo.after main_answer_a) !! 0 = Some f
                    /\ MainGo.f_flow f = AnswerFlow) as (fa & Ha & Hfa)
    by (eexists; split; vm_compute; reflexivity).
  assert (exists f, Details.frames (Details.after details_answer_a) !! 0 = Some f
                    /\ Details.f_flow f = AnswerFlow) as (fb & Hb & Hfb)
    by (eexists; split; vm_compute; reflexivity).
  split.
  - exists fa. split; [exact Ha|].
    exact (proj1 (answer_flow_never_reads_decisions main_answer_a details_answer_a)
             0 fa Ha Hfa).
  - exists fb. split; [exact Hb|].
    exact (proj2 (answer_flow_never_reads_decisions main_answer_a details_answer_a)
             0 fb Hb Hfb).
Defined.

(** ** The decision channel holds one value *)

Lemma chanSend_ok (m : actionData) (c : Chan) : chan_ok c -> chan_ok (fst (chanSend m c)).
Proof.
  intros [Hlen Hq]. unfold chanSend, chan_ok.
  destruct (buf c) as [|b rest] eqn:Hb; simpl.
  - split; [lia|]. discriminate.
  - split; [exact Hlen|]. discriminate.
Qed.

Lemma chanRecv_ok (c c' : Chan) (m : actionData) (released : nat) :
  chan_ok c -> chanRecv c = Some (m, c', released) ->
  chan_ok c' /\ buf c = [m] /\ released <= 1.
Proof.
  intros [Hlen Hq] Hr. unfold chanRecv, chan_ok in *.
  destruct (buf c) as [|b rest] eqn:Hb; [discriminate|].
  assert (rest = []) as -> by (destruct rest; [reflexivity|simpl in Hlen; lia]).
  destruct (sendq c) as [|w q]; injection Hr as <- <- <-; simpl.
  - repeat split; try lia. tauto.
  - repeat split; try lia. discriminate.
Qed.

Lemma main_chan_ok_born (b : MainGo.Frame) : main_born b -> chan_ok (MainGo.f_ch b).
Proof. intros [callID pc live _ _|callID pc _]; simpl; split; simpl; try lia; tauto. Qed.

Lemma main_chan_ok_move (x y : MainGo.Frame) :
  chan_ok (MainGo.f_ch x) -> main_move x y -> chan_ok (MainGo.f_ch y).
Proof.
  intros Hx Hmove.
  destruct Hmove as [f|f m|f action c released ok Hgo Hrecv|f Hgo|f file Hgo|f Hgo
                    |f ok|f|f Hr]; simpl in *; try exact Hx.
  - apply chanSend_ok. exact Hx.
  - destruct (chanRecv_ok _ _ _ _ Hx Hrecv) as [Hc _].
    unfold MainGo.receiveDecision.
    destruct (decide (Action action = "accept")); simpl; [|exact Hc].
    destruct (ok && negb (pc_closed (MainGo.f_pc f))); simpl; exact Hc.
  - destruct (main_tickFrame_same ok f) as (_ & _ & _ & -> & _). exact Hx.
  - destruct (main_pacerStop_same f) as (_ & _ & _ & -> & _). exact Hx.
Qed.

Lemma details_chan_ok_born (b : Details.Frame) : details_born b -> chan_ok (Details.f_ch b).
Proof. intros [callID pc _ _|callID pc file _]; simpl; split; simpl; try lia; tauto. Qed.

Lemma details_chan_ok_move (x y : Details.Frame) :
  chan_ok (Details.f_ch x) -> details_move x y -> chan_ok (Details.f_ch y).
Proof.
  intros Hx Hmove.
  destruct Hmove as [f|f m|f action c released ok file Hgo Hrecv|f|f connected|f ok
                    |f Hr]; simpl in *; try exact Hx.
  - apply chanSend_ok. exact Hx.
  - destruct (chanRecv_ok _ _ _ _ Hx Hrecv) as [Hc _].
    unfold Details.receiveDecision.
    destruct (decide (Action action = "accept")); simpl; [|exact Hc].
    destruct (ok && negb (pc_closed (Details.f_pc f))); simpl; exact Hc.
  - unfold Details.closeReceiveFrame.
    destruct (Details.f_go f); try exact Hx.
    destruct (Details.f_closech f); exact Hx.
  - destruct (details_pacerIceFrame_same connected f) as (_ & _ & _ & -> & _). exact Hx.
  - destruct (details_tickFrame_same ok f) as (_ & _ & _ & -> & _). exact Hx.
Qed.



(** ** The callbacks that are posted *)

(** Case analysis on the innermost scrutinee of the goal, repeated. *)
Ltac split_matches :=
  repeat (match goal with
          | |- context [match ?x with _ => _ end] =>
              lazymatch x with
              | context [match _ with _ => _ end] => fail
              | _ => destruct x eqn:?
              end
          end; simpl in *; try discriminate).

Lemma main_generateSDPOffer_posts (request : OfferRequest) (env : Env) (s : MainGo.State) :
  MainGo.callbacks (fst (MainGo.generateSDPOffer request env s))
  = MainGo.callbacks s ++ main_posted (MainGo.PostOffer (Some request) env)
  /\ snd (MainGo.generateSDPOffer request env s)
     = snd (MainGo.generateSDPOffer request env MainGo.init).
Proof.
  unfold main_posted, MainGo.generateSDPOffer. simpl.
  destruct (NewPeerConnection_err env); simpl; [rewrite app_nil_r; tauto|].
  destruct (NewTrackLocalStaticSample_err env); simpl; [rewrite app_nil_r; tauto|].
  destruct (AddTrack_err env); simpl; [rewrite app_nil_r; tauto|].
  destruct (Create_res env); simpl; [rewrite app_nil_r; tauto|].
  destruct (SetLocalDescription_err env); simpl; [rewrite app_nil_r; tauto|].
  destruct (LocalDescription env); simpl; [|rewrite app_nil_r; tauto].
  destruct (decide (OfferRequest_CallbackURL request = EmptyString));
    simpl; rewrite ?app_nil_r; tauto.
Qed.

Lemma details_generateSDPOffer_posts (request : OfferRequest) (env : Env)
    (s : Details.State) :
  Details.callbacks (fst (Details.generateSDPOffer request env s))
  = Details.callbacks s ++ details_posted (Details.PostOffer (Some request) env)
  /\ snd (Details.generateSDPOffer request env s)
     = snd (Details.generateSDPOffer request env Details.init).
Proof.
  unfold details_posted, Details.generateSDPOffer. simpl.
  destruct (NewPeerConnection_err env); simpl; [rewrite app_nil_r; tauto|].
  destruct (NewTrackLocalStaticSample_err env); simpl; [rewrite app_nil_r; tauto|].
  destruct (AddTrack_err env); simpl; [rewrite app_nil_r; tauto|].
  destruct (Create_res env); simpl; [rewrite app_nil_r; tauto|].
  destruct (SetLocalDescription_err env); simpl; [rewrite app_nil_r; tauto|].
  destruct (LocalDescription env); simpl; [|rewrite app_nil_r; tauto].
  destruct (decide (OfferRequest_CallbackURL request = EmptyString));
    simpl; rewrite ?app_nil_r; tauto.
Qed.

Lemma main_goReturn_callbacks (f : MainGo.Frame) (s : MainGo.State) :
  MainGo.callbacks (MainGo.goReturn f s) = MainGo.callbacks s.
Proof. unfold MainGo.goReturn. destruct (MainGo.f_flow f); reflexivity. Qed.

Lemma main_step_posts (l : MainGo.Label) (s : MainGo.State) :
  MainGo.callbacks (fst (MainGo.step l s)) = MainGo.callbacks s ++ main_posted l.
Proof.
  destruct l as [body env|body env|body|n ok|n|n file|n|n ok|n|n]; simpl.
  - destruct body as [request|]; simpl; [|rewrite app_nil_r; reflexivity].
    pose proof (proj1 (main_generateSDPOffer_posts request env s)) as H.
    unfold MainGo.processOffer. simpl in H.
    destruct (MainGo.generateSDPOffer request env s) as [s' [err|ev]]; exact H.
  - rewrite app_nil_r. unfold MainGo.processAnswer, MainGo.generateSDPAnswer.
    split_matches; reflexivity.
  - rewrite app_nil_r. unfold MainGo.processAction.
    split_matches; reflexivity.
  - rewrite app_nil_r. unfold MainGo.waiterReceive.
    split_matches; rewrite ?main_goReturn_callbacks; reflexivity.
  - rewrite app_nil_r. unfold MainGo.waiterCtxDone.
    split_matches; rewrite ?main_goReturn_callbacks; reflexivity.
  - rewrite app_nil_r. unfold MainGo.streamIceConnected.
    split_matches; rewrite ?main_goReturn_callbacks; reflexivity.
  - rewrite app_nil_r. unfold MainGo.streamCtxDone.
    split_matches; rewrite ?main_goReturn_callbacks; reflexivity.
  - rewrite app_nil_r. reflexivity.
  - rewrite app_nil_r. reflexivity.
  - rewrite app_nil_r. unfold MainGo.reaperWake, MainGo.autoRemovePeerConnection.
    split_matches; reflexivity.
Qed.

Lemma details_step_posts (l : Details.Label) (s : Details.State) :
  Details.callbacks (fst (Details.step l s)) = Details.callbacks s ++ details_posted l.
Proof.
  destruct l as [body env|body env file|body|n ok file|n|n connected|n ok|n]; simpl.
  - destruct body as [request|]; simpl; [|rewrite app_nil_r; reflexivity].
    pose proof (proj1 (details_generateSDPOffer_posts request env s)) as H.
    unfold Details.processOffer. simpl in H.
    destruct (Details.generateSDPOffer request env s) as [s' [err|ev]]; exact H.
  - rewrite app_nil_r. unfold Details.processAnswer, Details.generateSDPAnswer.
    split_matches; reflexivity.
  - rewrite app_nil_r. unfold Details.processAction, Details.closeDetails.
    split_matches; reflexivity.
  - rewrite app_nil_r. unfold Details.waiterReceive.
    split_matches; reflexivity.
  - rewrite app_nil_r. reflexivity.
  - rewrite app_nil_r. reflexivity.
  - rewrite app_nil_r. reflexivity.
  - rewrite app_nil_r.
    unfold Details.reaperWake, Details.autoRemovePeerConnection, Details.closeDetails.
    split_matches; reflexivity.
Qed.

Lemma main_posted_reply (request : OfferRequest) (env : Env) (s : MainGo.State)
    (url : string) (p : Event) :
  (url, p) ∈ main_posted (MainGo.PostOffer (Some request) env) ->
  url = OfferRequest_CallbackURL request /\ url <> EmptyString
  /\ snd (MainGo.step (MainGo.PostOffer (Some request) env) s)
     = [{| StatusCode := StatusOK; ResponseBody := BodyEvent p |}].
Proof.
  intros Hin. simpl in *. unfold MainGo.processOffer.
  pose proof (proj2 (main_generateSDPOffer_posts request env s)) as Hsnd.
  destruct (MainGo.generateSDPOffer request env s) as [s' r]. simpl in Hsnd. subst r.
  destruct (snd (MainGo.generateSDPOffer request env MainGo.init)) as [err|ev].
  - apply elem_of_nil in Hin. contradiction.
  - destruct (decide (OfferRequest_CallbackURL request = EmptyString)) as [He|Hne].
    + apply elem_of_nil in Hin. contradiction.
    + apply list_elem_of_singleton in Hin. injection Hin as -> ->. simpl. tauto.
Qed.

Lemma details_posted_reply (request : OfferRequest) (env : Env) (s : Details.State)
    (url : string) (p : Event) :
  (url, p) ∈ details_posted (Details.PostOffer (Some request) env) ->
  url = OfferRequest_CallbackURL request /\ url <> EmptyString
  /\ snd (Details.step (Details.PostOffer (Some request) env) s)
     = [{| StatusCode := StatusOK; ResponseBody := BodyEvent p |}].
Proof.
  intros Hin. simpl in *. unfold Details.processOffer.
  pose proof (proj2 (details_generateSDPOffer_posts request env s)) as Hsnd.
  destruct (Details.generateSDPOffer request env s) as [s' r]. simpl in Hsnd. subst r.
  destruct (snd (Details.generateSDPOffer request env Details.init)) as [err|ev].
  - apply elem_of_nil in Hin. contradiction.
  - destruct (decide (OfferRequest_CallbackURL request = EmptyString)) as [He|Hne].
    + apply elem_of_nil in Hin. contradiction.
    + apply list_elem_of_singleton in Hin. injection Hin as -> ->. simpl. tauto.
Qed.

(** X8: the callbacks a run hands to sendCallbackAsync are, in request
    order, those of its CreateOffer requests that succeed and name a
    callback URL, one each; CreateAnswer (whose request also carries a
    callback_url), the actions and the goroutines post nothing.  Every
    callback goes to the request's URL with the very event that the
    request's 200 reply carries, whatever the state of the server, and
    the two programs post the same callbacks for the same requests. *)
Theorem callbacks_are_those_of_successful_offers
    (ta : list MainGo.Label) (tb : list Details.Label) :
  MainGo.callbacks (MainGo.after ta) = flat_map main_posted ta
  /\ Details.callbacks (Details.after tb) = flat_map details_posted tb
  /\ (forall body env,
        main_posted (MainGo.PostOffer body env)
        = details_posted (Details.PostOffer body env))
  /\ (forall request env url p,
        (url, p) ∈ main_posted (MainGo.PostOffer (Some request) env) ->
        url = OfferRequest_CallbackURL request /\ url <> EmptyString
        /\ (forall s, snd (MainGo.step (MainGo.PostOffer (Some request) env) s)
              = [{| StatusCode := StatusOK; ResponseBody := BodyEvent p |}])
        /\ (forall s, snd (Details.step (Details.PostOffer (Some request) env) s)
              = [{| StatusCode := StatusOK; ResponseBody := BodyEvent p |}])).
Proof.
  assert (forall body env,
             main_posted (MainGo.PostOffer body env)
             = details_posted (Details.PostOffer body env)) as Hsame.
  { intros [request|] env; [|reflexivity].
    unfold main_posted, details_posted, MainGo.generateSDPOffer,
      Details.generateSDPOffer. simpl.
    split_matches; reflexivity. }
  split; [|split; [|split; [exact Hsame|]]].
  - induction ta as [|l ta IH] using rev_ind; [reflexivity|].
    rewrite main_after_snoc, main_step_posts, IH, flat_map_app. simpl.
    rewrite app_nil_r. reflexivity.
  - induction tb as [|l tb IH] using rev_ind; [reflexivity|].
    rewrite details_after_snoc, details_step_posts, IH, flat_map_app. simpl.
    rewrite app_nil_r. reflexivity.
  - intros request env url p Hin.
    destruct (main_posted_reply request env MainGo.init url p Hin) as (Hu & Hne & _).
    split; [exact Hu|]. split; [exact Hne|]. split.
    + intros s. exact (proj2 (proj2 (main_posted_reply request env s url p Hin))).
    + intros s. rewrite Hsame in Hin.
      exact (proj2 (proj2 (details_posted_reply request env s url p Hin))).
Qed.

Lemma callbacks_are_those_of_successful_offers_witness :
  exists p,
    MainGo.callbacks
      (MainGo.after [MainGo.PostCalls (Some (Scenario.answerRequest "a" "v=0")) Scenario.env0;
                     MainGo.PostOffer (Some offerRequestWithCallback) Scenario.env0;
                     MainGo.PostOffer (Some offerRequestWithCallback) envNoEngine])
    = [("http://callback.example/hook", p)]
    /\ snd (MainGo.step (MainGo.PostOffer (Some offerRequestWithCallback) Scenario.env0)
              MainGo.init)
       = [{| StatusCode := StatusOK; ResponseBody := BodyEvent p |}].
Proof.
  assert (exists p, main_posted (MainGo.PostOffer (Some offerRequestWithCallback)
                                   Scenario.env0)
                    = [("http://callback.example/hook", p)]) as (p & Hp)
    by (eexists; vm_compute; reflexivity).
  exists p.
  destruct (callbacks_are_those_of_successful_offers
              [MainGo.PostCalls (Some (Scenario.answerRequest "a" "v=0")) Scenario.env0;
               MainGo.PostOffer (Some offerRequestWithCallback) Scenario.env0;
               MainGo.PostOffer (Some offerRequestWithCallback) envNoEngine] [])
    as (Hrun & _ & _ & Hreply).
  split.
  - rewrite Hrun. cbn [flat_map]. rewrite Hp. reflexivity.
  - apply (Hreply offerRequestWithCallback Scenario.env0
             "http://callback.example/hook" p).
    rewrite Hp. apply list_elem_of_singleton. reflexivity.
Defined.

(** ** A create-offer call that fails *)

Lemma main_generateSDPOffer_fails (request : OfferRequest) (env : Env) (s : MainGo.State)
    (err : error) :
  snd (MainGo.generateSDPOffer request env s) = inl err ->
  exists pc,
    fst (MainGo.generateSDPOffer request env s)
    = {| MainGo.callIDToOffer := MainGo.callIDToOffer s;
         MainGo.actionChannels :=
           <[ chooseCallID (OfferRequest_CallID request) env := length (MainGo.frames s) ]>
             (MainGo.actionChannels s);
         MainGo.frames :=
           MainGo.frames s
           ++ [MainGo.offerFrame (chooseCallID (OfferRequest_CallID request) env) pc false];
         MainGo.callbacks := MainGo.callbacks s |}.
Proof.
  unfold MainGo.generateSDPOffer. simpl.
  destruct (NewPeerConnection_err env); simpl; [eexists; reflexivity|].
  destruct (NewTrackLocalStaticSample_err env); simpl; [eexists; reflexivity|].
  destruct (AddTrack_err env); simpl; [eexists; reflexivity|].
  destruct (Create_res env); simpl; [eexists; reflexivity|].
  destruct (SetLocalDescription_err env); simpl; [eexists; reflexivity|].
  destruct (LocalDescription env); simpl; [discriminate|eexists; reflexivity].
Qed.

Lemma details_generateSDPOffer_fails (request : OfferRequest) (env : Env)
    (s : Details.State) (err : error) :
  snd (Details.generateSDPOffer request env s) = inl err ->
  fst (Details.generateSDPOffer request env s) = s.
Proof.
  unfold Details.generateSDPOffer. simpl.
  destruct (NewPeerConnection_err env); simpl; [reflexivity|].
  destruct (NewTrackLocalStaticSample_err env); simpl; [reflexivity|].
  destruct (AddTrack_err env); simpl; [reflexivity|].
  destruct (Create_res env); simpl; [reflexivity|].
  destruct (SetLocalDescription_err env); simpl; [reflexivity|].
  destruct (LocalDescription env); simpl; [discriminate|reflexivity].
Qed.

Lemma main_dead_move (c : string) (x y : MainGo.Frame) :
  MainGo.f_callID x = c /\ main_dead x -> main_move x y ->
  MainGo.f_callID y = c /\ main_dead y.
Proof.
  intros (Hid & Hgo & Hr & Hc & Hs) Hmove. unfold main_dead.
  destruct Hmove as [f|f m|f action ch released ok Hgo' Hrecv|f Hgo'|f file Hgo'|f Hgo'
                    |f ok|f|f Hr']; simpl in *; try tauto; try congruence.
  - destruct (main_tickFrame_same ok f) as (-> & _ & _ & _ & -> & -> & -> & ->). tauto.
  - destruct (main_pacerStop_same f) as (-> & _ & _ & _ & -> & -> & -> & ->). tauto.
Qed.

(** X9: a CreateOffer call that fails is answered 500 in both programs.
    In the first program the call has by then stored its channel under
    the call id (actionChannels.Store comes before the engine is asked)
    and started no goroutine: the entry points at a channel that nothing
    will ever read, in every continuation of the run, while callIDToOffer
    and the callbacks are as before.  In the second program the failed
    call leaves the state as it was. *)
Theorem failed_offer_leaves_unread_channel
    (ta0 ta : list MainGo.Label) (tb0 : list Details.Label)
    (request : OfferRequest) (env : Env) (erra errb : error) :
  snd (MainGo.generateSDPOffer request env (MainGo.after ta0)) = inl erra ->
  snd (Details.generateSDPOffer request env (Details.after tb0)) = inl errb ->
  let id := chooseCallID (OfferRequest_CallID request) env in
  let n := length (MainGo.frames (MainGo.after ta0)) in
  let s1 := MainGo.after (ta0 ++ [MainGo.PostOffer (Some request) env]) in
  snd (MainGo.step (MainGo.PostOffer (Some request) env) (MainGo.after ta0))
    = [errorJSON StatusInternalServerError ("Error generating offer: " +:+ erra)]
  /\ MainGo.actionChannels s1 !! id = Some n
  /\ MainGo.callIDToOffer s1 = MainGo.callIDToOffer (MainGo.after ta0)
  /\ MainGo.callbacks s1 = MainGo.callbacks (MainGo.after ta0)
  /\ (exists y,
        MainGo.frames (MainGo.after ((ta0 ++ [MainGo.PostOffer (Some request) env]) ++ ta))
          !! n = Some y
        /\ MainGo.f_callID y = id
        /\ MainGo.f_go y = MainGo.GoNone
        /\ MainGo.f_reaper y = ReaperNone
        /\ MainGo.f_consumed y = [])
  /\ snd (Details.step (Details.PostOffer (Some request) env) (Details.after tb0))
     = [errorJSON StatusInternalServerError ("Error generating offer: " +:+ errb)]
  /\ Details.after (tb0 ++ [Details.PostOffer (Some request) env]) = Details.after tb0.
Proof.
  intros Ha Hb id n s1.
  destruct (main_generateSDPOffer_fails request env _ erra Ha) as (pc & Hfst).
  pose proof (details_generateSDPOffer_fails request env _ errb Hb) as Hfstb.
  assert (s1 = fst (MainGo.generateSDPOffer request env (MainGo.after ta0))) as Hs1.
  { unfold s1. rewrite main_after_snoc. simpl. unfold MainGo.processOffer.
    destruct (MainGo.generateSDPOffer request env (MainGo.after ta0)) as [s' [e|ev]];
      reflexivity. }
  split; [|split; [|split; [|split; [|split; [|split]]]]].
  - simpl. unfold MainGo.processOffer.
    destruct (MainGo.generateSDPOffer request env (MainGo.after ta0)) as [s' r].
    simpl in Ha. subst r. reflexivity.
  - rewrite Hs1, Hfst. simpl. apply lookup_insert_eq.
  - rewrite Hs1, Hfst. reflexivity.
  - rewrite Hs1, Hfst. reflexivity.
  - destruct (main_frame_stable
                (fun y => MainGo.f_callID y = id /\ main_dead y) n) with
      (tr := ta) (s := s1) as (y & Hy & Hid & Hgo & Hr & Hc & _).
    + apply main_dead_move.
    + rewrite Hs1, Hfst. simpl. eexists. split.
      * rewrite lookup_app_r by (unfold n; lia). unfold n. rewrite Nat.sub_diag. reflexivity.
      * repeat split.
    + unfold s1, MainGo.after in Hy. rewrite <- main_run_app in Hy.
      exists y. tauto.
  - simpl. unfold Details.processOffer.
    destruct (Details.generateSDPOffer request env (Details.after tb0)) as [s' r].
    simpl in Hb. subst r. reflexivity.
  - rewrite details_after_snoc. simpl. unfold Details.processOffer.
    destruct (Details.generateSDPOffer request env (Details.after tb0)) as [s' [e|ev]];
      simpl in *; [exact Hfstb|discriminate].
Qed.

Lemma failed_offer_leaves_unread_channel_witness :
  MainGo.actionChannels
    (MainGo.after
       (main_offer_c ++ [MainGo.PostOffer (Some (Scenario.offerRequest "c")) envNoEngine]))
    !! "c" = Some 1
  /\ MainGo.callIDToOffer
       (MainGo.after
          (main_offer_c ++ [MainGo.PostOffer (Some (Scenario.offerRequest "c")) envNoEngine]))
     = MainGo.callIDToOffer (MainGo.after main_offer_c)
  /\ (exists y,
        MainGo.frames
          (MainGo.after
             ((main_offer_c
               ++ [MainGo.PostOffer (Some (Scenario.offerRequest "c")) envNoEngine])
              ++ [MainGo.PostAction (Some (Scenario.accept "c"));
                  MainGo.WaiterReceive 1 true])) !! 1 = Some y
        /\ MainGo.f_go y = MainGo.GoNone /\ MainGo.f_consumed y = [])
  /\ Details.after
       ([] ++ [Details.PostOffer (Some (Scenario.offerRequest "c")) envNoEngine])
     = Details.after [].
Proof.
  pose proof (failed_offer_leaves_unread_channel main_offer_c
                [MainGo.PostAction (Some (Scenario.accept "c"));
                 MainGo.WaiterReceive 1 true] []
                (Scenario.offerRequest "c") envNoEngine "no engine" "no engine"
                eq_refl eq_refl) as (_ & Hch & Hreg & _ & (y & Hy & _ & Hgo & _ & Hc) & _ & Hb).
  split; [exact Hch|]. split; [exact Hreg|].
  split; [exists y; tauto|exact Hb].
Defined.

(** ** The goroutine of an offer that was closed before any decision
    (second program) *)







(** ** A pacer that has stopped, and the context that stops it *)

Lemma main_idle_move (p : Pacer) (t : list Sample) (x y : MainGo.Frame) :
  pacerStopped p = true -> main_idle p t x -> main_move x y -> main_idle p t y.
Proof.
  intros Hp (Hgo & Hpx & Ht) Hmove. unfold main_idle.
  destruct Hmove as [f|f m|f action ch released ok Hgo' Hrecv|f Hgo'|f file Hgo'|f Hgo'
                    |f ok|f|f Hr']; simpl in *; try tauto; try congruence.
  - unfold MainGo.tickFrame. rewrite Hpx. destruct p; try discriminate; tauto.
  - unfold MainGo.pacerStop. rewrite Hpx. destruct p; try discriminate; tauto.
Qed.

Lemma details_idle_move (p : Pacer) (t : list Sample) (x y : Details.Frame) :
  pacerStopped p = true -> details_idle p t x -> details_move x y -> details_idle p t y.
Proof.
  intros Hp (Hgo & Hpx & Ht) Hmove. unfold details_idle.
  destruct Hmove as [f|f m|f action ch released ok file Hgo' Hrecv|f|f connected|f ok
                    |f Hr']; simpl in *; try tauto; try congruence.
  - pose proof (details_closeReceiveFrame_go f) as Hg.
    unfold Details.closeReceiveFrame in *.
    destruct (Details.f_go f); try tauto.
    destruct (Details.f_closech f); simpl; tauto.
  - unfold Details.pacerIceFrame. rewrite Hpx. destruct p; try discriminate; tauto.
  - unfold Details.tickFrame. rewrite Hpx. destruct p; try discriminate; tauto.
Qed.

(** X11: a pacer that has finished (end of file, a read or write error,
    a cancelled context, lost connectivity) writes nothing more: in every
    continuation of the run, in either program, the pacer of that session
    is still finished and its track holds the samples it held. *)
Theorem finished_pacer_writes_nothing
    (ta0 ta : list MainGo.Label) (na : nat) (fa : MainGo.Frame)
    (tb0 tb : list Details.Label) (nb : nat) (fb : Details.Frame) :
  MainGo.frames (MainGo.after ta0) !! na = Some fa ->
  MainGo.f_pacer fa = PacerDone ->
  Details.frames (Details.after tb0) !! nb = Some fb ->
  Details.f_pacer fb = PacerDone ->
  (exists y, MainGo.frames (MainGo.after (ta0 ++ ta)) !! na = Some y
             /\ MainGo.f_pacer y = PacerDone
             /\ MainGo.f_track y = MainGo.f_track fa)
  /\ (exists y, Details.frames (Details.after (tb0 ++ tb)) !! nb = Some y
                /\ Details.f_pacer y = PacerDone
                /\ Details.f_track y = Details.f_track fb).
Proof.
  intros Ha Hpa Hb Hpb. split.
  - destruct (main_frame_stable _ na
                (fun x y => main_idle_move PacerDone (MainGo.f_track fa) x y eq_refl)
                ta (MainGo.after ta0)) as (y & Hy & _ & Hp & Ht).
    { exists fa. split; [exact Ha|]. repeat split; [|exact Hpa].
      apply (main_pacer_after_go_holds ta0 na fa Ha). rewrite Hpa. discriminate. }
    unfold MainGo.after in Hy. rewrite <- main_run_app in Hy.
    exists y. tauto.
  - destruct (details_frame_stable _ nb
                (fun x y => details_idle_move PacerDone (Details.f_track fb) x y eq_refl)
                tb (Details.after tb0)) as (y & Hy & _ & Hp & Ht).
    { exists fb. split; [exact Hb|]. repeat split; [|exact Hpb].
      apply (details_pacer_after_go_holds tb0 nb fb Hb). rewrite Hpb. discriminate. }
    unfold Details.after in Hy. rewrite <- details_run_app in Hy.
    exists y. tauto.
Qed.

Lemma finished_pacer_writes_nothing_witness :
  (exists y,
      MainGo.frames
        (MainGo.after
           ((main_two_pages ++ [MainGo.PacerTick 0 true; MainGo.PacerCtxDone 0])
            ++ [MainGo.PacerTick 0 true])) !! 0 = Some y
      /\ MainGo.f_pacer y = PacerDone
      /\ MainGo.f_track y = [{| Sample_Data := []; Sample_Duration := 20000000 |}])
  /\ (exists y,
      Details.frames
        (Details.after
           ((details_two_pages ++ [Details.PacerTick 0 true; Details.PacerIce 0 false])
            ++ [Details.PacerIce 0 true; Details.PacerTick 0 true])) !! 0 = Some y
      /\ Details.f_pacer y = PacerDone
      /\ Details.f_track y = [{| Sample_Data := []; Sample_Duration := 20000000 |}]).
Proof.
  assert (exists fa,
             MainGo.frames
               (MainGo.after
                  (main_two_pages ++ [MainGo.PacerTick 0 true; MainGo.PacerCtxDone 0]))
               !! 0 = Some fa
             /\ MainGo.f_pacer fa = PacerDone
             /\ MainGo.f_track fa = [{| Sample_Data := []; Sample_Duration := 20000000 |}])
    as (fa & Ha & Hpa & Hta)
    by (eexists; repeat split; vm_compute; reflexivity).
  assert (exists fb,
             Details.frames
               (Details.after
                  (details_two_pages ++ [Details.PacerTick 0 true; Details.PacerIce 0 false]))
               !! 0 = Some fb
             /\ Details.f_pacer fb = PacerDone
             /\ Details.f_track fb = [{| Sample_Data := []; Sample_Duration := 20000000 |}])
    as (fb & Hb & Hpb & Htb)
    by (eexists; repeat split; vm_compute; reflexivity).
  pose proof (finished_pacer_writes_nothing _ [MainGo.PacerTick 0 true] 0 fa
                _ [Details.PacerIce 0 true; Details.PacerTick 0 true] 0 fb
                Ha Hpa Hb Hpb) as H.
  rewrite Hta, Htb in H. exact H.
Defined.

Lemma main_ctx_by_flow_born (b : MainGo.Frame) : main_born b -> main_ctx_by_flow b.
Proof. intros [callID pc live _ _|callID pc _]; reflexivity. Qed.

Lemma main_ctx_by_flow_move (x y : MainGo.Frame) :
  main_ctx_by_flow x -> main_move x y -> main_ctx_by_flow y.
Proof.
  intros Hx Hmove. unfold main_ctx_by_flow in *.
  destruct Hmove as [f|f m|f action ch released ok Hgo Hrecv|f Hgo|f file Hgo|f Hgo
                    |f ok|f|f Hr]; simpl in *; try exact Hx.
  - unfold MainGo.receiveDecision.
    destruct (decide (Action action = "accept")); simpl; [|exact Hx].
    destruct (ok && negb (pc_closed (MainGo.f_pc f))); simpl; exact Hx.
  - unfold MainGo.tickFrame. destruct (MainGo.f_pacer f); try exact Hx.
    destruct (pacerTick ok lastGranule ogg). exact Hx.
  - unfold MainGo.pacerStop. destruct (MainGo.f_pacer f); try exact Hx.
    destruct (MainGo.f_ctx f) eqn:Hc; simpl; rewrite ?Hc; exact Hx.
Qed.

Lemma main_ctx_by_flow_holds (tr : list MainGo.Label) (n : nat) (f : MainGo.Frame) :
  MainGo.frames (MainGo.after tr) !! n = Some f -> main_ctx_by_flow f.
Proof.
  apply (main_frame_invariant main_ctx_by_flow
           main_ctx_by_flow_born main_ctx_by_flow_move tr MainGo.init).
  intros k g Hk. discriminate.
Qed.

Lemma main_onFrame_id (n : nat) (g : MainGo.Frame -> MainGo.Frame) (s : MainGo.State)
    (f : MainGo.Frame) :
  MainGo.frames s !! n = Some f -> g f = f -> MainGo.onFrame n g s = s.
Proof.
  intros Hf Hg. unfold MainGo.onFrame, MainGo.set_frames.
  assert (alter g n (MainGo.frames s) = MainGo.frames s) as ->.
  { apply list_eq. intros i. destruct (decide (n = i)) as [<-|Hne].
    - rewrite list_lookup_alter_eq, Hf. simpl. rewrite Hg. reflexivity.
    - rewrite list_lookup_alter_ne by exact Hne. reflexivity. }
  destruct s. reflexivity.
Qed.

(** X12: in the first program the context that generateSDPOffer hands to
    its goroutine is cancelled when the call returns (defer cancel()),
    and generateSDPAnswer hands on context.Background().  So in every run
    an accepted offer may leave streamAudio through ctx.Done() before
    connectivity comes, and then no sample is ever written for it; a
    running pacer of an offer may stop through ctx.Done() after any page,
    for good; and for a session of generateSDPAnswer none of the
    ctx.Done() cases can ever be taken. *)
Theorem offer_context_is_cancelled
    (ta0 ta : list MainGo.Label) (n : nat) (f : MainGo.Frame) :
  MainGo.frames (MainGo.after ta0) !! n = Some f ->
  (MainGo.f_flow f = OfferFlow ->
     MainGo.f_ctx f = true
     /\ (MainGo.f_go f = MainGo.GoStreamAudio ->
         exists y,
           MainGo.frames (MainGo.after ((ta0 ++ [MainGo.StreamCtxDone n]) ++ ta)) !! n
             = Some y
           /\ MainGo.f_go y = MainGo.GoReturned
           /\ MainGo.f_pacer y = PacerNone
           /\ MainGo.f_track y = MainGo.f_track f)
     /\ (forall lastGranule ogg, MainGo.f_pacer f = PacerLoop lastGranule ogg ->
         exists y,
           MainGo.frames (MainGo.after ((ta0 ++ [MainGo.PacerCtxDone n]) ++ ta)) !! n
             = Some y
           /\ MainGo.f_pacer y = PacerDone
           /\ MainGo.f_track y = MainGo.f_track f))
  /\ (MainGo.f_flow f = AnswerFlow ->
        MainGo.f_ctx f = false
        /\ MainGo.after (ta0 ++ [MainGo.WaiterCtxDone n]) = MainGo.after ta0
        /\ MainGo.after (ta0 ++ [MainGo.StreamCtxDone n]) = MainGo.after ta0
        /\ MainGo.after (ta0 ++ [MainGo.PacerCtxDone n]) = MainGo.after ta0).
Proof.
  intros Hf. pose proof (main_ctx_by_flow_holds ta0 n f Hf) as Hctx.
  unfold main_ctx_by_flow in Hctx. split; intros Hflow; rewrite Hflow in Hctx.
  - split; [exact Hctx|]. split.
    + intros Hgo.
      assert (MainGo.f_pacer f = PacerNone) as Hp.
      { destruct (MainGo.f_pacer f) eqn:Hp; [reflexivity| | |];
          assert (MainGo.f_go f = MainGo.GoReturned) as Hr
            by (apply (main_pacer_after_go_holds ta0 n f Hf); rewrite Hp; discriminate);
          congruence. }
      destruct (main_frame_stable _ n
                  (fun x y => main_idle_move PacerNone (MainGo.f_track f) x y eq_refl)
                  ta (MainGo.after (ta0 ++ [MainGo.StreamCtxDone n])))
        as (y & Hy & Hg & Hpy & Ht).
      { rewrite main_after_snoc. simpl. unfold MainGo.streamCtxDone.
        rewrite Hf, Hgo, Hctx, main_goReturn_frames. simpl.
        rewrite list_lookup_alter_eq, Hf. simpl. eexists. split; [reflexivity|].
        unfold main_idle. simpl. tauto. }
      unfold MainGo.after in Hy. rewrite <- main_run_app in Hy.
      exists y. tauto.
    + intros lastGranule ogg Hp.
      destruct (main_frame_stable _ n
                  (fun x y => main_idle_move PacerDone (MainGo.f_track f) x y eq_refl)
                  ta (MainGo.after (ta0 ++ [MainGo.PacerCtxDone n])))
        as (y & Hy & Hg & Hpy & Ht).
      { rewrite main_after_snoc. simpl.
        rewrite list_lookup_alter_eq, Hf. simpl. eexists. split; [reflexivity|].
        unfold main_idle, MainGo.pacerStop. rewrite Hp, Hctx. simpl.
        repeat split. apply (main_pacer_after_go_holds ta0 n f Hf).
        rewrite Hp. discriminate. }
      unfold MainGo.after in Hy. rewrite <- main_run_app in Hy.
      exists y. tauto.
  - split; [exact Hctx|]. rewrite !main_after_snoc. simpl.
    unfold MainGo.waiterCtxDone, MainGo.streamCtxDone, MainGo.pacerCtxDone.
    rewrite Hf, Hctx. repeat split.
    + destruct (MainGo.f_go f); reflexivity.
    + destruct (MainGo.f_go f); reflexivity.
    + apply (main_onFrame_id n MainGo.pacerStop _ f Hf).
      unfold MainGo.pacerStop. rewrite Hctx. destruct (MainGo.f_pacer f); reflexivity.
Qed.

Lemma offer_context_is_cancelled_witness :
  exists y,
    MainGo.frames
      (MainGo.after
         ((main_accepted ++ [MainGo.StreamCtxDone 0])
          ++ [MainGo.StreamIceConnected 0 (Some [Page [] 960]); MainGo.PacerTick 0 true]))
      !! 0 = Some y
    /\ MainGo.f_go y = MainGo.GoReturned
    /\ MainGo.f_pacer y = PacerNone
    /\ MainGo.f_track y = [].
Proof.
  assert (exists f, MainGo.frames (MainGo.after main_accepted) !! 0 = Some f
                    /\ MainGo.f_flow f = OfferFlow
                    /\ MainGo.f_go f = MainGo.GoStreamAudio
                    /\ MainGo.f_track f = []) as (f & Hf & Hflow & Hgo & Ht)
    by (eexists; repeat split; vm_compute; reflexivity).
  pose proof (proj1 (proj2 (proj1 (offer_context_is_cancelled main_accepted
                [MainGo.StreamIceConnected 0 (Some [Page [] 960]); MainGo.PacerTick 0 true]
                0 f Hf) Hflow)) Hgo) as H.
  rewrite Ht in H. exact H.
Defined.

(** ** An accept that reaches a waiting goroutine *)

Lemma chan_empty (c : Chan) : chan_ok c -> buf c = [] -> c = makeChan.
Proof.
  intros [_ Hq] Hb. destruct c as [b q]. simpl in *. subst b.
  destruct q; [reflexivity|]. exfalso. apply Hq; [discriminate|reflexivity].
Qed.

Lemma main_accept_then_receive (s : MainGo.State) (action : ActionRequest) (sdp : string)
    (n : nat) (f : MainGo.Frame) (ok : bool) :
  MainGo.callIDToOffer s !! ActionRequest_CallID action = Some n ->
  MainGo.actionChannels s !! ActionRequest_CallID action = Some n ->
  MainGo.frames s !! n = Some f ->
  MainGo.f_go f = MainGo.GoSelect ->
  MainGo.f_ch f = makeChan ->
  ActionRequest_Action action = "accept" ->
  findSDP action = Some sdp ->
  snd (MainGo.processAction (Some action) s) = Some processedJSON
  /\ MainGo.callIDToOffer (fst (MainGo.processAction (Some action) s))
     = MainGo.callIDToOffer s
  /\ MainGo.actionChannels (fst (MainGo.processAction (Some action) s))
     = MainGo.actionChannels s
  /\ MainGo.frames (fst (MainGo.processAction (Some action) s)) !! n
     = Some (MainGo.set_f_ch {| buf := [acceptData action sdp]; sendq := [] |} f)
  /\ snd (MainGo.waiterReceive n ok (fst (MainGo.processAction (Some action) s))) = 0
  /\ MainGo.frames
       (fst (MainGo.waiterReceive n ok (fst (MainGo.processAction (Some action) s)))) !! n
     = Some (MainGo.receiveDecision (acceptData action sdp) makeChan ok f).
Proof.
  intros Hreg Hch Hf Hgo Hc Hacc Hsdp.
  unfold MainGo.processAction. rewrite Hreg.
  assert (validCloseActions !! ActionRequest_Action action = None) as ->
    by (rewrite Hacc; reflexivity).
  destruct (decide (ActionRequest_Action action = "accept")); [|contradiction].
  rewrite Hsdp, Hch, Hf. unfold chanSend. rewrite Hc. simpl.
  split; [reflexivity|]. split; [reflexivity|]. split; [reflexivity|].
  split; [rewrite list_lookup_alter_eq, Hf; reflexivity|].
  unfold MainGo.waiterReceive. simpl.
  rewrite list_lookup_alter_eq, Hf. simpl. rewrite Hgo. unfold chanRecv. simpl.
  split; [reflexivity|].
  match goal with
  | |- context [MainGo.f_go ?x] =>
      change x with (MainGo.receiveDecision (acceptData action sdp) makeChan ok f)
  end.
  destruct (MainGo.f_go (MainGo.receiveDecision (acceptData action sdp) makeChan ok f));
    simpl; rewrite ?main_goReturn_frames; simpl;
    rewrite list_lookup_alter_eq, list_lookup_alter_eq, Hf; reflexivity.
Qed.

Lemma main_fresh_waiter (tr : list MainGo.Label) (n : nat) (f : MainGo.Frame) :
  MainGo.frames (MainGo.after tr) !! n = Some f ->
  MainGo.f_go f = MainGo.GoSelect ->
  buf (MainGo.f_ch f) = [] ->
  MainGo.f_ch f = makeChan /\ MainGo.f_consumed f = []
  /\ pc_remote (MainGo.f_pc f) = [] /\ MainGo.f_streamAudio f = 0.
Proof.
  intros Hf Hgo Hbuf.
  assert (MainGo.f_flow f = OfferFlow) as Hflow.
  { destruct (MainGo.f_flow f) eqn:Hfl; [reflexivity|].
    destruct (main_frame_invariant main_answer_streams
                main_answer_streams_born main_answer_streams_move
                tr MainGo.init (fun k g Hk => ltac:(discriminate)) n f Hf Hfl) as [Hne _].
    contradiction. }
  pose proof (main_single_decision_holds tr n f Hf Hflow) as (H1 & H2 & H3).
  unfold main_budget in *. rewrite Hgo in *.
  split.
  - apply chan_empty; [|exact Hbuf].
    apply (main_frame_invariant (fun f => chan_ok (MainGo.f_ch f))
             main_chan_ok_born main_chan_ok_move tr MainGo.init
             (fun k g Hk => ltac:(discriminate)) n f Hf).
  - repeat split.
    + destruct (MainGo.f_consumed f); [reflexivity|simpl in H1; lia].
    + destruct (pc_remote (MainGo.f_pc f)); [reflexivity|simpl in H2; lia].
    + lia.
Qed.

Lemma main_step_waiterReceive (n : nat) (ok : bool) (s : MainGo.State) :
  fst (MainGo.step (MainGo.WaiterReceive n ok) s) = fst (MainGo.waiterReceive n ok s).
Proof. simpl. destruct (MainGo.waiterReceive n ok s). reflexivity. Qed.

Lemma main_step_processAction (body : option ActionRequest) (s : MainGo.State) :
  fst (MainGo.step (MainGo.PostAction body) s) = fst (MainGo.processAction body s)
  /\ snd (MainGo.step (MainGo.PostAction body) s)
     = option_list (snd (MainGo.processAction body s)).
Proof. simpl. destruct (MainGo.processAction body s). split; reflexivity. Qed.

(** X13: in the first program, from any state a run can reach: when both
    registries name the same frame under a call id, the goroutine of that
    frame is waiting and its channel is empty, an accept that carries a
    description is answered 200 at once, and the goroutine's receive
    hands exactly that description, typed "answer", to
    SetRemoteDescription of the registered transport, which is open.  If
    the engine takes it, the goroutine enters streamAudio, once; if the
    engine refuses it, the goroutine returns and streamAudio is not
    entered. *)
Theorem accepted_offer_enters_streamAudio
    (ta0 : list MainGo.Label) (action : ActionRequest) (sdp : string)
    (n : nat) (f : MainGo.Frame) :
  MainGo.callIDToOffer (MainGo.after ta0) !! ActionRequest_CallID action = Some n ->
  MainGo.actionChannels (MainGo.after ta0) !! ActionRequest_CallID action = Some n ->
  MainGo.frames (MainGo.after ta0) !! n = Some f ->
  MainGo.f_go f = MainGo.GoSelect ->
  buf (MainGo.f_ch f) = [] ->
  ActionRequest_Action action = "accept" ->
  findSDP action = Some sdp ->
  snd (MainGo.step (MainGo.PostAction (Some action)) (MainGo.after ta0)) = [processedJSON]
  /\ (exists y,
        MainGo.frames
          (MainGo.after (ta0 ++ [MainGo.PostAction (Some action); MainGo.WaiterReceive n true]))
          !! n = Some y
        /\ MainGo.f_go y = MainGo.GoStreamAudio
        /\ MainGo.f_streamAudio y = 1
        /\ pc_closed (MainGo.f_pc y) = false
        /\ pc_remote (MainGo.f_pc y) = [({| SDP := sdp; Type_ := "answer" |}, true)]
        /\ MainGo.f_consumed y = [acceptData action sdp]
        /\ pending (MainGo.f_ch y) = [])
  /\ (exists y,
        MainGo.frames
          (MainGo.after (ta0 ++ [MainGo.PostAction (Some action); MainGo.WaiterReceive n false]))
          !! n = Some y
        /\ MainGo.f_go y = MainGo.GoReturned
        /\ MainGo.f_streamAudio y = 0
        /\ pc_remote (MainGo.f_pc y) = [({| SDP := sdp; Type_ := "answer" |}, false)]).
Proof.
  intros Hreg Hch Hf Hgo Hbuf Hacc Hsdp.
  destruct (main_fresh_waiter ta0 n f Hf Hgo Hbuf) as (Hc & Hcons & Hrem & Hsa).
  destruct (main_registry_sound ta0 _ n Hreg) as (g & Hg & _ & _ & Hopen).
  rewrite Hf in Hg. injection Hg as <-.
  assert (forall ok,
             MainGo.frames
               (MainGo.after
                  (ta0 ++ [MainGo.PostAction (Some action); MainGo.WaiterReceive n ok]))
               !! n
             = Some (MainGo.receiveDecision (acceptData action sdp) makeChan ok f)) as Hrun.
  { intros ok.
    change [MainGo.PostAction (Some action); MainGo.WaiterReceive n ok]
      with ([MainGo.PostAction (Some action)] ++ [MainGo.WaiterReceive n ok]).
    rewrite app_assoc, main_after_snoc, main_after_snoc, main_step_waiterReceive.
    rewrite (proj1 (main_step_processAction _ _)).
    exact (proj2 (proj2 (proj2 (proj2 (proj2
             (main_accept_then_receive _ action sdp n f ok Hreg Hch Hf Hgo Hc Hacc Hsdp)))))). }
  split; [|split].
  - rewrite (proj2 (main_step_processAction _ _)).
    rewrite (proj1 (main_accept_then_receive _ action sdp n f true
                      Hreg Hch Hf Hgo Hc Hacc Hsdp)).
    reflexivity.
  - eexists. split; [apply Hrun|].
    unfold MainGo.receiveDecision, acceptData. simpl.
    destruct (decide (ActionRequest_Action action = "accept")); [|contradiction].
    rewrite Hopen. simpl. rewrite Hsa, Hrem, Hcons, Hacc. repeat split.
  - eexists. split; [apply Hrun|].
    unfold MainGo.receiveDecision, acceptData. simpl.
    destruct (decide (ActionRequest_Action action = "accept")); [|contradiction].
    simpl. rewrite Hsa, Hrem. repeat split.
Qed.

Lemma accepted_offer_enters_streamAudio_witness :
  exists y,
    MainGo.frames
      (MainGo.after
         (main_offer_c
          ++ [MainGo.PostAction (Some (Scenario.accept "c")); MainGo.WaiterReceive 0 true]))
      !! 0 = Some y
    /\ MainGo.f_go y = MainGo.GoStreamAudio
    /\ MainGo.f_streamAudio y = 1
    /\ pc_closed (MainGo.f_pc y) = false
    /\ pc_remote (MainGo.f_pc y) = [({| SDP := "v=0 remote"; Type_ := "answer" |}, true)]
    /\ MainGo.f_consumed y = [acceptData (Scenario.accept "c") "v=0 remote"]
    /\ pending (MainGo.f_ch y) = [].
Proof.
  exact (proj1 (proj2 (accepted_offer_enters_streamAudio main_offer_c (Scenario.accept "c")
                         "v=0 remote" 0
                         (MainGo.offerFrame "c"
                            (SetLocalDescription (LocalDescription Scenario.env0)
                               newPeerConnection) true)
                         eq_refl eq_refl eq_refl eq_refl eq_refl eq_refl eq_refl))).
Defined.

Lemma details_accept_then_receive (s : Details.State) (action : ActionRequest)
    (sdp : string) (d : Details.CallIDDetails) (h : nat) (f : Details.Frame) (ok : bool)
    (file : option (list ParseResult)) :
  Details.ActionChannels s !! ActionRequest_CallID action = Some d ->
  Details.pc d = Some h ->
  Details.frames s !! Details.ch d = Some f ->
  Details.f_go f = Details.GoSelect ->
  Details.f_ch f = makeChan ->
  ActionRequest_Action action = "accept" ->
  findSDP action = Some sdp ->
  snd (Details.processAction (Some action) s) = Some processedJSON
  /\ Details.frames
       (fst (Details.waiterReceive (Details.ch d) ok file
               (fst (Details.processAction (Some action) s)))) !! Details.ch d
     = Some (Details.receiveDecision (acceptData action sdp) makeChan ok file f).
Proof.
  intros Hreg Hpc Hf Hgo Hc Hacc Hsdp.
  unfold Details.processAction. rewrite Hreg, Hpc.
  assert (validCloseActions !! ActionRequest_Action action = None) as ->
    by (rewrite Hacc; reflexivity).
  destruct (decide (ActionRequest_Action action = "accept")); [|contradiction].
  rewrite Hsdp, Hf. unfold chanSend. rewrite Hc. simpl.
  split; [reflexivity|].
  unfold Details.waiterReceive. simpl.
  rewrite list_lookup_alter_eq, Hf. simpl. rewrite Hgo. unfold chanRecv. simpl.
  rewrite list_lookup_alter_eq, list_lookup_alter_eq, Hf. reflexivity.
Qed.

Lemma details_fresh_waiter (tr : list Details.Label) (n : nat) (f : Details.Frame) :
  Details.frames (Details.after tr) !! n = Some f ->
  Details.f_go f = Details.GoSelect ->
  buf (Details.f_ch f) = [] ->
  Details.f_ch f = makeChan /\ Details.f_consumed f = []
  /\ pc_remote (Details.f_pc f) = [] /\ Details.f_streamAudio f = 0.
Proof.
  intros Hf Hgo Hbuf.
  assert (Details.f_flow f = OfferFlow) as Hflow.
  { destruct (Details.f_flow f) eqn:Hfl; [reflexivity|].
    destruct (details_frame_invariant details_answer_streams
                details_answer_streams_born details_answer_streams_move
                tr Details.init (fun k g Hk => ltac:(discriminate)) n f Hf Hfl) as [Hne _].
    contradiction. }
  pose proof (details_single_decision_holds tr n f Hf Hflow) as (H1 & H2 & H3).
  unfold details_budget in *. rewrite Hgo in *.
  split.
  - apply chan_empty; [|exact Hbuf].
    apply (details_frame_invariant (fun f => chan_ok (Details.f_ch f))
             details_chan_ok_born details_chan_ok_move tr Details.init
             (fun k g Hk => ltac:(discriminate)) n f Hf).
  - repeat split.
    + destruct (Details.f_consumed f); [reflexivity|simpl in H1; lia].
    + destruct (pc_remote (Details.f_pc f)); [reflexivity|simpl in H2; lia].
    + lia.
Qed.

Lemma details_step_waiterReceive (n : nat) (ok : bool) (file : option (list ParseResult))
    (s : Details.State) :
  fst (Details.step (Details.WaiterReceive n ok file) s)
  = fst (Details.waiterReceive n ok file s).
Proof. simpl. destruct (Details.waiterReceive n ok file s). reflexivity. Qed.

Lemma details_step_processAction (body : option ActionRequest) (s : Details.State) :
  fst (Details.step (Details.PostAction body) s) = fst (Details.processAction body s)
  /\ snd (Details.step (Details.PostAction body) s)
     = option_list (snd (Details.processAction body s)).
Proof. simpl. destruct (Details.processAction body s). split; reflexivity. Qed.

(** X14: in the second program, from any state a run can reach: when the
    registry has an entry for a call id whose goroutine is waiting on an
    empty channel, an accept that carries a description is answered 200
    at once, and the goroutine's receive hands exactly that description,
    typed "answer", to SetRemoteDescription of the entry's own transport,
    which is open.  If the engine takes it, streamAudio is started, once,
    and the goroutine goes on to wait for the reaper; if the engine
    refuses it, the goroutine returns and streamAudio is not started. *)
Theorem accepted_offer_starts_streamAudio
    (tb0 : list Details.Label) (action : ActionRequest) (sdp : string)
    (d : Details.CallIDDetails) (f : Details.Frame) (file : option (list ParseResult)) :
  Details.ActionChannels (Details.after tb0) !! ActionRequest_CallID action = Some d ->
  Details.frames (Details.after tb0) !! Details.ch d = Some f ->
  Details.f_go f = Details.GoSelect ->
  buf (Details.f_ch f) = [] ->
  ActionRequest_Action action = "accept" ->
  findSDP action = Some sdp ->
  snd (Details.step (Details.PostAction (Some action)) (Details.after tb0))
    = [processedJSON]
  /\ (exists y,
        Details.frames
          (Details.after
             (tb0 ++ [Details.PostAction (Some action);
                      Details.WaiterReceive (Details.ch d) true file]))
          !! Details.ch d = Some y
        /\ Details.f_go y = Details.GoCloseWait
        /\ Details.f_streamAudio y = 1
        /\ Details.f_pacer y = pacerOpen file PacerWaitIce
        /\ pc_closed (Details.f_pc y) = false
        /\ pc_remote (Details.f_pc y) = [({| SDP := sdp; Type_ := "answer" |}, true)]
        /\ Details.f_consumed y = [acceptData action sdp]
        /\ pending (Details.f_ch y) = [])
  /\ (exists y,
        Details.frames
          (Details.after
             (tb0 ++ [Details.PostAction (Some action);
                      Details.WaiterReceive (Details.ch d) false file]))
          !! Details.ch d = Some y
        /\ Details.f_go y = Details.GoReturned
        /\ Details.f_streamAudio y = 0
        /\ Details.f_pacer y = Details.f_pacer f
        /\ pc_remote (Details.f_pc y) = [({| SDP := sdp; Type_ := "answer" |}, false)]).
Proof.
  intros Hreg Hf Hgo Hbuf Hacc Hsdp.
  destruct (details_fresh_waiter tb0 _ f Hf Hgo Hbuf) as (Hc & Hcons & Hrem & Hsa).
  destruct (details_registry_sound tb0 _ d Hreg) as (g & Hpc & Hg & _ & _ & Hopen).
  rewrite Hf in Hg. injection Hg as <-.
  assert (forall ok,
             Details.frames
               (Details.after
                  (tb0 ++ [Details.PostAction (Some action);
                           Details.WaiterReceive (Details.ch d) ok file]))
               !! Details.ch d
             = Some (Details.receiveDecision (acceptData action sdp) makeChan ok file f))
    as Hrun.
  { intros ok.
    change [Details.PostAction (Some action); Details.WaiterReceive (Details.ch d) ok file]
      with ([Details.PostAction (Some action)]
            ++ [Details.WaiterReceive (Details.ch d) ok file]).
    rewrite app_assoc, details_after_snoc, details_after_snoc, details_step_waiterReceive.
    rewrite (proj1 (details_step_processAction _ _)).
    exact (proj2 (details_accept_then_receive _ action sdp d _ f ok file
                    Hreg Hpc Hf Hgo Hc Hacc Hsdp)). }
  split; [|split].
  - rewrite (proj2 (details_step_processAction _ _)).
    rewrite (proj1 (details_accept_then_receive _ action sdp d _ f true file
                      Hreg Hpc Hf Hgo Hc Hacc Hsdp)).
    reflexivity.
  - eexists. split; [apply Hrun|].
    unfold Details.receiveDecision, acceptData. simpl.
    destruct (decide (ActionRequest_Action action = "accept")); [|contradiction].
    rewrite Hopen. simpl. rewrite Hsa, Hrem, Hcons, Hacc. repeat split.
  - eexists. split; [apply Hrun|].
    unfold Details.receiveDecision, acceptData. simpl.
    destruct (decide (ActionRequest_Action action = "accept")); [|contradiction].
    simpl. rewrite Hsa, Hrem. repeat split.
Qed.

Lemma accepted_offer_starts_streamAudio_witness :
  exists y,
    Details.frames
      (Details.after
         (details_offer_c
          ++ [Details.PostAction (Some (Scenario.accept "c"));
              Details.WaiterReceive 0 true (Some [Page [] 960])]))
      !! 0 = Some y
    /\ Details.f_go y = Details.GoCloseWait
    /\ Details.f_streamAudio y = 1
    /\ Details.f_pacer y = PacerWaitIce [Page [] 960]
    /\ pc_closed (Details.f_pc y) = false
    /\ pc_remote (Details.f_pc y) = [({| SDP := "v=0 remote"; Type_ := "answer" |}, true)]
    /\ Details.f_consumed y = [acceptData (Scenario.accept "c") "v=0 remote"]
    /\ pending (Details.f_ch y) = [].
Proof.
  exact (proj1 (proj2 (accepted_offer_starts_streamAudio details_offer_c
                         (Scenario.accept "c") "v=0 remote"
                         {| Details.pc := Some 0; Details.ch := 0 |}
                         (Details.offerFrame "c"
                            (SetLocalDescription (LocalDescription Scenario.env0)
                               newPeerConnection))
                         (Some [Page [] 960])
                         eq_refl eq_refl eq_refl eq_refl eq_refl eq_refl))).
Defined.

(** ** The interrupt handler of main *)

Section fold_alter.
Context {A V : Type} (g : A -> A) (h : V -> option nat).
Hypothesis g_idem : forall x, g (g x) = g x.

End fold_alter.



(** ** The channels that actionChannels names (first program) *)









(** ** closech (second program) *)

Lemma details_closech_ok_born (b : Details.Frame) : details_born b -> details_closech_ok b.
Proof.
  intros [callID pc _ _|callID pc file _]; unfold details_closech_ok; simpl;
    (split; [discriminate|]; split; [reflexivity|left; reflexivity]).
Qed.

Lemma details_closech_ok_move (x y : Details.Frame) :
  details_closech_ok x -> details_move x y -> details_closech_ok y.
Proof.
  intros (Hr & Hs & Hc) Hmove. unfold details_closech_ok.
  destruct Hmove as [f|f m|f action ch released ok file Hgo Hrecv|f|f connected|f ok
                    |f Hr']; simpl in *; try tauto.
  - unfold Details.receiveDecision.
    destruct (decide (Action action = "accept")); simpl; [|tauto].
    destruct (ok && negb (pc_closed (Details.f_pc f))); simpl; tauto.
  - unfold Details.closeReceiveFrame.
    destruct (Details.f_go f); try tauto.
    destruct (Details.f_closech f) as [|z rest] eqn:Hcl; simpl; [tauto|].
    split; [exact Hr|].
    assert (rest = []) as -> by (destruct Hc as [Hc|Hc]; congruence).
    split; [reflexivity|left; reflexivity].
  - unfold Details.pacerIceFrame.
    destruct (Details.f_pacer f); simpl; try tauto; destruct connected; simpl; tauto.
  - unfold Details.tickFrame. destruct (Details.f_pacer f); simpl; try tauto.
    destruct (pacerTick ok lastGranule ogg). simpl. tauto.
  - split; [discriminate|]. split; [discriminate|].
    right. rewrite (Hs Hr'). reflexivity.
Qed.

(** X17: in every run of the second program, closech of every session is
    empty as long as the session's reaper sleeps and never holds more
    than the one value the reaper sends: the send at the end of
    autoRemovePeerConnection always finds room in the buffer, so a reaper
    never parks, whether or not a goroutine is left to receive. *)
Theorem reaper_send_finds_room (tb : list Details.Label) :
  forall n f, Details.frames (Details.after tb) !! n = Some f ->
    Details.f_reaper f <> ReaperNone
    /\ (Details.f_reaper f = ReaperSleeping -> Details.f_closech f = [])
    /\ (Details.f_closech f = [] \/ Details.f_closech f = [1%Z]).
Proof.
  intros n f Hf.
  apply (details_frame_invariant details_closech_ok
           details_closech_ok_born details_closech_ok_move tb Details.init
           (fun k g Hk => ltac:(discriminate)) n f Hf).
Qed.

Lemma reaper_send_finds_room_witness :
  exists f, Details.frames (Details.after details_unanswered) !! 0 = Some f
            /\ Details.f_reaper f <> ReaperNone
            /\ (Details.f_reaper f = ReaperSleeping -> Details.f_closech f = [])
            /\ (Details.f_closech f = [] \/ Details.f_closech f = [1%Z]).
Proof.
  assert (exists f, Details.frames (Details.after details_unanswered) !! 0 = Some f)
    as [f Hf] by (eexists; vm_compute; reflexivity).
  exists f. split; [exact Hf|].
  exact (reaper_send_finds_room details_unanswered 0 f Hf).
Defined.
